(* ===== verification/_CoqProject ===== *)
-Q . S2P
Prelude.v
JsString.v
RegExp.v
Patterns.v
JsValue.v
Json.v
Decoder.v
Tokens.v
Registry.v
Effects.v
Steps.v
Action.v
Spec.v
Run.v
Secrecy.v
Liveness.v
