(* ===== verification/Prelude.v ===== *)
(** * Cloudways operations action: verification library

    The program is [src/index.js], a GitHub action that turns one
    operation string such as [service.php8.0-fpm.restart] into an
    authenticated POST against the Cloudways API.  It has six parts, all in
    the one source file, and this library has a file for each group of
    them and for each layer of the JavaScript they are written in.

    ** The program and the files that model it

    - The endpoint registry ([supportedEndpoints], lines 6 to 26, and the
      lookup [supportedEndpoints[operation]] of line 114) and the
      parameter validator ([validateParameters], lines 82 to 84) are in
      [Registry]: the table is an association list, the lookup returns a
      [lookupResult] that tells an entry of the table from a value
      inherited from [Object.prototype] and from nothing, and the
      validator compares [Object.keys(...).length] with the number of
      parameters, throwing on [undefined] as [Object.keys] does.
    - The operation decoder (lines 89 to 113 of [run]) is in [Decoder]:
      [protectStep] and [protectLoop] are the loop of lines 94 to 102 with
      its two variables [operationStr] and [serviceStringReplacements] as
      the state, [restoreArg] is the callback of [map] (lines 105 to 110)
      and [decodeOperation] composes them with the split and the [shift].
      The two patterns of the decoder, [/php\d+\.\d+-fpm/] of line 90 and
      [/\$(\d)+/] of line 105, are in [Patterns] with their languages.
      [Tokens] holds the decoder that the specification describes
      ([tokens], a scan that takes every service name whole, and
      [decodeSpec]) and the test [oneWholeName] of the strings on which
      the code is that decoder.
    - The authenticator ([getOauthToken], lines 29 to 44) and the command
      dispatcher ([optionsWithAuth], lines 47 to 56, and [command], lines
      58 to 80) are in [Action], with the test of the token of line 127
      ([tokenMissing]) and the texts of the messages.  [fillBody] is the
      loop of lines 64 to 66, which shifts one parameter for each declared
      name.
    - The orchestration ([run], lines 87 to 144) is in [Run]: [runBody] is
      the body of the [try], with each [throw], [core.info], [await] and
      test in the order of the source, and [run] wraps it in the [catch]
      of line 141.  [main], in [Liveness], is the call [run()] of line
      146: the configuration in which the action starts.
    - [Spec] states what a run promises: the three phases [resolved],
      [authenticate] and [dispatch], the [outcome] that they give, the
      [requests] that they need and the calls of a run in order
      ([trace]).
    - [Secrecy] states where the secrets of a run flow: an observer is a
      function on events that hides a part of a request
      ([withoutCredentials], [withoutBearer]), and two runs are compared
      through it.

    ** The JavaScript underneath

    - [Prelude] (this file): strings as lists of characters with their
      notation, the errors that can be thrown ([jsError]) and the type of
      computations that return or throw ([result], with the notations of
      stdpp's monads).
    - [JsString]: [split], [replace] with its replacement template,
      the text of a number, and sparse arrays ([arraySet], [arrayGet],
      [arrayShift]); a hole and [undefined] are both [None].
    - [RegExp]: the patterns ([regex]), the backtracking matcher
      ([matchRe], in continuation-passing style, with the capture reset
      and the empty-iteration check of the language standard), [exec],
      [test] and [match], and the language of a pattern ([matches]) that
      the matcher is proved sound and complete for.  [exec] is a scan
      over a matcher at one position, and its theorems hold for every
      matcher that meets the interface [PositionMatcher].
    - [JsValue]: parsed JSON ([jsval]), truthiness, property reads,
      conversion to text, [== 0] and [JSON.stringify]; object literals
      with string values ([jsObject]) for the bodies of the requests.
    - [Json]: a reader for the grammar of JSON ([jsonRead]: white space,
      the words, number literals as an automaton, string literals with
      their escapes, arrays and objects), the reference against which
      the text of [JSON.stringify] is judged.  It keeps a number as the
      text of its literal and the members of an object as written.
    - [Effects]: the calls that leave the action ([fetch], [core.info],
      [core.setOutput], [core.setFailed]) as the nodes of a program tree
      [io], the interpreter [execIO] that runs a tree against a [world],
      and [tryCatch].  An [await] is sequencing, a rejected promise is a
      thrown error.  [core.getInput] is a function [getInput] from the
      name of an input to its value, a parameter of every definition that
      reads the configuration.  Two worlds [agree] on a range of
      requests when they answer them alike.
    - [Steps]: the same programs one call at a time.  A configuration
      ([config]) is what is left of the program, the number of requests
      made and the events so far; [step] is the transition relation, one
      rule for each call, and [stepOf] and [stepsOf] compute it.  A
      [world] answers every request; a [network] may leave a request
      without an answer, the promise of [fetch] or of [json()] that never
      settles (lines 43, 70 and 72 set no timeout).  [nstep] is the
      relation in a network: a request takes its step when it is
      answered, and a run whose request at the head of the program has no
      answer is [suspended].  The event of a request is recorded when its
      call returns.

    ** What the theorems show

    - [Run]: the run reports the outcome of [Spec] ([run_outcome]) and
      sends its requests ([run_requests]); it reports exactly once, at
      its end, and never lets an error escape ([run_reports_once]); it
      sends nothing before the operation is resolved
      ([run_resolves_before_request]) and at most two requests
      ([run_at_most_two_requests]); the body of the request pairs the
      declared names with the parameters in order ([run_request_body]),
      and the request of the operation is a POST to the endpoint of the
      entry with the token of the first answer as bearer and that body
      as its text ([run_operation_request]).
      One theorem for each path gives the whole trace: success, unknown
      operation, wrong number of parameters, refused credentials, missing
      token, refused operation, and an operation named like a property
      of [Object.prototype].  The decoder, the registry, the validator
      and the dispatcher compose: [service.<name>.<state>] is accepted
      and its body holds the name unbroken ([run_service_operation]).
      The run sees the network through its first two answers only
      ([run_two_answers]) and the configuration through the four inputs
      [operation], [email], [api-key] and [server-id] only: two
      configurations that agree on them ([agreeOn inputsRead]) give the
      same program ([run_inputs]), and each of the four matters
      ([run_reads_each_input]).
    - [Run]: the calls of a run are those of the specification, in
      order ([run_spec]); every other theorem on a whole run follows
      from it or from the shape of the program.
    - [Secrecy]: the e-mail address and the API key reach the body of
      the token request and nothing else ([run_credentials_confined]);
      the token reaches the header [Authorization] of the request of
      the operation and nothing else ([run_token_confined]).  Neither is
      logged or reported.
    - [Steps]: in a world the relation is deterministic, every
      configuration that is not final has a step, every sequence of
      steps is finite ([step_sn]), and the sequences of steps end where
      [execIO] ends ([steps_execIO]), so the theorems of [Run] on traces
      are theorems on what the steps emit.  In a network a configuration
      is final, suspended or takes a step ([nstep_progress]); a property
      holds [eventually] when every sequence of steps reaches it; a
      program that reports once has eventually reported exactly when the
      network answers each request that it comes to make
      ([reportsOnce_eventually], through [completes]), and these are the
      requests of its trace in any world that extends the network
      ([completes_answersFrom]).
    - [Liveness]: in a network the run reports exactly when the requests
      that it makes are answered, the request for a token once the
      operation is resolved and the request of the operation once a
      token is granted ([run_reports_when_answered]); otherwise it is
      suspended at the request without an answer, with nothing reported
      and the first calls of the specification made ([run_suspended]).
      In a world, the calls made at every point are the first calls of
      the specification ([run_refines_trace]); every request is a POST
      of a JSON object to a path of the API ([run_requests_wellFormed]).
    - [Decoder]: decoding is a plain split when no pattern matches
      ([decode_plain]); a service name after the operation survives the
      split ([decode_service_name]), and so does the first service name
      at any position among pieces without a dot, while the text around
      it in its piece is dropped ([decode_name_in_piece]);
      digits after the name, or a placeholder in the input, give
      [undefined] ([decode_name_then_digits], [restoreArg_unrecorded]);
      the decoder never throws ([decode_total]), whatever the list of
      patterns ([protectLoop_total_any]), and the loop leaves the slots
      below its index as they are ([protectLoop_slots]).  The
      placeholder [$i] of the round [i] is restored to the text that the
      round set aside exactly when [i] is below ten
      ([protectStep_restored]).
    - [Tokens]: the code gives the tokens of the specification exactly
      on the strings without a placeholder whose first service name is
      a whole piece and the only name ([decode_refines_tokens], from
      [decode_tokens_intro] and [decode_tokens_inv]).  The tokenizer
      loses no character ([strJoin_tokens]); the tokens of a string
      without a name are its pieces ([tokens_plain]), those of pieces
      around a name are the pieces and the name ([tokens_around_name]);
      on a second name, on text around a name and on a placeholder of
      the input the code differs ([decode_differs]).  On the strings of
      the test, joining what the code decoded with dots
      ([encodeOperation]) gives the operation string back
      ([decode_encode]), so the code is injective there
      ([decodeOperation_inj]); outside them it is not
      ([decodeOperation_not_inj]).
    - [Patterns]: the words of the service-name pattern have one dot,
      between a part that starts with [p] and a part that starts with a
      digit ([phpFpm_shape]), start with [ph] and hold no other [h]
      ([phpFpm_ends]); [exec] finds a service name that follows a text
      without one at the end of that text ([regexExec_first_name]).
    - [Registry]: the validator is a check of arity
      ([validateParameters_arity]); the registry has exactly its three
      entries ([lookupEndpoint_own]) and each is well formed.
    - [Action]: a token that is a string is rejected exactly when it is
      empty ([tokenMissing_JStr]): the property [legnth] decides nothing.
    - [RegExp]: [exec] returns the leftmost match of the language and
      [null] exactly when there is none ([regexExec_correct]); [test] is
      false exactly when no part of the text is in the language
      ([regexTest_false_spec]), hence false on every part of a text on
      which it is false ([regexTest_part_false]); in
      [Decoder], the match of the placeholder pattern is a direct scan
      for a dollar and digits ([strMatch_placeholder]).
    - [Action]: the body of the token request reads as the two inputs,
      whatever characters they hold ([tokenRequest_body_reads]).
    - [Json]: the text that [JSON.stringify] prints reads back as the
      value ([jsonRead_stringify]), so two values with the same text are
      the same value; everything that the reader gives has number
      literals for its numbers.
    - [JsString], [JsValue], [Effects]: round trip of [split] and [join],
      the number of pieces, the first occurrence that [replace] rewrites,
      the decimal text of an index read back as the index
      ([canonicalIndex_natToString]), reads after writes of the slots of
      an array ([arrayGet_arraySet]) and of the properties of an object,
      sequencing and [try].  Errors, values, requests and events have
      decidable equality ([EqDecision]).

    ** Bounds and fuel

    The only loop without a structural argument is the quantifier of the
    matcher ([repeatMore]); its fuel is the length of the text that is
    left.  Every accepted iteration consumes a character, so the fuel is
    never the reason for a failure: the matcher is complete for the
    language ([matchRe_complete]).  Numbers are unbounded: the only
    arithmetic of the program is on lengths and on the index of a loop
    over a list of one pattern.  The reader of [Json] takes one unit of
    fuel for each value, item and member, and [jsonRead] gives it the
    length of the text: each of them prints at least one character, so
    the fuel is enough for every printed value ([weight_length]).  The
    steps of [Steps] need no fuel: a
    program is a finite tree and a step goes to a subtree ([step_sn]),
    so a run can only fail to end by waiting for an answer, which
    [nstep] and [suspended] make explicit; [stepsOf] and [nstepsOf] take
    the number of steps to make, and six steps end the longest run (two
    requests, three logs, one report).  The tokenizer
    of [Tokens] recurses on the string: where a service name starts it
    counts the characters of the name that are still to be taken, in
    the place of a jump over the name.

    ** What is not modelled

    - The toolkit and the transport: what [core.setFailed] does to the
      process, how [fetch] reaches the network.  They are libraries that
      the source only calls; the model records the calls and lets the
      world answer.  An event [EvSetFailed] records the error that was
      caught, of which the toolkit is given the message.
    - Worlds answer every request: the theorems of [Run] and [Secrecy]
      are about runs in which each promise settles, with a value or a
      rejection.  What a run does when one does not is in [Steps] and
      [Liveness], over networks.
    - The built-ins of the language ([split], [replace], [match],
      [test], [JSON.stringify], array slots) are modelled from the
      language standard for the arguments that the code passes them; the
      lines that the map gives for them are the lines of the calls.
    - The names that [lookupEndpoint] takes as inherited are the
      properties of [Object.prototype] in Node; another engine may
      define others.
    - An object literal is an association list, and [objSet] is the
      assignment [body[key] = value] for a key that is neither an array
      index nor [__proto__]; the names of the registry are such keys
      ([lookupEndpoint_wellFormed]).
    - Strings beyond 8-bit code units: the literals and patterns of the
      program are ASCII, and a configuration value is carried through
      without being inspected beyond the characters [.], [$], [p], [h],
      [-], [f], [m] and the digits.
    - The parsing of the answers: [res.json()] is an answer of the
      world, a parsed value or an error.  The reader of [Json] is not
      put in its place, because [JSON.parse] also converts each number
      and merges the members of an object that share a key.
    - Numbers in JSON beyond their text, and the conversion of a string
      to a number: [stringIsZero] of the class [JsEngine] stands for it
      and every theorem holds for every engine.
    - Property reads of the names that a string, an array or a function
      defines itself ([length] and the like): [getProp] covers the four
      names that the program reads, none of which is built in.

    Files, in dependency order: [Prelude], [JsString], [RegExp],
    [Patterns], [JsValue], [Json], [Decoder], [Tokens], [Registry],
    [Effects], [Steps], [Action], [Spec], [Run], [Secrecy], [Liveness]. *)

From Stdlib Require Import Ascii String Arith Lia.
From stdpp Require Import base tactics option list.

(** ** Strings

    A JavaScript string is modelled as the list of its code units; the model
    keeps the code units below 256, which covers every character the
    program's literals and regular expressions mention. *)

Abbreviation str := (list ascii).

Inductive str_lit : Type :=
| LNil
| LCons (a : ascii) (s : str_lit).

Fixpoint str_parse (l : list Byte.byte) : str_lit :=
  match l with
  | [] => LNil
  | b :: l => LCons (ascii_of_byte b) (str_parse l)
  end.

Fixpoint str_print (s : str_lit) : list Byte.byte :=
  match s with
  | LNil => []
  | LCons a s => byte_of_ascii a :: str_print s
  end.

Declare Scope str_scope.
Delimit Scope str_scope with str.
#[warnings="-via-type-remapping,-via-type-mismatch"]
String Notation list str_parse str_print
  (via str_lit mapping [[nil] => LNil, [cons] => LCons]) : str_scope.

#[global] Instance ascii_eq_dec : EqDecision ascii := Ascii.ascii_dec.

(** [isDigit c] is the character class [\d]: the ten ASCII digits. *)
Definition isDigit (c : ascii) : bool :=
  (48 <=? nat_of_ascii c) && (nat_of_ascii c <=? 57).

(** ** Automation

    The hint database [io] collects the lemmas on the shape of programs
    ([Effects], [Action]). *)

Create HintDb io discriminated.

(** ** Errors

    What a [throw] or a rejected promise carries.  The action builds its
    own errors with [new Error(message)]; the engine throws a [TypeError]
    when a property of [null] or [undefined] is read, when [Object.keys] is
    given [undefined], when [for ... of] is given [undefined] and when an
    object cannot be turned into a string;
    the HTTP client rejects with an error of its own.  The text of an
    engine's message depends on the engine, so a [TypeError] is kept as its
    cause. *)

Inductive typeErrorCause : Type :=
| ReadPropertyOfNull (prop : str)
| ReadPropertyOfUndefined (prop : str)
| KeysOfUndefined
| NotIterable
| NotPrimitive.

Inductive jsError : Type :=
| UserError (message : str)
| TypeError (cause : typeErrorCause)
| ClientError (message : str).

(** A computation that returns a value or throws. *)
Inductive result (A : Type) : Type :=
| Ok (a : A)
| Throw (e : jsError).
Arguments Ok {A} a.
Arguments Throw {A} e.

(** Errors and outcomes can be compared. *)
#[export] Instance typeErrorCause_eq_dec : EqDecision typeErrorCause.
Proof. solve_decision. Defined.
#[export] Instance jsError_eq_dec : EqDecision jsError.
Proof. solve_decision. Defined.
#[export] Instance result_eq_dec `{EqDecision A} : EqDecision (result A).
Proof. solve_decision. Defined.

#[global] Instance result_ret : MRet result := fun A a => Ok a.

#[global] Instance result_bind : MBind result := fun A B f r =>
  match r with
  | Ok a => f a
  | Throw e => Throw e
  end.

(** [toPropertyKey v] is the key that [obj[v]] looks up when [v] is a
    string or [undefined] ([None]): the string itself, or the text
    [undefined]. *)
Definition toPropertyKey (v : option str) : str :=
  match v with
  | Some s => s
  | None => "undefined"%str
  end.

Lemma result_bind_Ok {A B : Type} (r : result A) (f : A -> result B) (b : B) :
  r ≫= f = Ok b <-> exists a, r = Ok a /\ f a = Ok b.
Proof.
  destruct r as [a|e]; simpl; [|split; [done|by intros (? & ? & ?)]].
  split; [eauto|]. by intros (a' & [= <-] & ?).
Qed.

Lemma isDigit_spec (c : ascii) :
  isDigit c = true <-> 48 <= nat_of_ascii c <= 57.
Proof.
  unfold isDigit. rewrite andb_true_iff, !Nat.leb_le. reflexivity.
Qed.

Lemma drop_cons_elem_of {A : Type} (l t : list A) (j : nat) (c : A) :
  drop j l = c :: t -> c ∈ l.
Proof. intros E. apply (subseteq_drop j). rewrite E. left. Qed.

(** The text before the first occurrence of a character is determined. *)
Lemma first_occurrence_unique {A : Type} (c : A) (x y t u : list A) :
  c ∉ x -> c ∉ y -> x ++ c :: t = y ++ c :: u -> x = y /\ t = u.
Proof.
  revert y. induction x as [|a x IH]; intros [|b y] Hx Hy E; simplify_eq/=.
  - done.
  - by destruct Hy; left.
  - by destruct Hx; left.
  - apply not_elem_of_cons in Hx as [_ Hx], Hy as [_ Hy].
    by destruct (IH y Hx Hy H0) as [-> ->].
Qed.

(** A text without a character, at the head of a text: it ends before the
    first occurrence of the character. *)
Lemma app_eq_no_sep {A : Type} (c : A) (y s u v : list A) :
  c ∉ y -> y ++ s = u ++ c :: v -> exists t, u = y ++ t /\ s = t ++ c :: v.
Proof.
  revert u. induction y as [|a y IH]; intros u Hy E; [by exists u|].
  apply not_elem_of_cons in Hy as [Ha Hy]. destruct u as [|b u]; simplify_eq/=.
  destruct (IH u Hy H0) as (t & -> & ->). by exists t.
Qed.

(** ** Sums and tests over lists *)

Lemma forallb_Forall {A : Type} (f : A -> bool) (l : list A) :
  forallb f l = true <-> Forall (fun x => f x = true) l.
Proof.
  induction l as [|x l IH]; simpl; [by split|].
  by rewrite andb_true_iff, Forall_cons, IH.
Qed.

Lemma sum_list_with_fmap {A B : Type} (f : B -> nat) (g : A -> B) (l : list A) :
  sum_list_with f (g <$> l) = sum_list_with (f ∘ g) l.
Proof. induction l as [|x l IH]; [done|]. by rewrite fmap_cons; cbn [sum_list_with]; rewrite IH. Qed.

Lemma sum_list_with_mono {A : Type} (f g : A -> nat) (l : list A) :
  Forall (fun x => f x <= g x) l -> sum_list_with f l <= sum_list_with g l.
Proof. induction 1; simpl; lia. Qed.

Lemma sum_list_with_0 {A : Type} (f : A -> nat) (l : list A) :
  sum_list_with f l = 0 <-> Forall (fun x => f x = 0) l.
Proof.
  induction l as [|x l IH]; simpl; [by split|]. rewrite Forall_cons, <- IH. lia.
Qed.
