(* ===== verification/JsString.v ===== *)
(** * JsString: the string and array built-ins the action calls

    [src/index.js] leans on a handful of JavaScript built-ins:
    [String.prototype.split] with a one-character separator (line 104),
    [String.prototype.replace] with a string pattern and a replacement
    template (line 100), the conversion of the loop index to its decimal
    digits inside a template literal (line 100), and reads and writes of a
    possibly sparse array (lines 99 and 108).  This file gives each of them
    an executable definition and the lemmas the decoder's proofs use. *)

From Stdlib Require Import Ascii String Arith Lia DecimalString DecimalNat DecimalFacts.
From stdpp Require Import base tactics option list.
From S2P Require Import Prelude.

#[local] Open Scope str_scope.

(** ** Prefixes and [indexOf] *)

(** [isPrefixOf p s]: [s] starts with [p]. *)
Fixpoint isPrefixOf (p s : str) : bool :=
  match p, s with
  | [], _ => true
  | _ :: _, [] => false
  | a :: p', b :: s' => bool_decide (a = b) && isPrefixOf p' s'
  end.

(** [strIndexOf s p] is [s.indexOf(p)]: the least position at which [p]
    occurs in [s]; [None] stands for JavaScript's [-1]. *)
Fixpoint strIndexOf (s p : str) : option nat :=
  if isPrefixOf p s then Some 0
  else match s with
       | [] => None
       | _ :: s' => S <$> strIndexOf s' p
       end.

(** [occursAt p s i]: [p] occurs in [s] at position [i]. *)
Definition occursAt (p s : str) (i : nat) : Prop :=
  exists t, drop i s = p ++ t /\ i <= length s.

(** ** [split] on a one-character separator *)

(** [strSplit sep s] is [s.split(sep)] for a separator of one character:
    the pieces between the occurrences of [sep], empty pieces included;
    the result is never empty. *)
Fixpoint strSplit (sep : ascii) (s : str) : list str :=
  match s with
  | [] => [[]]
  | c :: s' =>
      if bool_decide (c = sep) then [] :: strSplit sep s'
      else match strSplit sep s' with
           | piece :: rest => (c :: piece) :: rest
           | [] => [[c]]
           end
  end.

(** [strJoin sep l] is [l.join(sep)], the inverse of [strSplit]. *)
Fixpoint strJoin (sep : ascii) (l : list str) : str :=
  match l with
  | [] => []
  | [x] => x
  | x :: l' => x ++ sep :: strJoin sep l'
  end.

(** [joinAfter sep l]: each piece of [l] after a separator. *)
Definition joinAfter (sep : ascii) (l : list str) : str := concat ((fun p => sep :: p) <$> l).

(** [occurrences c s]: how many times [c] stands in [s]. *)
Definition occurrences (c : ascii) (s : str) : nat := length (filter (fun a => a = c) s).

(** ** [replace] with a string pattern *)

(** [getSubstitution matched s position template] expands a replacement
    template as [String.prototype.replace] does when the pattern is a
    string, so that there are no captures: [$$] is a dollar, [$&] the
    matched text, [$`] the text before the match, [$'] the text after it;
    a dollar followed by anything else, digits included, stands for
    itself. *)
Fixpoint getSubstitution (matched s : str) (position : nat) (template : str) : str :=
  match template with
  | [] => []
  | c :: t =>
      if bool_decide (c = "$"%char) then
        match t with
        | [] => [c]
        | d :: t' =>
            if bool_decide (d = "$"%char) then
              "$"%char :: getSubstitution matched s position t'
            else if bool_decide (d = "&"%char) then
              matched ++ getSubstitution matched s position t'
            else if bool_decide (d = "`"%char) then
              take position s ++ getSubstitution matched s position t'
            else if bool_decide (d = "'"%char) then
              drop (position + length matched) s ++ getSubstitution matched s position t'
            else c :: getSubstitution matched s position t
        end
      else c :: getSubstitution matched s position t
  end.

(** [strReplace s searchValue replaceValue] is
    [s.replace(searchValue, replaceValue)] for two strings: the first
    occurrence of [searchValue] is replaced by the expanded template, and
    [s] is returned unchanged when there is none. *)
Definition strReplace (s searchValue replaceValue : str) : str :=
  match strIndexOf s searchValue with
  | None => s
  | Some pos =>
      take pos s ++ getSubstitution searchValue s pos replaceValue
        ++ drop (pos + length searchValue) s
  end.

(** ** Numbers as text *)

(** [natToString n] is the decimal text of a non-negative integer, as
    [String(n)] and a template literal produce it. *)
Definition natToString (n : nat) : str :=
  list_ascii_of_string (NilEmpty.string_of_uint (Nat.to_uint n)).

(** [digitValue c] is the value of a decimal digit. *)
Definition digitValue (c : ascii) : nat := nat_of_ascii c - 48.

(** [canonicalIndex key] reads a property key as an array index: the text
    of a natural number with no superfluous leading zero. *)
Definition canonicalIndex (key : str) : option nat :=
  match key with
  | [] => None
  | c :: rest =>
      if forallb isDigit key && (negb (bool_decide (c = "0"%char)) || bool_decide (rest = []))
      then Some (fold_left (fun acc d => 10 * acc + digitValue d) key 0)
      else None
  end.

(** ** Sparse arrays

    A JavaScript array is a list of slots; [None] is a hole or a slot that
    holds [undefined], and both read as [undefined]. *)

Definition jsArray (A : Type) : Type := list (option A).

(** [arraySet a i v] is [a[i] = v]: it overwrites slot [i], or extends the
    array with holes up to [i] when [i] is past its end. *)
Definition arraySet {A : Type} (a : jsArray A) (i : nat) (v : A) : jsArray A :=
  if i <? length a then <[i := Some v]> a
  else a ++ replicate (i - length a) None ++ [Some v].

(** [arrayGet a key] is [a[key]] for a key that is a string: the slot of a
    canonical index, [None] (that is [undefined]) for a hole, for an index
    past the end and for a key that is no index. *)
Definition arrayGet {A : Type} (a : jsArray A) (key : str) : option A :=
  i ← canonicalIndex key; mjoin (a !! i).

(** [arrayShift a] is [a.shift()]: the first element, [None] (that is
    [undefined]) when there is none, and the rest of the array. *)
Definition arrayShift {A : Type} (a : jsArray A) : option A * jsArray A :=
  match a with
  | [] => (None, [])
  | x :: a' => (x, a')
  end.

(** [plainTemplateChar c]: [c] is none of the characters that are special
    after a dollar in a replacement template, nor a dollar. *)
Definition plainTemplateChar (c : ascii) : bool :=
  negb (bool_decide (c = "$"%char) || bool_decide (c = "&"%char)
        || bool_decide (c = "`"%char) || bool_decide (c = "'"%char)).

(** A part of a text: [w] stands somewhere in [s]. *)
Definition partOf (w s : str) : Prop := exists pre post, s = pre ++ w ++ post.

(** ** Lemmas: prefixes and [indexOf] *)

Lemma isPrefixOf_spec (p s : str) :
  isPrefixOf p s = true <-> exists t, s = p ++ t.
Proof.
  revert s. induction p as [|a p IH]; intros [|b s]; simpl.
  - split; [exists []; done | done].
  - split; [eexists; done | done].
  - split; [done | intros [t Ht]; done].
  - rewrite andb_true_iff, bool_decide_eq_true, IH. split.
    + intros [-> [t ->]]. by exists t.
    + intros [t Ht]. simplify_eq. eauto.
Qed.

Lemma isPrefixOf_app (p t : str) : isPrefixOf p (p ++ t) = true.
Proof. apply isPrefixOf_spec. by exists t. Qed.

Lemma isPrefixOf_length (p s : str) : isPrefixOf p s = true -> length p <= length s.
Proof.
  intros [t ->]%isPrefixOf_spec. rewrite length_app. lia.
Qed.

Lemma occursAt_iff (p s : str) (i : nat) :
  occursAt p s i <-> isPrefixOf p (drop i s) = true /\ i <= length s.
Proof.
  unfold occursAt. rewrite isPrefixOf_spec. naive_solver.
Qed.

(** [strIndexOf] finds an occurrence, and it is the first one. *)
Lemma strIndexOf_Some (s p : str) (i : nat) :
  strIndexOf s p = Some i <->
  occursAt p s i /\ forall j, j < i -> isPrefixOf p (drop j s) = false.
Proof.
  revert i. induction s as [|c s IH]; intros i; simpl.
  - destruct (isPrefixOf p []) eqn:E.
    + split.
      * intros [= <-]. split; [|lia]. apply occursAt_iff. done.
      * intros [[Ho Hl]%occursAt_iff _]. simpl in Hl. by replace i with 0 by lia.
    + split; [done|]. intros [[Ho Hl]%occursAt_iff _]. simpl in Hl.
      replace i with 0 in Ho by lia. simpl in Ho. congruence.
  - destruct (isPrefixOf p (c :: s)) eqn:E.
    + split.
      * intros [= <-]. split; [|lia]. apply occursAt_iff. simpl. split; [done|lia].
      * intros [_ Hmin]. destruct i as [|i]; [done|].
        specialize (Hmin 0 ltac:(lia)). simpl in Hmin. congruence.
    + destruct i as [|i].
      * split.
        -- destruct (strIndexOf s p); done.
        -- intros [[Ho _]%occursAt_iff _]. simpl in Ho. congruence.
      * rewrite fmap_Some. split.
        -- intros (j & Hj & [= ->]). apply IH in Hj as [[Ho Hl]%occursAt_iff Hmin].
           split.
           ++ apply occursAt_iff. simpl. split; [done|lia].
           ++ intros [|k] Hk; [done|]. simpl. apply Hmin. lia.
        -- intros [[Ho Hl]%occursAt_iff Hmin]. exists i. split; [|done].
           apply IH. split.
           ++ apply occursAt_iff. simpl in *. split; [done|lia].
           ++ intros k Hk. apply (Hmin (S k)). lia.
Qed.

Lemma strIndexOf_None (s p : str) :
  strIndexOf s p = None <-> forall i, ~ occursAt p s i.
Proof.
  split.
  - intros Hn i Ho.
    assert (Hex : exists k, isPrefixOf p (drop k s) = true /\ k <= length s).
    { exists i. by apply occursAt_iff. }
    clear i Ho. revert Hn Hex. induction s as [|c s IH]; simpl.
    + intros Hn (k & Hk & Hl). simpl in Hl. replace k with 0 in Hk by lia.
      simpl in Hk. destruct p; simpl in *; done.
    + destruct (isPrefixOf p (c :: s)) eqn:E; [done|].
      intros Hn (k & Hk & Hl). destruct k as [|k]; simpl in Hk; [congruence|].
      apply IH; [by destruct (strIndexOf s p)|]. exists k. split; [done|lia].
  - intros Hno. destruct (strIndexOf s p) as [i|] eqn:E; [|done].
    apply strIndexOf_Some in E as [Ho _]. by destruct (Hno i).
Qed.

Lemma strIndexOf_app (pre p post : str) :
  (forall j, j < length pre -> isPrefixOf p (drop j (pre ++ p ++ post)) = false) ->
  strIndexOf (pre ++ p ++ post) p = Some (length pre).
Proof.
  intros Hmin. apply strIndexOf_Some. split; [|done].
  exists post. rewrite drop_app_length. split; [done|]. rewrite length_app. lia.
Qed.

(** ** Lemmas: [split] and [join] *)

Lemma strSplit_nonempty (sep : ascii) (s : str) : strSplit sep s <> [].
Proof.
  destruct s as [|c s]; simpl; [done|].
  case_bool_decide; [done|]. by destruct (strSplit sep s).
Qed.

Lemma strSplit_cons_sep (sep : ascii) (s : str) :
  strSplit sep (sep :: s) = [] :: strSplit sep s.
Proof. simpl. by rewrite bool_decide_eq_true_2. Qed.

Lemma strSplit_cons_other (sep c : ascii) (s : str) :
  c <> sep ->
  exists piece rest,
    strSplit sep s = piece :: rest /\ strSplit sep (c :: s) = (c :: piece) :: rest.
Proof.
  intros Hc. simpl. rewrite bool_decide_eq_false_2 by done.
  destruct (strSplit sep s) as [|piece rest] eqn:E; [by apply strSplit_nonempty in E|].
  eauto.
Qed.

(** Splitting a text that holds no separator gives the text itself. *)
Lemma strSplit_no_sep (sep : ascii) (s : str) :
  sep ∉ s -> strSplit sep s = [s].
Proof.
  induction s as [|c s IH]; [done|]. intros Hn.
  apply not_elem_of_cons in Hn as [Hc Hs].
  destruct (strSplit_cons_other sep c s) as (piece & rest & E1 & E2); [done|].
  rewrite E2. rewrite IH in E1 by done. by simplify_eq.
Qed.

(** A piece up to the first separator, then the pieces of the rest. *)
Lemma strSplit_app (sep : ascii) (a b : str) :
  sep ∉ a -> strSplit sep (a ++ sep :: b) = a :: strSplit sep b.
Proof.
  induction a as [|c a IH]; intros Hn; simpl app.
  - apply strSplit_cons_sep.
  - apply not_elem_of_cons in Hn as [Hc Ha].
    destruct (strSplit_cons_other sep c (a ++ sep :: b)) as (piece & rest & E1 & E2); [done|].
    rewrite E2. rewrite IH in E1 by done. by simplify_eq.
Qed.

Lemma strSplit_app_lit (sep : ascii) (a b : str) :
  sep ∉ a -> strSplit sep (a ++ [sep] ++ b) = a :: strSplit sep b.
Proof. apply strSplit_app. Qed.

(** No piece holds the separator. *)
Lemma strSplit_pieces (sep : ascii) (s : str) :
  Forall (fun piece => sep ∉ piece) (strSplit sep s).
Proof.
  induction s as [|c s IH]; simpl.
  - repeat constructor. apply not_elem_of_nil.
  - case_bool_decide as Hc; [constructor; [apply not_elem_of_nil|done]|].
    destruct (strSplit sep s) as [|piece rest] eqn:E; [by apply strSplit_nonempty in E|].
    inversion_clear IH. constructor; [|done]. by apply not_elem_of_cons.
Qed.

Lemma strJoin_cons (sep : ascii) (x : str) (l : list str) :
  l <> [] -> strJoin sep (x :: l) = x ++ sep :: strJoin sep l.
Proof. by destruct l. Qed.

(** Round trip of [split]: joining the pieces of [s.split(sep)] with
    the separator gives [s] back, so splitting loses no character. *)
Lemma strJoin_strSplit (sep : ascii) (s : str) :
  strJoin sep (strSplit sep s) = s.
Proof.
  induction s as [|c s IH]; [done|]. simpl strSplit.
  case_bool_decide as Hc.
  - subst c. rewrite strJoin_cons by apply strSplit_nonempty. by rewrite IH.
  - destruct (strSplit sep s) as [|piece rest] eqn:E; [by apply strSplit_nonempty in E|].
    rewrite <- IH. by destruct rest.
Qed.

(** The number of pieces is one more than the number of separators. *)
Lemma strSplit_length (sep : ascii) (s : str) :
  length (strSplit sep s) = S (length (filter (fun c => c = sep) s)).
Proof.
  induction s as [|c s IH]; [done|]. simpl strSplit. rewrite filter_cons.
  case_bool_decide as Hc; case_decide; try done; simpl; [by rewrite IH|].
  destruct (strSplit sep s) as [|piece rest] eqn:E; [by apply strSplit_nonempty in E|].
  exact IH.
Qed.

Lemma strJoin_cons_after (sep : ascii) (x : str) (l : list str) :
  strJoin sep (x :: l) = x ++ joinAfter sep l.
Proof.
  revert x. induction l as [|y l IH]; intros x; [by rewrite app_nil_r|].
  rewrite strJoin_cons by done. by rewrite IH.
Qed.

Lemma strJoin_app_after (sep : ascii) (l1 l2 : list str) :
  l1 <> [] -> strJoin sep (l1 ++ l2) = strJoin sep l1 ++ joinAfter sep l2.
Proof.
  intros Hl1. destruct l1 as [|x l1]; [done|]. clear Hl1. revert x.
  induction l1 as [|y l1 IH]; intros x; [apply strJoin_cons_after|].
  cbn [app]. rewrite !(strJoin_cons sep x) by done. cbn [app] in IH. rewrite IH.
  by rewrite <- (assoc_L (++)).
Qed.

(** Round trip of [join]: splitting the join of pieces without the
    separator gives the pieces back. *)
Lemma strSplit_strJoin (sep : ascii) (l : list str) :
  l <> [] -> Forall (fun p => sep ∉ p) l -> strSplit sep (strJoin sep l) = l.
Proof.
  intros Hl Hs. destruct l as [|x l]; [done|]. clear Hl. revert x Hs.
  induction l as [|y l IH]; intros x Hs; inversion_clear Hs as [|? ? Hx Hl].
  - by apply strSplit_no_sep.
  - rewrite strJoin_cons by done. rewrite strSplit_app by done. by rewrite IH.
Qed.

(** The join of pieces around one of them. *)
Lemma strJoin_around (sep : ascii) (ps1 ps2 : list str) (x : str) :
  strJoin sep (ps1 ++ x :: ps2)
  = (if decide (ps1 = []) then [] else strJoin sep ps1 ++ [sep]) ++ x ++ joinAfter sep ps2.
Proof.
  case_decide as Hps; [subst; apply strJoin_cons_after|].
  rewrite strJoin_app_after by done. unfold joinAfter. simpl.
  by rewrite <- !(assoc_L (++)).
Qed.

(** A join that ends with an empty piece ends with the separator. *)
Lemma strJoin_snoc_empty (sep : ascii) (ps : list str) :
  strJoin sep (ps ++ [[]]) = if decide (ps = []) then [] else strJoin sep ps ++ [sep].
Proof. rewrite strJoin_around. case_decide; [done|]. simpl. by rewrite !app_nil_r. Qed.

Lemma joinAfter_snoc (sep : ascii) (l : list str) (x : str) :
  joinAfter sep (l ++ [x]) = joinAfter sep l ++ sep :: x.
Proof. unfold joinAfter. rewrite fmap_app, concat_app. simpl. by rewrite app_nil_r. Qed.

(** ** Counting the separators *)

Lemma occurrences_app (c : ascii) (a b : str) :
  occurrences c (a ++ b) = occurrences c a + occurrences c b.
Proof. unfold occurrences. by rewrite filter_app, length_app. Qed.

Lemma occurrences_0 (c : ascii) (s : str) : occurrences c s = 0 <-> c ∉ s.
Proof.
  unfold occurrences. induction s as [|a s IH]; [by split; [intros _; apply not_elem_of_nil|]|].
  rewrite filter_cons, not_elem_of_cons, <- IH. case_decide as Hc; simpl.
  - split; [done|]. by intros [? _].
  - split; [by intros ?; split; [intros <-|]|by intros [_ ?]].
Qed.

Lemma occurrences_joinAfter (sep : ascii) (l : list str) :
  occurrences sep (joinAfter sep l) = length l + sum_list_with (occurrences sep) l.
Proof.
  induction l as [|p l IH]; [done|].
  change (joinAfter sep (p :: l)) with ([sep] ++ p ++ joinAfter sep l).
  rewrite !occurrences_app, IH. unfold occurrences at 1. rewrite filter_cons, decide_True by done.
  simpl. lia.
Qed.

Lemma occurrences_strJoin (sep : ascii) (p : str) (l : list str) :
  occurrences sep (strJoin sep (p :: l)) = length l + sum_list_with (occurrences sep) (p :: l).
Proof. rewrite strJoin_cons_after, occurrences_app, occurrences_joinAfter. simpl. lia. Qed.

Lemma occurrences_pieces (sep : ascii) (l : list str) :
  sum_list_with (occurrences sep) l = 0 <-> Forall (fun p => sep ∉ p) l.
Proof. rewrite sum_list_with_0. apply Forall_proper; [intros p; apply occurrences_0|done]. Qed.

(** Two lists of pieces of one length with one join, of which one has no
    separator inside a piece, are equal. *)
Lemma strJoin_inj_pieces (sep : ascii) (l1 l2 : list str) :
  length l1 = length l2 -> Forall (fun p => sep ∉ p) l1 ->
  strJoin sep l1 = strJoin sep l2 -> l1 = l2.
Proof.
  intros Hl H1%occurrences_pieces E. destruct l1 as [|p1 l1], l2 as [|p2 l2]; try done.
  assert (sum_list_with (occurrences sep) (p2 :: l2) = 0) as H2%occurrences_pieces.
  { apply (f_equal (occurrences sep)) in E. rewrite !occurrences_strJoin in E. simpl in Hl. lia. }
  apply occurrences_pieces in H1.
  by rewrite <- (strSplit_strJoin sep (p1 :: l1)), E, strSplit_strJoin.
Qed.

(** Every piece is a part of the join. *)
Lemma strJoin_partOf (sep : ascii) (ps : list str) (p : str) :
  p ∈ ps -> partOf p (strJoin sep ps).
Proof.
  intros (l1 & l2 & ->)%list_elem_of_split. rewrite strJoin_around. by eexists _, _.
Qed.

(** A join around a piece of two parts splits between the parts. *)
Lemma strJoin_inside (sep : ascii) (ps1 ps2 : list str) (x z : str) :
  strJoin sep (ps1 ++ (x ++ z) :: ps2) = strJoin sep (ps1 ++ [x]) ++ z ++ joinAfter sep ps2.
Proof.
  rewrite !strJoin_around. cbn [joinAfter fmap list_fmap concat].
  by rewrite app_nil_r, <- !(assoc_L (++)).
Qed.
Lemma partOf_cons (c : ascii) (w s : str) : partOf w s -> partOf w (c :: s).
Proof. intros (pre & post & ->). by exists (c :: pre), post. Qed.

(** The first piece starts the text, and the others are parts of it. *)
Lemma strSplit_head (sep : ascii) (s : str) :
  exists piece rest,
    strSplit sep s = piece :: rest /\ (exists post, s = piece ++ post)
    /\ Forall (fun p => partOf p s) rest.
Proof.
  induction s as [|c s (piece & rest & E & [post Hpost] & Hrest)]; simpl.
  { exists [], []. split_and!; [done|by exists []|done]. }
  assert (Forall (fun p => partOf p (c :: s)) rest) as Hrest'.
  { eapply Forall_impl; [exact Hrest|]. intros p. apply partOf_cons. }
  rewrite E. case_bool_decide.
  - exists [], (piece :: rest). split_and!; [done|by exists (c :: s)|].
    constructor; [|done]. apply partOf_cons. by exists [], post.
  - exists (c :: piece), rest. split_and!; [done|exists post; by rewrite Hpost|done].
Qed.

(** Every piece is a part of the text. *)
Lemma strSplit_partOf (sep : ascii) (s : str) :
  Forall (fun piece => partOf piece s) (strSplit sep s).
Proof.
  destruct (strSplit_head sep s) as (piece & rest & -> & [post Hpost] & Hrest).
  constructor; [by exists [], post|done].
Qed.

(** ** Lemmas: [replace] *)

Lemma getSubstitution_plain (matched s : str) (position : nat) (t : str) :
  forallb plainTemplateChar t = true ->
  getSubstitution matched s position t = t.
Proof.
  induction t as [|c t IH]; [done|]. simpl. intros [Hc Ht]%andb_true_iff.
  rewrite IH by done. unfold plainTemplateChar in Hc.
  rewrite negb_true_iff, !orb_false_iff in Hc. destruct Hc as [[[-> _] _] _]. done.
Qed.

Lemma getSubstitution_dollar_plain (matched s : str) (position : nat) (t : str) :
  forallb plainTemplateChar t = true ->
  getSubstitution matched s position ("$"%char :: t) = "$"%char :: t.
Proof.
  intros Ht. destruct t as [|d t]; [done|].
  pose proof (getSubstitution_plain matched s position (d :: t) Ht) as Hp.
  simpl in Ht. apply andb_true_iff in Ht as [Hd Ht]. unfold plainTemplateChar in Hd.
  rewrite negb_true_iff, !orb_false_iff in Hd. destruct Hd as [[[H1 H2] H3] H4].
  cbn [getSubstitution]. rewrite bool_decide_eq_true_2 by done.
  rewrite H1, H2, H3, H4. by rewrite (getSubstitution_plain _ _ _ t Ht).
Qed.
Lemma isDigit_plainTemplateChar (c : ascii) :
  isDigit c = true -> plainTemplateChar c = true.
Proof.
  intros Hd. unfold plainTemplateChar.
  rewrite negb_true_iff, !orb_false_iff, !bool_decide_eq_false.
  repeat split; intros ->; discriminate Hd.
Qed.

(** Replacing where the pattern does not occur changes nothing. *)
Lemma strReplace_absent (s p t : str) :
  strIndexOf s p = None -> strReplace s p t = s.
Proof. unfold strReplace. by intros ->. Qed.

(** Replacing at the first occurrence. *)
Lemma strReplace_at (pre p post t : str) :
  strIndexOf (pre ++ p ++ post) p = Some (length pre) ->
  strReplace (pre ++ p ++ post) p t =
  pre ++ getSubstitution p (pre ++ p ++ post) (length pre) t ++ post.
Proof.
  unfold strReplace. intros ->. rewrite take_app_length.
  by rewrite <- drop_drop, !drop_app_length.
Qed.

(** ** Lemmas: decimal text *)

Lemma string_of_uint_digits (u : Decimal.uint) :
  forallb isDigit (list_ascii_of_string (NilEmpty.string_of_uint u)) = true.
Proof. induction u; simpl; auto. Qed.

Lemma natToString_digits (n : nat) : forallb isDigit (natToString n) = true.
Proof. apply string_of_uint_digits. Qed.

Lemma natToString_plain (n : nat) : forallb plainTemplateChar (natToString n) = true.
Proof.
  pose proof (natToString_digits n) as H. rewrite forallb_forall in *.
  intros c Hc. apply isDigit_plainTemplateChar. auto.
Qed.

Lemma digitValue_lt (c : ascii) : isDigit c = true -> digitValue c < 10.
Proof.
  unfold isDigit, digitValue. intros [H1%Nat.leb_le H2%Nat.leb_le]%andb_true_iff. lia.
Qed.

(** Reading the digits of a decimal number gives the number. *)
Lemma fold_digits_of_uint (u : Decimal.uint) (acc : nat) :
  fold_left (fun acc d => 10 * acc + digitValue d)
    (list_ascii_of_string (NilEmpty.string_of_uint u)) acc
  = Nat.of_uint_acc u acc.
Proof.
  revert acc. induction u; intros acc; cbn [NilEmpty.string_of_uint list_ascii_of_string fold_left
    Nat.of_uint_acc]; [done|rewrite IHu, Nat.tail_mul_spec; f_equal; vm_compute digitValue; lia..].
Qed.

(** The decimal text of a number has no superfluous zero at its start. *)
Lemma to_uint_head (n : nat) :
  match Nat.to_uint n with
  | Decimal.D0 d => d = Decimal.Nil
  | Decimal.Nil => False
  | _ => True
  end.
Proof.
  pose proof (Unsigned.to_of (Nat.to_uint n)) as E. rewrite Unsigned.of_to in E.
  destruct (Nat.to_uint n) as [|d| | | | | | | | |] eqn:Hn; try done.
  unfold Decimal.unorm in E. cbn [Decimal.nzhead] in E. pose proof (nb_digits_nzhead d) as Hd.
  destruct (Decimal.nzhead d) eqn:Hz; simplify_eq; [done|..]; simpl in Hd; lia.
Qed.

(** Round trip of an index: the decimal text of a number reads as the
    number. *)
Lemma canonicalIndex_natToString (n : nat) : canonicalIndex (natToString n) = Some n.
Proof.
  unfold canonicalIndex. pose proof (natToString_digits n) as Hd.
  assert (fold_left (fun acc d => 10 * acc + digitValue d) (natToString n) 0 = n) as Hv.
  { unfold natToString. rewrite fold_digits_of_uint. apply Unsigned.of_to. }
  pose proof (to_uint_head n) as Hh. unfold natToString in *.
  destruct (Nat.to_uint n) as [|d| | | | | | | | |]; try done;
    cbn [NilEmpty.string_of_uint list_ascii_of_string] in *; rewrite Hd, Hv; try done.
  by subst d.
Qed.

(** The decimal text of a number below ten is one digit. *)
Lemma natToString_digit (i : nat) : i < 10 -> exists d, natToString i = [d].
Proof. intros Hi. do 10 (destruct i as [|i]; [by eexists|]). lia. Qed.

Lemma natToString_cons (i : nat) : exists d ds, natToString i = d :: ds.
Proof.
  pose proof (canonicalIndex_natToString i) as Hi.
  destruct (natToString i) as [|d ds]; [done|by eexists _, _].
Qed.

(** A digit is an index: its value. *)
Lemma canonicalIndex_digit (c : ascii) : isDigit c = true -> canonicalIndex [c] = Some (digitValue c).
Proof.
  intros Hc. unfold canonicalIndex. cbn [forallb]. rewrite Hc, (bool_decide_eq_true_2 ([] = [])) by done.
  rewrite orb_true_r. by simpl.
Qed.

(** ** Lemmas: arrays *)

(** Every slot of the empty array reads as [undefined]. *)
Lemma arrayGet_nil {A : Type} (key : str) : arrayGet (A := A) [] key = None.
Proof. unfold arrayGet. by destruct (canonicalIndex key). Qed.

Lemma arrayGet_singleton {A : Type} (v t : A) (key : str) :
  arrayGet [Some v] key = Some t -> t = v.
Proof.
  unfold arrayGet. destruct (canonicalIndex key) as [[|i]|]; simpl; [|done..]. by intros [= ->].
Qed.

Lemma arrayShift_inj {A : Type} (a b : jsArray A) :
  a <> [] -> b <> [] -> arrayShift a = arrayShift b -> a = b.
Proof. destruct a, b; try done. by intros _ _ [= -> ->]. Qed.

Section Arrays.
Context {A : Type}.
Implicit Types (a : jsArray A) (i j : nat) (v : A).

Lemma arraySet_length a i v : length (arraySet a i v) = length a `max` S i.
Proof.
  unfold arraySet, jsArray in *. case_match eqn:Hi.
  - apply Nat.ltb_lt in Hi. rewrite length_insert. lia.
  - apply Nat.ltb_ge in Hi. rewrite !length_app, length_replicate. simpl. lia.
Qed.

(** The slot that was written holds the value. *)
Lemma arraySet_lookup a i v : arraySet a i v !! i = Some (Some v).
Proof.
  unfold arraySet, jsArray in *. case_match eqn:Hi.
  - apply Nat.ltb_lt in Hi. by apply list_lookup_insert_eq.
  - apply Nat.ltb_ge in Hi. rewrite lookup_app_r by done.
    rewrite lookup_app_r by (rewrite length_replicate; lia).
    rewrite length_replicate. by replace (i - length a - (i - length a)) with 0 by lia.
Qed.

(** Every other slot reads as before: a hole reads as [undefined], as a
    slot past the end did. *)
Lemma arraySet_lookup_ne a i j v : i <> j -> mjoin (arraySet a i v !! j) = mjoin (a !! j).
Proof.
  intros Hij. unfold arraySet, jsArray in *. case_match eqn:Hi.
  - by rewrite list_lookup_insert_ne.
  - apply Nat.ltb_ge in Hi. destruct (decide (j < length a)) as [Hj|Hj].
    { by rewrite lookup_app_l. }
    rewrite (lookup_ge_None_2 a j) by lia. rewrite lookup_app_r by lia.
    destruct (decide (j - length a < i - length a)) as [Hr|Hr].
    + rewrite lookup_app_l by (rewrite length_replicate; lia).
      by rewrite lookup_replicate_2.
    + rewrite lookup_app_r by (rewrite length_replicate; lia). rewrite length_replicate.
      rewrite lookup_ge_None_2; [done|]. simpl. lia.
Qed.

(** Round trip of a slot: what [a[i] = v] writes, [a[String(i)]] reads. *)
Lemma arrayGet_arraySet a i v : arrayGet (arraySet a i v) (natToString i) = Some v.
Proof.
  unfold arrayGet. rewrite canonicalIndex_natToString. cbn [mbind option_bind].
  by rewrite arraySet_lookup.
Qed.

Lemma arrayGet_arraySet_ne a i v (key : str) :
  canonicalIndex key <> Some i -> arrayGet (arraySet a i v) key = arrayGet a key.
Proof.
  intros Hk. unfold arrayGet. destruct (canonicalIndex key) as [j|]; [|done].
  cbn [mbind option_bind]. apply arraySet_lookup_ne. congruence.
Qed.
End Arrays.

(** The length of a join. *)
Lemma length_joinAfter (sep : ascii) (l : list str) :
  length (joinAfter sep l) = sum_list_with (fun p => S (length p)) l.
Proof.
  unfold joinAfter. induction l as [|p l IH]; [done|].
  cbn [fmap list_fmap concat sum_list_with]. rewrite length_app, IH. done.
Qed.

Lemma length_strJoin (sep : ascii) (l : list str) :
  sum_list_with (fun p => S (length p)) l <= S (length (strJoin sep l)).
Proof.
  destruct l as [|p l]; [simpl; lia|].
  rewrite strJoin_cons_after, length_app, length_joinAfter. simpl. lia.
Qed.
