(* ===== verification/RegExp.v ===== *)
(** * RegExp: the regular expressions of the action and their matcher

    [src/index.js] uses two regular expression literals,
    [/php\d+\.\d+-fpm/] (line 90) and [/\$(\d)+/] (line 105), through
    [RegExp.prototype.test] (line 96) and [String.prototype.match]
    (lines 98 and 105).  This file models the fragment of the pattern
    language they are written in (literal characters, the class [\d],
    sequence, the greedy quantifier [+] and capturing groups) and its
    matcher, a backtracking matcher in continuation-passing style as the
    language standard specifies it: a quantifier first tries one more
    iteration and falls back to the continuation, the captures of a
    quantified group are reset when an iteration starts, and an iteration
    that consumes nothing is refused.

    The matcher is executable.  The quantifier's loop runs on fuel, the
    length of the text that is left: every iteration that is accepted
    consumes a character, so the fuel never runs out before the text.

    [exec] is a scan ([execFrom]) over a matcher at one position.  What
    the scan needs of that matcher is the class [PositionMatcher]: it is
    sound and complete for a language.  The theorems about the scan are
    proved for every instance; the backtracking matcher is one
    ([matchAt_PositionMatcher]), and [Decoder] gives another for the
    placeholders. *)

From Stdlib Require Import Ascii String Arith Lia.
From stdpp Require Import base tactics option list.
From S2P Require Import Prelude JsString.

#[local] Open Scope str_scope.

(** ** Patterns *)

Inductive regex : Type :=
| Eps                      (* the empty pattern *)
| Chr (c : ascii)          (* a literal character, escaped or not *)
| Digit                    (* the class \d *)
| Cat (r1 r2 : regex)      (* r1 r2 *)
| Plus (r : regex)         (* r+, greedy *)
| Group (r : regex).       (* (r), capturing *)

(** [lit s] is the pattern that matches the text [s] itself. *)
Fixpoint lit (s : str) : regex :=
  match s with
  | [] => Eps
  | c :: s' => Cat (Chr c) (lit s')
  end.

(** The number of capturing groups of a pattern. *)
Fixpoint ngroups (r : regex) : nat :=
  match r with
  | Eps | Chr _ | Digit => 0
  | Cat r1 r2 => ngroups r1 + ngroups r2
  | Plus r1 => ngroups r1
  | Group r1 => S (ngroups r1)
  end.

(** ** The matcher *)

(** The captures: slot [i] holds the text of group [i + 1], [None] while
    the group has not taken part in the match. *)
Abbreviation caps := (list (option str)).

(** A continuation receives the text that is left and the captures. *)
Abbreviation cont R := (str -> caps -> option R).

(** [resetCaps idx n cs] clears the [n] captures from [idx] on. *)
Fixpoint resetCaps (idx n : nat) (cs : caps) : caps :=
  match n with
  | 0 => cs
  | S n' => <[idx := None]> (resetCaps (S idx) n' cs)
  end.

(** [repeatMore m fuel k s cs]: after the first iteration of [r+], try one
    more iteration of the body [m], refusing an iteration that consumes
    nothing, and fall back to the continuation [k]. *)
Fixpoint repeatMore {R : Type} (m : str -> caps -> cont R -> option R)
    (fuel : nat) (k : cont R) (s : str) (cs : caps) : option R :=
  match fuel with
  | 0 => k s cs
  | S fuel' =>
      match m s cs (fun s' cs' =>
                if length s' <? length s then repeatMore m fuel' k s' cs' else None) with
      | Some x => Some x
      | None => k s cs
      end
  end.

(** [matchRe r idx s cs k] matches [r] at the head of [s]; [idx] is the
    slot of the first group inside [r].  It returns what the continuation
    returns on the first way of matching that the continuation accepts. *)
Fixpoint matchRe {R : Type} (r : regex) (idx : nat) (s : str) (cs : caps)
    (k : cont R) : option R :=
  match r with
  | Eps => k s cs
  | Chr c =>
      match s with
      | a :: s' => if bool_decide (a = c) then k s' cs else None
      | [] => None
      end
  | Digit =>
      match s with
      | a :: s' => if isDigit a then k s' cs else None
      | [] => None
      end
  | Cat r1 r2 =>
      matchRe r1 idx s cs (fun s' cs' => matchRe r2 (idx + ngroups r1) s' cs' k)
  | Plus r1 =>
      let m := fun s0 cs0 k0 => matchRe r1 idx s0 (resetCaps idx (ngroups r1) cs0) k0 in
      m s cs (repeatMore m (length s) k)
  | Group r1 =>
      matchRe r1 (S idx) s cs
        (fun s' cs' => k s' (<[idx := Some (take (length s - length s') s)]> cs'))
  end.

(** ** [exec], [test] and [match] *)

(** The result of a successful match: [m.index], [m[0]] and the captures
    [m[1]], [m[2]], ... *)
Record matchResult : Type := MatchResult {
  mIndex : nat;
  mText : str;
  mGroups : caps
}.

(** [matchAt r s] matches [r] at the head of [s]: the matched text and the
    captures. *)
Definition matchAt (r : regex) (s : str) : option (str * caps) :=
  matchRe r 0 s (replicate (ngroups r) None)
    (fun s' cs => Some (take (length s - length s') s, cs)).

(** A matcher at one position: the matched text and the captures, for a
    text that starts with a match. *)
Abbreviation positionMatcher := (str -> option (str * caps)).

(** [execFrom pm i s] looks for the leftmost position of [s] at which
    [pm] matches; [s] is the text from position [i] on. *)
Fixpoint execFrom (pm : positionMatcher) (i : nat) (s : str) : option matchResult :=
  match pm s with
  | Some (w, cs) => Some (MatchResult i w cs)
  | None =>
      match s with
      | [] => None
      | _ :: s' => execFrom pm (S i) s'
      end
  end.

(** [regexExec r s] is [r.exec(s)] for a pattern without the flags [g]
    and [y]: the leftmost match, [None] for [null]. *)
Definition regexExec (r : regex) (s : str) : option matchResult := execFrom (matchAt r) 0 s.

(** [regexTest r s] is [r.test(s)]. *)
Definition regexTest (r : regex) (s : str) : bool := bool_decide (is_Some (regexExec r s)).

(** [strMatch s r] is [s.match(r)] for a pattern without the flag [g]. *)
Definition strMatch (s : str) (r : regex) : option matchResult := regexExec r s.

(** [matchLength m] is the [length] of the array [s.match(r)] returns. *)
Definition matchLength (m : matchResult) : nat := S (length (mGroups m)).

(** ** The language of a pattern *)

Inductive matches : regex -> str -> Prop :=
| matches_eps : matches Eps []
| matches_chr c : matches (Chr c) [c]
| matches_digit c : isDigit c = true -> matches Digit [c]
| matches_cat r1 r2 w1 w2 :
    matches r1 w1 -> matches r2 w2 -> matches (Cat r1 r2) (w1 ++ w2)
| matches_plus_one r w : matches r w -> matches (Plus r) w
| matches_plus_more r w1 w2 :
    matches r w1 -> matches (Plus r) w2 -> matches (Plus r) (w1 ++ w2)
| matches_group r w : matches r w -> matches (Group r) w.

(** What [exec] asks of a matcher at one position, for a language [L]: a
    match is a word of [L] at the head of the text, and a text that
    starts with a word of [L] has a match. *)
Class PositionMatcher (L : str -> Prop) (pm : positionMatcher) : Prop := {
  pm_sound : forall s w cs, pm s = Some (w, cs) -> exists s', s = w ++ s' /\ L w;
  pm_complete : forall w s', L w -> is_Some (pm (w ++ s'))
}.

(** What a body or a pattern promises when it succeeds: it has consumed a
    word of the language [L] and the continuation has accepted the rest. *)
Definition soundFor {R : Type} (L : str -> Prop) (m : str -> caps -> cont R -> option R) : Prop :=
  forall s cs k x, m s cs k = Some x ->
    exists w s' cs', s = w ++ s' /\ L w /\ k s' cs' = Some x.

(** What a body or a pattern promises on a text that starts with a word of
    [L]: it succeeds whenever the continuation accepts the rest. *)
Definition completeFor {R : Type} (L : str -> Prop) (m : str -> caps -> cont R -> option R) : Prop :=
  forall w s' cs k, L w -> (forall cs', is_Some (k s' cs')) -> is_Some (m (w ++ s') cs k).

(** ** One-digit bodies

    Both patterns of the action quantify a body that consumes exactly one
    digit, [\d] or [(\d)]. *)

(** [startsWithDigit s]: the first character of [s] is a digit. *)
Definition startsWithDigit (s : str) : bool :=
  match s with
  | d :: _ => isDigit d
  | [] => false
  end.

(** [digitBody upd] is the shape of a body that consumes one digit and
    records it in the captures with [upd]. *)
Definition digitBody {R : Type} (upd : ascii -> caps -> caps)
    (s : str) (cs : caps) (k : cont R) : option R :=
  match s with
  | d :: s' => if isDigit d then k s' (upd d cs) else None
  | [] => None
  end.

(** [groupDigit idx d cs]: what one iteration of [(\d)] at slot [idx]
    does to the captures: the slot is cleared, then set to the digit. *)
Definition groupDigit (idx : nat) (d : ascii) (cs : caps) : caps :=
  <[idx := Some [d]]> (<[idx := None]> cs).

(** [isDigits ds]: a non-empty run of digits. *)
Definition isDigits (ds : str) : bool :=
  match ds with
  | [] => false
  | _ => forallb isDigit ds
  end.

(** [digitsPrefix s] is the longest run of digits that [s] starts with,
    and [afterDigits s] what follows it. *)
Fixpoint digitsPrefix (s : str) : str :=
  match s with
  | d :: s' => if isDigit d then d :: digitsPrefix s' else []
  | [] => []
  end.

Fixpoint afterDigits (s : str) : str :=
  match s with
  | d :: s' => if isDigit d then afterDigits s' else s
  | [] => []
  end.

(** [lastOf d ds] is the last character of [d :: ds]. *)
Fixpoint lastOf (d : ascii) (ds : str) : ascii :=
  match ds with
  | [] => d
  | e :: ds' => lastOf e ds'
  end.

(** ** Examples *)

Example regex_php_fpm_example :
  regexExec (Cat (lit "php") (Cat (Plus Digit) (Cat (Chr ".") (Cat (Plus Digit) (lit "-fpm")))))
    "service.php8.0-fpm.restart"
  = Some (MatchResult 8 "php8.0-fpm" []).
Proof. reflexivity. Qed.

Example regex_placeholder_example :
  regexExec (Cat (Chr "$") (Plus (Group Digit))) "a$b$120x"
  = Some (MatchResult 3 "$120" [Some "0"]).
Proof. reflexivity. Qed.

(** ** The matcher against the language *)

Section Soundness.
Context {R : Type}.
Implicit Types (k : cont R) (s w : str) (cs : caps).

Lemma repeatMore_sound (r : regex) m :
  soundFor (matches r) m ->
  forall fuel, soundFor (fun w => w = [] \/ matches (Plus r) w)
                   (fun s cs k => repeatMore m fuel k s cs).
Proof.
  intros Hm fuel. induction fuel as [|fuel IH]; intros s cs k x; simpl.
  - intros Hk. exists [], s, cs. auto.
  - destruct (m s cs _) as [y|] eqn:E.
    + intros [= ->]. apply Hm in E as (w1 & s1 & cs1 & -> & Hw1 & Hk).
      destruct (length s1 <? length (w1 ++ s1)); [|done].
      apply IH in Hk as (w2 & s2 & cs2 & -> & Hw2 & Hk).
      exists (w1 ++ w2), s2, cs2. rewrite app_assoc. split_and!; [done| |done].
      right. destruct Hw2 as [->|Hw2]; [rewrite app_nil_r|]; eauto using matches.
    + intros Hk. exists [], s, cs. auto.
Qed.

Lemma matchRe_sound (r : regex) (idx : nat) :
  soundFor (R := R) (matches r) (matchRe r idx).
Proof.
  revert idx. induction r as [|c| |r1 IH1 r2 IH2|r1 IH1|r1 IH1]; intros idx s cs k x; simpl.
  - intros Hk. exists [], s, cs. eauto using matches.
  - destruct s as [|a s]; [done|]. case_bool_decide; [subst|done].
    intros Hk. exists [c], s, cs. eauto using matches.
  - destruct s as [|a s]; [done|]. destruct (isDigit a) eqn:Hd; [|done].
    intros Hk. exists [a], s, cs. eauto using matches.
  - intros (w1 & s1 & cs1 & -> & Hw1 & (w2 & s2 & cs2 & -> & Hw2 & Hk)%IH2)%IH1.
    exists (w1 ++ w2), s2, cs2. rewrite app_assoc. eauto using matches.
  - intros (w1 & s1 & cs1 & -> & Hw1 & Hk)%IH1.
    eapply (repeatMore_sound r1) in Hk as (w2 & s2 & cs2 & -> & Hw2 & Hk).
    2:{ intros s0 cs0 k0 y H0. eapply IH1, H0. }
    exists (w1 ++ w2), s2, cs2. rewrite app_assoc. split_and!; [done| |done].
    destruct Hw2 as [->|Hw2]; [rewrite app_nil_r|]; eauto using matches.
  - intros (w1 & s1 & cs1 & -> & Hw1 & Hk)%IH1. eauto 8 using matches.
Qed.
End Soundness.

Lemma matches_plus_inv (r : regex) (w : str) :
  matches (Plus r) w ->
  exists w1 ws, matches r w1 /\ Forall (matches r) ws /\ w = w1 ++ concat ws.
Proof.
  remember (Plus r) as p eqn:Ep. intros Hw. revert r Ep.
  induction Hw as [| | | |r0 w Hw _|r0 w1 w2 Hw1 _ Hw2 IH|]; intros r' Ep; simplify_eq.
  - exists w, []. by rewrite app_nil_r.
  - destruct (IH r' eq_refl) as (w3 & ws & Hw3 & Hws & ->).
    exists w1, (w3 :: ws). eauto.
Qed.

(** ** The words of the patterns *)

Lemma matches_Eps_inv (w : str) : matches Eps w <-> w = [].
Proof. split; [by inversion 1|intros ->; constructor]. Qed.

Lemma matches_Chr_inv (c : ascii) (w : str) : matches (Chr c) w <-> w = [c].
Proof. split; [by inversion 1|intros ->; constructor]. Qed.

Lemma matches_Digit_inv (w : str) :
  matches Digit w <-> exists c, w = [c] /\ isDigit c = true.
Proof. split; [inversion 1; eauto|intros (c & -> & Hc); by constructor]. Qed.

Lemma matches_Cat_inv (r1 r2 : regex) (w : str) :
  matches (Cat r1 r2) w <-> exists w1 w2, w = w1 ++ w2 /\ matches r1 w1 /\ matches r2 w2.
Proof. split; [inversion 1; eauto|intros (w1 & w2 & -> & ? & ?); by constructor]. Qed.

Lemma matches_Group_inv (r : regex) (w : str) : matches (Group r) w <-> matches r w.
Proof. split; [by inversion 1|by constructor]. Qed.

Lemma matches_lit (s w : str) : matches (lit s) w <-> w = s.
Proof.
  revert w. induction s as [|c s IH]; intros w; simpl.
  - apply matches_Eps_inv.
  - rewrite matches_Cat_inv. setoid_rewrite matches_Chr_inv. setoid_rewrite IH.
    naive_solver.
Qed.

Lemma matches_Plus_intro (r : regex) (w1 : str) (ws : list str) :
  matches r w1 -> Forall (matches r) ws -> matches (Plus r) (w1 ++ concat ws).
Proof.
  intros Hw1 Hws. revert w1 Hw1. induction Hws as [|w ws Hw Hws IH]; intros w1 Hw1; simpl.
  - rewrite app_nil_r. by constructor.
  - apply matches_plus_more; [done|]. by apply IH.
Qed.

(** The words of [\d+] and of [(\d)+] are the non-empty runs of digits. *)
Lemma matches_Plus_Digit (w : str) : matches (Plus Digit) w <-> isDigits w = true.
Proof.
  split.
  - intros (w1 & ws & (c & -> & Hc)%matches_Digit_inv & Hws & ->)%matches_plus_inv.
    simpl. rewrite Hc. simpl. induction Hws as [|w ws (d & -> & Hd)%matches_Digit_inv _ IH]; simpl.
    + done.
    + by rewrite Hd.
  - destruct w as [|c w]; [done|]. simpl. intros [Hc Hw]%andb_true_iff.
    assert (Hc' : concat ((fun d => [d]) <$> w) = w).
    { clear. induction w as [|d w IH]; [done|]. simpl. f_equal. exact IH. }
    rewrite <- Hc'. apply (matches_Plus_intro Digit [c]); [by constructor|].
    apply Forall_fmap, Forall_forall. intros d Hd. constructor.
    rewrite forallb_forall in Hw. apply Hw. by apply list_elem_of_In.
Qed.

Lemma matches_Plus_Group (r : regex) (w : str) :
  matches (Plus (Group r)) w <-> matches (Plus r) w.
Proof.
  split.
  - intros (w1 & ws & Hw1 & Hws & ->)%matches_plus_inv.
    apply (proj1 (matches_Group_inv _ _)) in Hw1.
    apply matches_Plus_intro; [done|]. eapply Forall_impl; [exact Hws|].
    intros ?. apply matches_Group_inv.
  - intros (w1 & ws & Hw1 & Hws & ->)%matches_plus_inv.
    apply matches_Plus_intro; [by constructor|]. eapply Forall_impl; [exact Hws|].
    intros ?. apply matches_Group_inv.
Qed.

(** A run of digits that is followed by a character that is no digit is
    determined by the text it starts. *)
Lemma digits_run_unique (ds1 ds2 t1 t2 : str) :
  forallb isDigit ds1 = true -> forallb isDigit ds2 = true ->
  startsWithDigit t1 = false -> startsWithDigit t2 = false ->
  ds1 ++ t1 = ds2 ++ t2 -> ds1 = ds2 /\ t1 = t2.
Proof.
  revert ds2. induction ds1 as [|d ds1 IH]; intros [|e ds2]; simpl;
    intros H1 H2 Ht1 Ht2 E.
  - done.
  - subst t1. simpl in Ht1. apply andb_true_iff in H2 as [He _]. congruence.
  - subst t2. simpl in Ht2. apply andb_true_iff in H1 as [Hd _]. congruence.
  - apply andb_true_iff in H1 as [_ H1], H2 as [_ H2]. simplify_eq.
    destruct (IH ds2) as [-> ->]; done.
Qed.

(** [inv_matches] takes apart the hypotheses that a word is in the language
    of a sequence, a character, a literal text or [\d+]. *)
Ltac inv_matches :=
  repeat match goal with
    | H : matches (Cat _ _) _ |- _ =>
        apply (proj1 (matches_Cat_inv _ _ _)) in H as (? & ? & -> & ? & ?)
    | H : matches (Chr _) _ |- _ => apply (proj1 (matches_Chr_inv _ _)) in H as ->
    | H : matches Eps _ |- _ => apply (proj1 (matches_Eps_inv _)) in H as ->
    | H : matches (lit _) _ |- _ => apply (proj1 (matches_lit _ _)) in H as ->
    | H : matches (Plus Digit) _ |- _ => apply (proj1 (matches_Plus_Digit _)) in H
    end.

Section Completeness.
Context {R : Type}.
Implicit Types (k : cont R) (s w : str) (cs : caps).

Lemma repeatMore_complete (r : regex) m :
  completeFor (matches r) m ->
  forall ws, Forall (matches r) ws ->
  forall fuel s' cs k, length (concat ws ++ s') <= fuel ->
    (forall cs', is_Some (k s' cs')) ->
    is_Some (repeatMore m fuel k (concat ws ++ s') cs).
Proof.
  intros Hm ws Hws. induction Hws as [|w ws Hw Hws IH]; intros fuel s' cs k Hf Hk.
  - destruct fuel; simpl; [done|]. by case_match.
  - simpl concat. destruct (decide (w = [])) as [->|Hne]; [by apply IH|].
    assert (Hlen : 0 < length w) by (destruct w; simpl; [done|lia]).
    simpl in Hf. rewrite <- app_assoc in *. rewrite length_app in Hf.
    destruct fuel as [|fuel]; [lia|]. simpl. case_match; [done|].
    match goal with H : m _ _ ?k2 = None |- _ =>
      destruct (Hm w (concat ws ++ s') cs k2 Hw) as [y Hy]; [|congruence] end.
    intros cs'. rewrite (length_app w).
    replace (_ <? _) with true by (symmetry; apply Nat.ltb_lt; lia).
    apply IH; [lia|done].
Qed.

Lemma matchRe_complete (r : regex) (idx : nat) :
  completeFor (R := R) (matches r) (matchRe r idx).
Proof.
  revert idx. induction r as [|c| |r1 IH1 r2 IH2|r1 IH1|r1 IH1]; intros idx w s' cs k Hw Hk.
  - inversion Hw; subst. apply Hk.
  - inversion Hw; subst. simpl. by rewrite bool_decide_eq_true_2.
  - inversion Hw as [| |c Hc| | | |]; subst. simpl. by rewrite Hc.
  - inversion Hw; subst. rewrite <- app_assoc. simpl. apply IH1; [done|].
    intros cs'. by apply IH2.
  - apply matches_plus_inv in Hw as (w1 & ws & Hw1 & Hws & ->).
    rewrite <- app_assoc. simpl. apply IH1; [done|]. intros cs'.
    eapply (repeatMore_complete r1); [|done| |done].
    + intros w0 s0 cs0 k0 Hw0 Hk0. by apply IH1.
    + rewrite !length_app. lia.
  - inversion Hw; subst. simpl. apply IH1; [done|]. intros cs'. apply Hk.
Qed.
End Completeness.

(** ** The matcher at one position against the language *)

Lemma matchAt_sound (r : regex) (s w : str) (cs : caps) :
  matchAt r s = Some (w, cs) -> exists s', s = w ++ s' /\ matches r w.
Proof.
  intros (w0 & s' & cs' & -> & Hw & [= <- <-])%matchRe_sound.
  exists s'. rewrite length_app, Nat.add_sub, take_app_length. done.
Qed.

Lemma matchAt_complete (r : regex) (w s' : str) :
  matches r w -> is_Some (matchAt r (w ++ s')).
Proof. intros Hw. by apply matchRe_complete. Qed.

(** The backtracking matcher is a matcher at one position for the language
    of its pattern. *)
#[export] Instance matchAt_PositionMatcher (r : regex) : PositionMatcher (matches r) (matchAt r).
Proof. split; [apply matchAt_sound|apply matchAt_complete]. Qed.

(** ** The scan of [exec], for every matcher at one position *)

(** [execFrom] returns the match at the least position that has one. *)
Lemma execFrom_Some (pm : positionMatcher) (i : nat) (s : str) (m : matchResult) :
  execFrom pm i s = Some m <->
  exists j, mIndex m = i + j /\ j <= length s /\
    pm (drop j s) = Some (mText m, mGroups m) /\
    forall j', j' < j -> pm (drop j' s) = None.
Proof.
  revert i. induction s as [|c s IH]; intros i; simpl.
  - destruct (pm []) as [[w cs]|] eqn:E.
    + split.
      * intros [= <-]. exists 0. simpl. rewrite Nat.add_0_r. split_and!; [done..|lia].
      * intros (j & Hi & Hj & Hm & _). replace j with 0 in * by lia. simpl in Hm.
        destruct m. rewrite Nat.add_0_r in Hi. by simplify_eq/=.
    + split; [done|]. intros (j & _ & Hj & Hm & _). replace j with 0 in * by lia.
      simpl in Hm. congruence.
  - destruct (pm (c :: s)) as [[w cs]|] eqn:E.
    + split.
      * intros [= <-]. exists 0. simpl. rewrite Nat.add_0_r. split_and!; [done|lia|done|lia].
      * intros (j & Hi & Hj & Hm & Hmin). destruct j as [|j].
        -- simpl in Hm. destruct m. rewrite Nat.add_0_r in Hi. by simplify_eq/=.
        -- specialize (Hmin 0 ltac:(lia)). simpl in Hmin. congruence.
    + rewrite IH. split.
      * intros (j & Hi & Hj & Hm & Hmin). exists (S j). simpl.
        split_and!; [lia|lia|done|]. intros [|j'] Hj'; [done|]. apply Hmin. lia.
      * intros (j & Hi & Hj & Hm & Hmin). destruct j as [|j]; [simpl in Hm; congruence|].
        exists j. simpl in *. split_and!; [lia|lia|done|].
        intros j' Hj'. apply (Hmin (S j')). lia.
Qed.

Lemma execFrom_None (pm : positionMatcher) (i : nat) (s : str) :
  execFrom pm i s = None <-> forall j, j <= length s -> pm (drop j s) = None.
Proof.
  revert i. induction s as [|c s IH]; intros i; simpl.
  - destruct (pm []) as [[w cs]|] eqn:E.
    + split; [done|]. intros Hn. specialize (Hn 0 ltac:(lia)). simpl in Hn. congruence.
    + split; [|done]. intros _ j Hj. by replace j with 0 by lia.
  - destruct (pm (c :: s)) as [[w cs]|] eqn:E.
    + split; [done|]. intros Hn. specialize (Hn 0 ltac:(lia)). simpl in Hn. congruence.
    + rewrite IH. split.
      * intros Hn [|j] Hj; [done|]. apply Hn. lia.
      * intros Hn j Hj. apply (Hn (S j)). lia.
Qed.

(** The scan depends on the matcher through its results only. *)
Lemma execFrom_ext (pm1 pm2 : positionMatcher) (i : nat) (s : str) :
  (forall t, pm1 t = pm2 t) -> execFrom pm1 i s = execFrom pm2 i s.
Proof.
  intros Hpm. revert i. induction s as [|c s IH]; intros i; simpl; rewrite Hpm; [done|].
  by rewrite IH.
Qed.

Section Scan.
Context (L : str -> Prop) (pm : positionMatcher) `{!PositionMatcher L pm}.

(** The matcher fails exactly on the texts that start with no word of the
    language. *)
Lemma pm_None (s : str) : pm s = None <-> forall w s', s = w ++ s' -> ~ L w.
Proof.
  split.
  - intros Hn w s' -> Hw. destruct (pm_complete w s' Hw). congruence.
  - intros Hno. destruct (pm s) as [[w cs]|] eqn:E; [|done].
    apply pm_sound in E as (s' & -> & Hw). by destruct (Hno w s').
Qed.

(** The scan finds a match exactly in the texts with a part in the
    language. *)
Lemma execFrom_is_Some (i : nat) (s : str) :
  is_Some (execFrom pm i s) <-> exists pre w post, s = pre ++ w ++ post /\ L w.
Proof.
  split.
  - intros [m (j & _ & Hj & (s' & Hs & Hw)%pm_sound & _)%execFrom_Some].
    exists (take j s), (mText m), s'. by rewrite <- Hs, take_drop.
  - intros (pre & w & post & -> & Hw).
    destruct (execFrom pm i (pre ++ w ++ post)) eqn:E; [done|].
    rewrite execFrom_None in E. specialize (E (length pre)).
    rewrite drop_app_length in E. destruct (pm_complete w post Hw) as [x Hx].
    rewrite E in Hx; [done|]. rewrite length_app. lia.
Qed.

(** What the scan returns: a word of the language, where it stands, and
    no word of the language starts before it. *)
Lemma execFrom_leftmost (s : str) (m : matchResult) :
  execFrom pm 0 s = Some m ->
  L (mText m)
  /\ (exists post, s = take (mIndex m) s ++ mText m ++ post)
  /\ forall pre w post, s = pre ++ w ++ post -> L w -> mIndex m <= length pre.
Proof.
  intros (j & Hi & Hj & Hm & Hmin)%execFrom_Some. simpl in Hi. subst j.
  destruct (pm_sound _ _ _ Hm) as (post & Hpost & Hw). split_and!; [done| |].
  - exists post. by rewrite <- Hpost, take_drop.
  - intros pre w post' -> Hw'. destruct (decide (mIndex m <= length pre)); [done|].
    specialize (Hmin (length pre)). rewrite drop_app_length in Hmin.
    destruct (pm_complete w post' Hw') as [x Hx]. rewrite Hmin in Hx by lia. done.
Qed.
End Scan.

(** ** [exec] and [test] against the language of the pattern *)

Lemma matchAt_None (r : regex) (s : str) :
  matchAt r s = None <-> forall w s', s = w ++ s' -> ~ matches r w.
Proof. apply pm_None, _. Qed.

(** [test] succeeds exactly on the texts with a part in the language. *)
Lemma regexTest_spec (r : regex) (s : str) :
  regexTest r s = true <-> exists pre w post, s = pre ++ w ++ post /\ matches r w.
Proof.
  unfold regexTest, regexExec. rewrite bool_decide_eq_true. apply execFrom_is_Some, _.
Qed.

(** ** Greedy runs of digits *)

Section DigitRuns.
Context {R : Type}.
Implicit Types (k : cont R) (s ds rest : str) (cs : caps).

Lemma matchRe_Digit_body idx s cs k :
  matchRe Digit idx s (resetCaps idx (ngroups Digit) cs) k
  = digitBody (fun _ cs => cs) s cs k.
Proof. done. Qed.

Lemma matchRe_GroupDigit_body idx s cs k :
  matchRe (Group Digit) idx s (resetCaps idx (ngroups (Group Digit)) cs) k
  = digitBody (groupDigit idx) s cs k.
Proof.
  destruct s as [|d s]; [done|]. simpl. destruct (isDigit d); [|done].
  by replace (S (length s) - length s) with 1 by lia.
Qed.

(** The loop of a quantified one-digit body over a run of digits: it ends
    up after the whole run when the continuation accepts there, or when
    the continuation refuses every text that starts with a digit. *)
Lemma repeatMore_digitRun (m : str -> caps -> cont R -> option R) upd :
  (forall s cs k, m s cs k = digitBody upd s cs k) ->
  forall ds rest fuel cs k,
    forallb isDigit ds = true -> startsWithDigit rest = false ->
    length (ds ++ rest) <= fuel ->
    is_Some (k rest (fold_left (fun cs d => upd d cs) ds cs))
      \/ (forall s' cs', startsWithDigit s' = true -> k s' cs' = None) ->
    repeatMore m fuel k (ds ++ rest) cs
    = k rest (fold_left (fun cs d => upd d cs) ds cs).
Proof.
  intros Hm ds. induction ds as [|d ds IH]; intros rest fuel cs k Hds Hrest Hf Hk.
  - destruct fuel as [|fuel]; simpl; [done|]. rewrite Hm.
    destruct rest as [|c rest]; simpl in *; [done|]. by rewrite Hrest.
  - simpl in Hds, Hf. apply andb_true_iff in Hds as [Hd Hds].
    destruct fuel as [|fuel]; [lia|]. simpl. rewrite Hm. simpl. rewrite Hd.
    replace (_ <? _) with true by (symmetry; apply Nat.ltb_lt; lia).
    rewrite IH by (done || lia).
    destruct (k rest _) as [x|] eqn:Ek; [done|].
    destruct Hk as [[x Hx]|Hk]; [simpl in Hx; congruence|].
    by apply Hk.
Qed.

Lemma matchRe_Plus_unfold (r : regex) idx s cs k :
  matchRe (Plus r) idx s cs k
  = matchRe r idx s (resetCaps idx (ngroups r) cs)
      (repeatMore (fun s0 cs0 k0 => matchRe r idx s0 (resetCaps idx (ngroups r) cs0) k0)
         (length s) k).
Proof. done. Qed.

(** [r+] over a one-digit body, on a text that starts with a run of
    digits. *)
Lemma matchRe_Plus_digitRun (r : regex) (idx : nat) upd :
  (forall s cs k, matchRe r idx s (resetCaps idx (ngroups r) cs) k = digitBody upd s cs k) ->
  forall d ds rest cs k,
    forallb isDigit (d :: ds) = true -> startsWithDigit rest = false ->
    is_Some (k rest (fold_left (fun cs d => upd d cs) (d :: ds) cs))
      \/ (forall s' cs', startsWithDigit s' = true -> k s' cs' = None) ->
    matchRe (Plus r) idx (d :: ds ++ rest) cs k
    = k rest (fold_left (fun cs d => upd d cs) (d :: ds) cs).
Proof.
  intros Hm d ds rest cs k Hds Hrest Hk. simpl in Hds.
  apply andb_true_iff in Hds as [Hd Hds]. rewrite matchRe_Plus_unfold, Hm.
  cbn [digitBody fold_left] in *. rewrite Hd.
  apply (repeatMore_digitRun _ upd Hm ds rest _ (upd d cs) k); [done|done|simpl; lia|done].
Qed.

(** [r+] over a one-digit body fails on a text that does not start with a
    digit. *)
Lemma matchRe_Plus_noDigit (r : regex) (idx : nat) upd :
  (forall s cs k, matchRe r idx s (resetCaps idx (ngroups r) cs) k = digitBody upd s cs k) ->
  forall s cs k, startsWithDigit s = false -> matchRe (Plus r) idx s cs k = None.
Proof.
  intros Hm s cs k Hs. rewrite matchRe_Plus_unfold, Hm.
  destruct s as [|c s]; simpl in *; [done|]. by rewrite Hs.
Qed.
End DigitRuns.

(** ** Scanning digits directly *)

Lemma digitsPrefix_afterDigits (s : str) : digitsPrefix s ++ afterDigits s = s.
Proof.
  induction s as [|d s IH]; [done|]. simpl. destruct (isDigit d); [|done].
  simpl. by rewrite IH.
Qed.

Lemma digitsPrefix_digits (s : str) : forallb isDigit (digitsPrefix s) = true.
Proof.
  induction s as [|d s IH]; [done|]. simpl. destruct (isDigit d) eqn:Hd; [|done].
  simpl. by rewrite Hd.
Qed.

Lemma afterDigits_noDigit (s : str) : startsWithDigit (afterDigits s) = false.
Proof.
  induction s as [|d s IH]; [done|]. simpl. by destruct (isDigit d) eqn:Hd.
Qed.

Lemma digitsPrefix_nil (s : str) : digitsPrefix s = [] <-> startsWithDigit s = false.
Proof. destruct s as [|d s]; [done|]. simpl. by destruct (isDigit d). Qed.

Lemma digitsPrefix_app (ds rest : str) :
  forallb isDigit ds = true -> startsWithDigit rest = false ->
  digitsPrefix (ds ++ rest) = ds /\ afterDigits (ds ++ rest) = rest.
Proof.
  intros Hds Hrest.
  apply (digits_run_unique _ _ (afterDigits (ds ++ rest)) rest);
    auto using digitsPrefix_digits, afterDigits_noDigit, digitsPrefix_afterDigits.
Qed.

Lemma groupDigit_insert (idx : nat) (d : ascii) (cs : caps) :
  groupDigit idx d cs = <[idx := Some [d]]> cs.
Proof. unfold groupDigit. apply list_insert_insert_eq. Qed.

Lemma fold_groupDigit (idx : nat) (d : ascii) (ds : str) (cs : caps) :
  fold_left (fun cs d => groupDigit idx d cs) (d :: ds) cs
  = <[idx := Some [lastOf d ds]]> cs.
Proof.
  revert d cs. induction ds as [|e ds IH]; intros d cs.
  - apply groupDigit_insert.
  - change (fold_left _ (d :: e :: ds) cs)
      with (fold_left (fun cs d => groupDigit idx d cs) (e :: ds) (groupDigit idx d cs)).
    by rewrite IH, groupDigit_insert, list_insert_insert_eq.
Qed.

Lemma matchRe_Cat_unfold {R : Type} (r1 r2 : regex) idx s cs (k : cont R) :
  matchRe (Cat r1 r2) idx s cs k
  = matchRe r1 idx s cs (fun s' cs' => matchRe r2 (idx + ngroups r1) s' cs' k).
Proof. done. Qed.

Lemma matchRe_Chr_unfold {R : Type} (c : ascii) idx s cs (k : cont R) :
  matchRe (Chr c) idx s cs k
  = match s with
    | a :: s' => if bool_decide (a = c) then k s' cs else None
    | [] => None
    end.
Proof. done. Qed.

(** [(\d)+] before a continuation that accepts: the whole run of digits is
    taken and the group holds its last digit. *)
Lemma matchRe_Plus_GroupDigit {R : Type} (idx : nat) (s : str) (cs : caps) (k : cont R) :
  (forall s' cs', is_Some (k s' cs')) ->
  matchRe (Plus (Group Digit)) idx s cs k
  = match digitsPrefix s with
    | [] => None
    | d :: ds => k (afterDigits s) (<[idx := Some [lastOf d ds]]> cs)
    end.
Proof.
  intros Hk. pose proof (digitsPrefix_afterDigits s) as Hs.
  pose proof (digitsPrefix_digits s) as Hds. pose proof (afterDigits_noDigit s) as Hrest.
  destruct (digitsPrefix s) as [|d ds] eqn:E.
  - apply (matchRe_Plus_noDigit _ _ (groupDigit idx)).
    + intros. apply matchRe_GroupDigit_body.
    + by apply digitsPrefix_nil.
  - rewrite <- Hs at 1. rewrite <- fold_groupDigit.
    apply (matchRe_Plus_digitRun _ _ (groupDigit idx)); [|done|done|by left].
    intros. apply matchRe_GroupDigit_body.
Qed.

(** ** What [exec] returns *)

(** What [exec] returns: the matched text is in the language, it stands at
    the returned index, and no match starts before it. *)
Lemma regexExec_Some (r : regex) (s : str) (m : matchResult) :
  regexExec r s = Some m ->
  mIndex m <= length s /\ matches r (mText m) /\
  (exists post, drop (mIndex m) s = mText m ++ post) /\
  forall j, j < mIndex m -> matchAt r (drop j s) = None.
Proof.
  intros (j & Hi & Hj & Hm & Hmin)%execFrom_Some. simpl in Hi. subst j.
  apply matchAt_sound in Hm as (post & Hs & Hw). eauto 6.
Qed.

Lemma regexExec_None (r : regex) (s : str) :
  regexExec r s = None <-> forall j, j <= length s -> matchAt r (drop j s) = None.
Proof. apply execFrom_None. Qed.

(** The match that [exec] returns is the first occurrence of its own text:
    [s.replace(m[0], t)] rewrites the text at [m.index]. *)
Lemma regexExec_strIndexOf (r : regex) (s : str) (m : matchResult) :
  regexExec r s = Some m -> strIndexOf s (mText m) = Some (mIndex m).
Proof.
  intros (Hi & Hw & [post Hpost] & Hmin)%regexExec_Some. apply strIndexOf_Some. split.
  - by exists post.
  - intros j Hj. destruct (isPrefixOf (mText m) (drop j s)) eqn:E; [|done].
    apply isPrefixOf_spec in E as [t Ht].
    destruct (matchAt_complete r (mText m) t Hw) as [x Hx].
    rewrite <- Ht, Hmin in Hx by done. done.
Qed.

(** Line 100 after a successful match: the matched text is replaced, where
    it was found, by the placeholder. *)
Lemma strReplace_match (r : regex) (s : str) (m : matchResult) (i : nat) :
  regexExec r s = Some m ->
  strReplace s (mText m) ("$"%char :: natToString i)
  = take (mIndex m) s ++ "$"%char :: natToString i
      ++ drop (mIndex m + length (mText m)) s.
Proof.
  intros Hm. unfold strReplace. rewrite (regexExec_strIndexOf r s m Hm).
  by rewrite getSubstitution_dollar_plain by apply natToString_plain.
Qed.

Lemma regexTest_false (r : regex) (s : str) :
  regexTest r s = false <-> regexExec r s = None.
Proof.
  unfold regexTest. rewrite bool_decide_eq_false, <- eq_None_not_Some. done.
Qed.

Lemma regexTest_true (r : regex) (s : str) :
  regexTest r s = true <-> exists m, regexExec r s = Some m.
Proof. unfold regexTest. by rewrite bool_decide_eq_true. Qed.

(** A pattern that matches in a part of a text matches in the text. *)
Lemma regexTest_partOf (r : regex) (w s : str) :
  partOf w s -> regexTest r w = true -> regexTest r s = true.
Proof.
  intros (pre & post & ->). rewrite !regexTest_spec.
  intros (pre' & w' & post' & -> & Hw). exists (pre ++ pre'), w', (post' ++ post).
  by rewrite <- !(assoc_L (++)).
Qed.

(** [test] fails exactly on the texts with no part in the language. *)
Lemma regexTest_false_spec (r : regex) (s : str) :
  regexTest r s = false <-> forall pre w post, s = pre ++ w ++ post -> ~ matches r w.
Proof.
  rewrite <- not_true_iff_false, regexTest_spec. split.
  - intros Hno pre w post E Hw. apply Hno. eauto.
  - intros Hno (pre & w & post & E & Hw). by apply (Hno pre w post).
Qed.

(** A pattern that matches nowhere in a text matches in no part of it. *)
Lemma regexTest_part_false (r : regex) (w s : str) :
  partOf w s -> regexTest r s = false -> regexTest r w = false.
Proof.
  intros Hp Hs. destruct (regexTest r w) eqn:E; [|done].
  by rewrite (regexTest_partOf _ _ _ Hp E) in Hs.
Qed.

(** C36. What [exec] computes, against the language of the pattern: the
    text that it returns is in the language and stands at the index that
    it returns, no part of the string in the language starts before that
    index, and it returns [null] exactly when no part of the string is in
    the language. *)
Theorem regexExec_correct (r : regex) (s : str) :
  match regexExec r s with
  | Some m =>
      matches r (mText m)
      /\ (exists post, s = take (mIndex m) s ++ mText m ++ post)
      /\ forall pre w post, s = pre ++ w ++ post -> matches r w -> mIndex m <= length pre
  | None => forall pre w post, s = pre ++ w ++ post -> ~ matches r w
  end.
Proof.
  destruct (regexExec r s) as [m|] eqn:E; [by apply (execFrom_leftmost (matches r) (matchAt r))|].
  by apply regexTest_false_spec, regexTest_false.
Qed.

(** The last digit of a run of digits is a digit. *)
Lemma lastOf_digit (d : ascii) (ds : str) :
  forallb isDigit (d :: ds) = true -> isDigit (lastOf d ds) = true.
Proof.
  revert d. induction ds as [|e ds IH]; intros d; simpl; [by rewrite andb_true_r|].
  intros [_ H]%andb_true_iff. by apply IH.
Qed.
