(* ===== verification/Patterns.v ===== *)
(** * Patterns: the two patterns of the action and what they match

    [/php\d+\.\d+-fpm/] (line 90 of [src/index.js]) and [/\$(\d)+/]
    (line 105): their languages, where the first service name of a string
    stands, and the match of a placeholder as a direct scan. *)

From Stdlib Require Import Ascii String Arith Lia.
From stdpp Require Import base tactics option list.
From S2P Require Import Prelude JsString RegExp.

#[local] Open Scope str_scope.

(** ** The patterns *)

(** [/php\d+\.\d+-fpm/] *)
Definition phpFpmRe : regex :=
  Cat (lit "php") (Cat (Plus Digit) (Cat (Chr ".") (Cat (Plus Digit) (lit "-fpm")))).

(** Line 105: [/\$(\d)+/], a dollar and digits; the group is inside the
    quantifier, so it captures the last digit. *)
Definition placeholderRe : regex := Cat (Chr "$") (Plus (Group Digit)).

(** [phpFpmName major minor] is the service name [php<major>.<minor>-fpm]. *)
Definition phpFpmName (major minor : str) : str :=
  "php" ++ major ++ "." ++ minor ++ "-fpm".

(** [placeholderAt s]: the placeholder at the head of [s], a dollar and
    the longest run of digits after it, with the capture of [(\d)+], which
    is the last digit of the run. *)
Definition placeholderAt (s : str) : option (str * caps) :=
  match s with
  | c :: s' =>
      if bool_decide (c = "$"%char) then
        match digitsPrefix s' with
        | [] => None
        | d :: ds => Some (c :: d :: ds, [Some [lastOf d ds]])
        end
      else None
  | [] => None
  end.

(** ** The service-name pattern *)

(** The words of [/php\d+\.\d+-fpm/]. *)
Lemma matches_phpFpmRe (w : str) :
  matches phpFpmRe w <->
  exists major minor,
    isDigits major = true /\ isDigits minor = true /\ w = phpFpmName major minor.
Proof.
  unfold phpFpmRe, phpFpmName. split.
  - intros H. inv_matches. eauto.
  - intros (major & minor & Hmaj & Hmin & ->).
    repeat first [ apply matches_cat | by apply matches_lit
                 | by apply matches_Plus_Digit | apply (matches_chr ".") ].
Qed.

Lemma isDigits_forallb (ds : str) : isDigits ds = true -> forallb isDigit ds = true.
Proof. by destruct ds. Qed.

(** A service name is determined by the text it starts: two words of the
    pattern of which one is a prefix of the other are equal. *)
Lemma phpFpm_prefix_unique (w1 w2 t1 t2 : str) :
  matches phpFpmRe w1 -> matches phpFpmRe w2 -> w1 ++ t1 = w2 ++ t2 -> w1 = w2.
Proof.
  intros (a1 & b1 & Ha1%isDigits_forallb & Hb1%isDigits_forallb & ->)%matches_phpFpmRe
         (a2 & b2 & Ha2%isDigits_forallb & Hb2%isDigits_forallb & ->)%matches_phpFpmRe E.
  unfold phpFpmName in *. rewrite <- !(assoc_L (++)) in E. simplify_eq/=.
  apply digits_run_unique in E as [-> E]; [|done..]. simplify_eq/=.
  apply digits_run_unique in E as [-> E]; done.
Qed.

Lemma isDigits_no_char (c : ascii) (ds : str) :
  isDigit c = false -> forallb isDigit ds = true -> c ∉ ds.
Proof.
  rewrite forallb_forall. intros Hc Hds Hin%list_elem_of_In. apply Hds in Hin. congruence.
Qed.

Lemma isDigits_no_dot (ds : str) : forallb isDigit ds = true -> "."%char ∉ ds.
Proof. by apply isDigits_no_char. Qed.

(** The shape of a service name around its dot. *)
Lemma phpFpm_shape (w : str) :
  matches phpFpmRe w ->
  exists x d y, w = ("p"%char :: x) ++ "."%char :: d :: y
    /\ ("."%char ∉ "p"%char :: x) /\ ("."%char ∉ d :: y) /\ isDigit d = true.
Proof.
  intros (a & b & Ha%isDigits_forallb & Hb & ->)%matches_phpFpmRe.
  destruct b as [|d b]; [done|]. apply andb_true_iff in Hb as [Hd Hb].
  exists ("hp" ++ a), d, (b ++ "-fpm"). split_and!; [|..|done].
  - unfold phpFpmName. simpl. by rewrite <- ?(assoc_L (++)).
  - change ("p"%char :: "hp" ++ a) with ("php" ++ a). rewrite elem_of_app.
    intros [Hp|Hd']; [|by apply isDigits_no_dot in Hd'].
    revert Hp. compute_done.
  - rewrite not_elem_of_cons. split; [by intros <-|]. rewrite elem_of_app.
    intros [Hd'|Hp]; [by apply isDigits_no_dot in Hd'|].
    revert Hp. compute_done.
Qed.

(** A text without a dot holds no service name. *)
Lemma regexTest_phpFpm_no_dot (x : str) : "."%char ∉ x -> regexTest phpFpmRe x = false.
Proof.
  intros Hx. apply regexTest_false_spec.
  intros pre w post -> (a & d & y & -> & _)%phpFpm_shape.
  destruct Hx. rewrite !elem_of_app. right. left. right. left.
Qed.

(** The ends of a service name: it starts with [ph], holds no other [h]
    and ends with [m]. *)
Lemma phpFpm_ends (w : str) :
  matches phpFpmRe w ->
  exists mid, w = "p"%char :: "h"%char :: mid ++ ["m"%char] /\ "h"%char ∉ mid.
Proof.
  intros (a & b & Ha%isDigits_forallb & Hb%isDigits_forallb & ->)%matches_phpFpmRe.
  exists ("p" ++ a ++ "." ++ b ++ "-fp"). split.
  - unfold phpFpmName. cbn [app]. do 3 f_equal.
    rewrite <- !(assoc_L (++)). simpl. by rewrite <- !(assoc_L (++)).
  - rewrite !elem_of_app.
    intros [H|[H|[H|[H|H]]]]; try (by apply isDigits_no_char in H);
      revert H; compute_done.
Qed.

(** A text without a service name has none when a dot follows it. *)
Lemma regexTest_phpFpm_dot (pre : str) :
  regexTest phpFpmRe pre = false -> regexTest phpFpmRe (pre ++ ".") = false.
Proof.
  rewrite !regexTest_false_spec. intros Hpre a w b E Hw.
  destruct b as [|c b _] using rev_ind.
  - apply phpFpm_ends in Hw as (mid & -> & _). rewrite app_nil_r in E.
    change (?x :: ?y :: mid ++ ?m) with ((x :: y :: mid) ++ m) in E.
    rewrite (assoc_L (++)) in E. by apply app_inj_tail in E as [_ ?].
  - rewrite !(assoc_L (++)) in E. apply app_inj_tail in E as [-> _].
    apply (Hpre a w b); [|done]. by rewrite <- (assoc_L (++)).
Qed.

(** No service name starts before a service name [S] in a text that holds
    none: a name that reached into [S] would hold the [h] of [S] after
    its own, or end with the [p] of [S]. *)
Lemma matchAt_before_name (P S post : str) (j : nat) :
  regexTest phpFpmRe P = false -> matches phpFpmRe S -> j < length P ->
  matchAt phpFpmRe (drop j (P ++ S ++ post)) = None.
Proof.
  intros HP (midS & -> & _)%phpFpm_ends Hj. apply matchAt_None.
  intros w s' E Hw. rewrite drop_app_le in E by lia.
  assert (forall l, drop j P <> w ++ l) as Hin.
  { intros l El. apply (proj1 (regexTest_false_spec _ _) HP (take j P) w l); [|done].
    by rewrite <- El, take_drop. }
  apply app_eq_app in E as [l [[E _]|[E El]]]; [by apply Hin in E|].
  destruct l as [|c [|c' l]]; simplify_eq/=.
  - by rewrite app_nil_r in Hin; apply (Hin []); rewrite app_nil_r.
  - apply phpFpm_ends in Hw as (mid & E & _).
    change (?a :: ?b :: mid ++ ?m) with ((a :: b :: mid) ++ m) in E.
    by apply app_inj_tail in E as [_ ?].
  - apply phpFpm_ends in Hw as (mid & E & Hmid).
    destruct (drop j P) as [|c0 [|c1 u]] eqn:Eu; simpl in E.
    + apply (f_equal length) in Eu. rewrite length_drop in Eu. simpl in Eu. lia.
    + congruence.
    + injection E as _ _ E. destruct Hmid.
      assert ("h"%char ∈ mid ++ ["m"%char]) as [H|H%list_elem_of_singleton]%elem_of_app; [|done..].
      rewrite <- E, elem_of_app. right. by right; left.
Qed.

(** The matcher takes a service name whole where one starts. *)
Lemma matchAt_name (S post : str) :
  matches phpFpmRe S -> exists cs, matchAt phpFpmRe (S ++ post) = Some (S, cs).
Proof.
  intros HS. destruct (matchAt_complete phpFpmRe S post HS) as [[w cs] Hm].
  exists cs. rewrite Hm. apply matchAt_sound in Hm as (s' & E & Hw).
  by rewrite (phpFpm_prefix_unique w S s' post).
Qed.

(** No service name starts with another character than [p]. *)
Lemma matchAt_phpFpm_head (c : ascii) (s : str) :
  c <> "p"%char -> matchAt phpFpmRe (c :: s) = None.
Proof.
  intros Hc. apply matchAt_None. intros w s' E (mid & -> & _)%phpFpm_ends. by simplify_eq/=.
Qed.

(** The first service name of a string stands where the text before it
    ends, when that text holds none. *)
Lemma regexExec_first_name (P S post : str) :
  regexTest phpFpmRe P = false -> matches phpFpmRe S ->
  exists cs, regexExec phpFpmRe (P ++ S ++ post) = Some (MatchResult (length P) S cs).
Proof.
  intros HP HS. destruct (matchAt_name S post HS) as [cs Hm].
  exists cs. apply execFrom_Some. exists (length P). simpl.
  split_and!; [done|rewrite length_app; lia|by rewrite drop_app_length|].
  intros j Hj. by apply matchAt_before_name.
Qed.

Lemma phpFpm_no_dollar (S : str) : matches phpFpmRe S -> "$"%char ∉ S.
Proof.
  intros (a & b & Ha%isDigits_forallb & Hb%isDigits_forallb & ->)%matches_phpFpmRe.
  unfold phpFpmName. rewrite !elem_of_app.
  intros [H|[H|[H|[H|H]]]]; try (by apply isDigits_no_char in H);
    revert H; compute_done.
Qed.

Lemma phpFpm_dot (S : str) : matches phpFpmRe S -> "."%char ∈ S.
Proof.
  intros (x & d & y & -> & _)%phpFpm_shape. rewrite elem_of_app. right. by left.
Qed.

Lemma regexTest_phpFpm_after_dot (q : str) :
  regexTest phpFpmRe q = false -> regexTest phpFpmRe ("."%char :: q) = false.
Proof.
  rewrite !regexTest_false, !regexExec_None. intros Hq [|j] Hj; simpl in *.
  - by apply matchAt_phpFpm_head.
  - apply Hq. lia.
Qed.

(** What [exec] returns on the service-name pattern: the string is the
    text before the name, which holds no name, the name, and the text
    after it. *)
Lemma regexExec_phpFpm_first (s : str) (m : matchResult) :
  regexExec phpFpmRe s = Some m ->
  matches phpFpmRe (mText m)
  /\ regexTest phpFpmRe (take (mIndex m) s) = false
  /\ s = take (mIndex m) s ++ mText m ++ drop (mIndex m + length (mText m)) s.
Proof.
  intros (Hi & Hw & [post Hpost] & Hmin)%regexExec_Some. split_and!; [done| |].
  - apply regexTest_false_spec. intros a w b E Hw'.
    apply (f_equal (drop (length a))) in E as E'.
    rewrite drop_app_length in E'.
    assert (length a < mIndex m) as Ha.
    { apply (f_equal length) in E. rewrite length_take, !length_app in E.
      apply phpFpm_ends in Hw' as (? & -> & _). simpl in E. lia. }
    specialize (Hmin _ Ha). rewrite <- (take_drop (mIndex m) s), drop_app_le in Hmin.
    2: { rewrite length_take. lia. }
    rewrite E', <- (assoc_L (++)) in Hmin.
    destruct (matchAt_complete phpFpmRe w (b ++ drop (mIndex m) s) Hw') as [x Hx]. congruence.
  - rewrite <- drop_drop, Hpost, drop_app_length, <- Hpost. by rewrite take_drop.
Qed.

(** ** The placeholder pattern *)

(** The matcher on [/\$(\d)+/] is the direct scan: greedy, the capture is
    the last digit. *)
Lemma matchAt_placeholder (s : str) :
  matchAt placeholderRe s = placeholderAt s.
Proof.
  unfold matchAt, placeholderAt, placeholderRe. rewrite matchRe_Cat_unfold, matchRe_Chr_unfold.
  destruct s as [|c s]; [done|]. case_bool_decide as Hc; [|done].
  rewrite matchRe_Plus_GroupDigit by done.
  pose proof (digitsPrefix_afterDigits s) as Hs.
  destruct (digitsPrefix s) as [|d ds]; [done|]. do 2 f_equal.
  rewrite <- Hs at 1 3. simpl. rewrite !length_app.
  replace (_ - _) with (length (c :: d :: ds)) by (simpl; lia).
  apply (take_app_length (c :: d :: ds)).
Qed.

(** The scanner of placeholders is a matcher at one position for the
    language of [/\$(\d)+/]. *)
#[export] Instance placeholderAt_PositionMatcher :
  PositionMatcher (matches placeholderRe) placeholderAt.
Proof.
  split; intros *; rewrite <- matchAt_placeholder; [apply pm_sound|apply pm_complete].
Qed.

(** C37. Line 105 without the matcher: [arg.match(/\$(\d)+/)] is the scan
    for the first dollar that a digit follows, with the run of digits after
    it as the match and the last digit of the run as the capture. *)
Theorem strMatch_placeholder (arg : str) :
  strMatch arg placeholderRe = execFrom placeholderAt 0 arg.
Proof. apply execFrom_ext, matchAt_placeholder. Qed.

Lemma placeholderAt_head (c : ascii) (s : str) :
  c <> "$"%char -> placeholderAt (c :: s) = None.
Proof. intros Hc. simpl. by rewrite bool_decide_eq_false_2. Qed.

Lemma regexExec_placeholder_none (s : str) :
  "$"%char ∉ s -> regexExec placeholderRe s = None.
Proof.
  intros Hs. apply regexExec_None. intros j Hj. rewrite matchAt_placeholder.
  destruct (drop j s) as [|c t] eqn:E; [done|]. apply placeholderAt_head.
  intros ->. by apply Hs, (drop_cons_elem_of _ t j).
Qed.

(** The first placeholder of a piece: after a text with no dollar, a
    dollar, a run of digits and a character that is no digit. *)
Lemma regexExec_placeholder_some (pre ds rest : str) (d : ascii) :
  "$"%char ∉ pre -> forallb isDigit (d :: ds) = true -> startsWithDigit rest = false ->
  regexExec placeholderRe (pre ++ "$"%char :: d :: ds ++ rest)
  = Some (MatchResult (length pre) ("$"%char :: d :: ds) [Some [lastOf d ds]]).
Proof.
  intros Hpre Hds Hrest. apply execFrom_Some. exists (length pre). simpl.
  split_and!; [done|rewrite length_app; lia| |].
  - rewrite drop_app_length, matchAt_placeholder.
    destruct (digitsPrefix_app (d :: ds) rest Hds Hrest) as [E _].
    simpl in E |- *. by rewrite E.
  - intros j Hj. rewrite matchAt_placeholder.
    rewrite drop_app_le by lia. destruct (drop j pre) as [|c t] eqn:E.
    { apply (f_equal length) in E. rewrite length_drop in E. simpl in E. lia. }
    apply placeholderAt_head. intros ->. by apply Hpre, (drop_cons_elem_of _ t j).
Qed.

Lemma regexTest_placeholder_no_dollar (s : str) :
  "$"%char ∉ s -> regexTest placeholderRe s = false.
Proof. intros Hs. by apply regexTest_false, regexExec_placeholder_none. Qed.

(** ** The words of the placeholder pattern *)

Lemma matches_placeholderRe (w : str) :
  matches placeholderRe w <-> exists ds, isDigits ds = true /\ w = "$"%char :: ds.
Proof.
  unfold placeholderRe. rewrite matches_Cat_inv. split.
  - intros (? & ds & -> & ->%matches_Chr_inv & Hds%matches_Plus_Group%matches_Plus_Digit). eauto.
  - intros (ds & Hds & ->). exists ["$"%char], ds. split_and!; [done|constructor|].
    by apply matches_Plus_Group, matches_Plus_Digit.
Qed.

Lemma placeholder_no_dot (w : str) : matches placeholderRe w -> "."%char ∉ w.
Proof.
  intros (ds & Hds%isDigits_forallb & ->)%matches_placeholderRe.
  apply not_elem_of_cons. split; [done|by apply isDigits_no_dot].
Qed.

(** A placeholder of a text around a dot stands before the dot or after
    it. *)
Lemma regexTest_placeholder_sep (a b : str) :
  regexTest placeholderRe a = false -> regexTest placeholderRe b = false ->
  regexTest placeholderRe (a ++ "."%char :: b) = false.
Proof.
  rewrite !regexTest_false_spec. intros Ha Hb pre w post E Hw.
  apply app_eq_app in E as [l [[-> E]|[-> E]]].
  - apply (app_eq_no_sep "."%char) in E as (t & -> & ->); [|by apply placeholder_no_dot].
    by apply (Ha pre w t).
  - destruct l as [|c l]; simplify_eq/=.
    + by apply matches_placeholderRe in Hw as (ds & _ & ->).
    + by apply (Hb l w post).
Qed.

Lemma regexTest_placeholder_join (ps : list str) :
  Forall (fun p => regexTest placeholderRe p = false) ps ->
  regexTest placeholderRe (strJoin "." ps) = false.
Proof.
  induction 1 as [|p ps Hp Hps IH]; [done|]. destruct ps as [|q ps]; [done|].
  rewrite strJoin_cons by done. by apply regexTest_placeholder_sep.
Qed.

(** A text around [$0] holds a placeholder. *)
Lemma placeholder_piece_test (x y : str) : regexTest placeholderRe (x ++ "$0" ++ y) = true.
Proof.
  apply regexTest_spec. exists x, "$0", y. split; [done|].
  apply matches_placeholderRe. by exists "0".
Qed.
