(* ===== verification/JsValue.v ===== *)
(** * JsValue: the values the API answers with, and what the action does to them

    The bodies of the two HTTP responses are parsed JSON ([res.json()],
    lines 43 and 72 of [src/index.js]).  The action reads properties of
    them ([token.error], [token.access_token], [response.body
    .error_description]), tests them for truthiness, turns them into text
    (inside a template literal, line 53, and through [new Error(...)],
    lines 124 and 135) and prints one with [JSON.stringify] (line 138).
    This file models the values of parsed JSON and those operations as the
    language defines them on such values.

    A number is kept as its canonical text, the text [String(n)] gives:
    that text determines the number up to the sign of zero, zero is the
    number whose text is [0], and it is all the action can observe of a
    number.  A property that is missing, and the value [undefined], are
    [None] in an [option jsval].

    One primitive is left to the engine: whether a string converts to the
    number zero ([stringIsZero]), which the loose comparison [== 0] of
    line 127 needs when it is given a string.  The definitions that depend
    on it take the engine as a parameter ([JsEngine]). *)

From Stdlib Require Import Ascii String Arith Lia.
From stdpp Require Import base tactics option list.
From S2P Require Import Prelude JsString.

#[local] Open Scope str_scope.

(** ** Values *)

Inductive jsval : Type :=
| JNull
| JBool (b : bool)
| JNum (text : str)
| JStr (s : str)
| JArr (items : list jsval)
| JObj (fields : list (str * jsval)).

(** The engine's primitive: [stringIsZero s] holds when [Number(s)] is
    zero. *)
Class JsEngine : Type := {
  stringIsZero : str -> bool
}.

(** [assoc key fields] is the value of the own property [key] of an object
    whose properties are [fields]. *)
Fixpoint assoc {A : Type} (key : str) (fields : list (str * A)) : option A :=
  match fields with
  | [] => None
  | (k, v) :: fields' => if bool_decide (k = key) then Some v else assoc key fields'
  end.

(** ** Truthiness *)

(** [truthy v] is [ToBoolean(v)]: what [if (v)] and [!v] test. *)
Definition truthy (v : option jsval) : bool :=
  match v with
  | None => false
  | Some JNull => false
  | Some (JBool b) => b
  | Some (JNum text) => negb (bool_decide (text = "0"))
  | Some (JStr s) => negb (bool_decide (s = ""))
  | Some (JArr _) => true
  | Some (JObj _) => true
  end.

(** ** Reading a property *)

(** [getProp v name] is [v.name] for a name that no built-in prototype
    defines (the action reads [error], [error_description],
    [access_token] and [legnth]): a [TypeError] on [null] and [undefined],
    the own property of an object, [undefined] on anything else. *)
Definition getProp (v : option jsval) (name : str) : result (option jsval) :=
  match v with
  | None => Throw (TypeError (ReadPropertyOfUndefined name))
  | Some JNull => Throw (TypeError (ReadPropertyOfNull name))
  | Some (JObj fields) => Ok (assoc name fields)
  | Some _ => Ok None
  end.

(** ** Conversion to text *)

(** [toStr v] is [ToString(v)], what a template literal and [new Error]
    apply to a value: an array is the join of its elements, [null]
    elements being empty; an object is [[object Object]], unless it has an
    own property [toString], which JSON cannot make callable, and then the
    conversion throws. *)
Fixpoint toStr (v : jsval) : result str :=
  match v with
  | JNull => Ok "null"
  | JBool true => Ok "true"
  | JBool false => Ok "false"
  | JNum text => Ok text
  | JStr s => Ok s
  | JArr items =>
      (fix join (l : list jsval) : result str :=
         match l with
         | [] => Ok ""
         | x :: l' =>
             a ← match x with JNull => Ok "" | _ => toStr x end;
             match l' with
             | [] => Ok a
             | _ => b ← join l'; Ok (a ++ "," ++ b)
             end
         end) items
  | JObj fields =>
      match assoc "toString" fields with
      | Some _ => Throw (TypeError NotPrimitive)
      | None => Ok "[object Object]"
      end
  end.

(** [toStrOpt v] is [ToString(v)] for a value that may be [undefined]. *)
Definition toStrOpt (v : option jsval) : result str :=
  match v with
  | None => Ok "undefined"
  | Some v => toStr v
  end.

(** [errorMessageOf v] is the [message] of [new Error(v)]: empty when [v]
    is [undefined], the text of [v] otherwise. *)
Definition errorMessageOf (v : option jsval) : result str :=
  match v with
  | None => Ok ""
  | Some v => toStr v
  end.

(** ** Loose comparison with zero *)

(** [looseEqZero v] is [v == 0]. *)
Definition looseEqZero `{JsEngine} (v : option jsval) : result bool :=
  match v with
  | None => Ok false
  | Some JNull => Ok false
  | Some (JBool b) => Ok (negb b)
  | Some (JNum text) => Ok (bool_decide (text = "0"))
  | Some (JStr s) => Ok (stringIsZero s)
  | Some (JArr items) => s ← toStr (JArr items); Ok (stringIsZero s)
  | Some (JObj fields) => _ ← toStr (JObj fields); Ok false
  end.

(** ** [JSON.stringify] *)

(** The double quote. *)
Definition dquote : ascii := "034"%char.

(** [hexDigit n] is the lower-case hexadecimal digit of [n < 16]. *)
Definition hexDigit (n : nat) : ascii :=
  ascii_of_nat (if n <? 10 then 48 + n else 87 + n).

(** [quoteJSONChar c] is the text of one character inside a JSON string. *)
Definition quoteJSONChar (c : ascii) : str :=
  let n := nat_of_ascii c in
  if bool_decide (c = dquote) then ["\"%char; dquote]
  else if bool_decide (c = "\"%char) then "\\"
  else if n =? 8 then "\b"
  else if n =? 9 then "\t"
  else if n =? 10 then "\n"
  else if n =? 12 then "\f"
  else if n =? 13 then "\r"
  else if n <? 32 then "\u00" ++ [hexDigit (n / 16); hexDigit (n mod 16)]
  else [c].

(** [quoteJSONString s] is [JSON.stringify(s)] for a string. *)
Definition quoteJSONString (s : str) : str :=
  dquote :: flat_map quoteJSONChar s ++ [dquote].

(** [jsonStringify v] is [JSON.stringify(v)] for a value of parsed JSON.  A
    number that is not finite prints as [null]. *)
Fixpoint jsonStringify (v : jsval) : str :=
  match v with
  | JNull => "null"
  | JBool true => "true"
  | JBool false => "false"
  | JNum text =>
      if bool_decide (text = "Infinity") || bool_decide (text = "-Infinity")
         || bool_decide (text = "NaN")
      then "null" else text
  | JStr s => quoteJSONString s
  | JArr items =>
      "[" ++ (fix go (l : list jsval) : str :=
                match l with
                | [] => ""
                | [x] => jsonStringify x
                | x :: l' => jsonStringify x ++ "," ++ go l'
                end) items ++ "]"
  | JObj fields =>
      "{" ++ (fix go (l : list (str * jsval)) : str :=
                match l with
                | [] => ""
                | [(k, x)] => quoteJSONString k ++ ":" ++ jsonStringify x
                | (k, x) :: l' => quoteJSONString k ++ ":" ++ jsonStringify x ++ "," ++ go l'
                end) fields ++ "}"
  end.

(** ** Objects under construction

    The request body is built as an object whose values are strings or
    [undefined] (lines 60 to 66). *)

Abbreviation jsObject := (list (str * option str)).

(** [objSet o key v] is [o[key] = v] for a key that is neither an array
    index nor [__proto__]: the value of an existing property is replaced
    where it stands, a new property is added at the end. *)
Fixpoint objSet (o : jsObject) (key : str) (v : option str) : jsObject :=
  match o with
  | [] => [(key, v)]
  | (k, w) :: o' => if bool_decide (k = key) then (k, v) :: o' else (k, w) :: objSet o' key v
  end.

(** [ordinaryKey key]: [key] is neither an array index nor [__proto__]. *)
Definition ordinaryKey (key : str) : bool :=
  negb (bool_decide (is_Some (canonicalIndex key))) && negb (bool_decide (key = "__proto__")).

(** [objToJson o] is the object as [JSON.stringify] sees it: a property
    whose value is [undefined] is left out. *)
Definition objToJson (o : jsObject) : jsval :=
  JObj (omap (fun '(k, v) => pair k ∘ JStr <$> v) o).

(** ** Equality of values *)

(** [jsval_eqb v1 v2]: the two values are the same. *)
Fixpoint jsval_eqb (v1 v2 : jsval) : bool :=
  match v1, v2 with
  | JNull, JNull => true
  | JBool a, JBool b => bool_decide (a = b)
  | JNum a, JNum b => bool_decide (a = b)
  | JStr a, JStr b => bool_decide (a = b)
  | JArr l1, JArr l2 =>
      (fix go (l1 l2 : list jsval) : bool :=
         match l1, l2 with
         | [], [] => true
         | x :: l1', y :: l2' => jsval_eqb x y && go l1' l2'
         | _, _ => false
         end) l1 l2
  | JObj f1, JObj f2 =>
      (fix go (f1 f2 : list (str * jsval)) : bool :=
         match f1, f2 with
         | [], [] => true
         | (k1, x) :: f1', (k2, y) :: f2' => bool_decide (k1 = k2) && jsval_eqb x y && go f1' f2'
         | _, _ => false
         end) f1 f2
  | _, _ => false
  end.

(** ** Induction on values

    The hypothesis of the induction holds of every item of an array and of
    the value of every member of an object. *)
Section jsval_ind.
Variable P : jsval -> Prop.
Hypothesis HNull : P JNull.
Hypothesis HBool : forall b, P (JBool b).
Hypothesis HNum : forall text, P (JNum text).
Hypothesis HStr : forall s, P (JStr s).
Hypothesis HArr : forall items, Forall P items -> P (JArr items).
Hypothesis HObj : forall fields, Forall (fun kv => P kv.2) fields -> P (JObj fields).

Fixpoint jsval_nested_ind (v : jsval) : P v :=
  match v with
  | JNull => HNull
  | JBool b => HBool b
  | JNum text => HNum text
  | JStr s => HStr s
  | JArr items =>
      HArr items ((fix go l : Forall P l :=
                     match l with
                     | [] => Forall_nil_2 P
                     | x :: l' => Forall_cons_2 P x l' (jsval_nested_ind x) (go l')
                     end) items)
  | JObj fields =>
      HObj fields ((fix go l : Forall (fun kv => P kv.2) l :=
                      match l with
                      | [] => Forall_nil_2 _
                      | kv :: l' => Forall_cons_2 _ kv l' (jsval_nested_ind kv.2) (go l')
                      end) fields)
  end.
End jsval_ind.

(** ** Examples *)

Example toStr_array :
  toStr (JArr [JNum "1"; JNull; JArr [JStr "a"; JBool true]; JObj []])
  = Ok "1,,a,true,[object Object]".
Proof. reflexivity. Qed.

Example jsonStringify_example :
  jsonStringify (JObj [("message", JStr "ok"); ("n", JArr [JNum "1"; JNull])])
  = "{" ++ [dquote] ++ "message" ++ [dquote] ++ ":" ++ [dquote] ++ "ok" ++ [dquote]
    ++ "," ++ [dquote] ++ "n" ++ [dquote] ++ ":[1,null]}".
Proof. reflexivity. Qed.

(** ** Lemmas *)

Lemma assoc_Some_elem_of {A : Type} (key : str) (fields : list (str * A)) (v : A) :
  assoc key fields = Some v -> (key, v) ∈ fields.
Proof.
  induction fields as [|[k w] fields IH]; simpl; [done|].
  case_bool_decide; [intros [= ->]; subst; left|right; auto].
Qed.

Lemma assoc_None {A : Type} (key : str) (fields : list (str * A)) :
  assoc key fields = None <-> key ∉ fields.*1.
Proof.
  induction fields as [|[k w] fields IH]; simpl.
  - split; [intros _; apply not_elem_of_nil|done].
  - rewrite not_elem_of_cons. case_bool_decide; naive_solver.
Qed.

(** A string is truthy exactly when it is not empty: the test
    [!token.access_token] alone refuses the empty token. *)
Lemma truthy_JStr (s : str) : truthy (Some (JStr s)) = true <-> s <> "".
Proof. simpl. rewrite negb_true_iff, bool_decide_eq_false. done. Qed.

(** Reading a property of a string gives [undefined]: a string has no
    property [legnth]. *)
Lemma getProp_JStr (s name : str) : getProp (Some (JStr s)) name = Ok None.
Proof. done. Qed.

(** Setting a property that the object does not have adds it at the end. *)
Lemma objSet_fresh (o : jsObject) (key : str) (v : option str) :
  key ∉ o.*1 -> objSet o key v = o ++ [(key, v)].
Proof.
  induction o as [|[k w] o IH]; simpl; [done|]. rewrite not_elem_of_cons.
  intros [Hk Ho]. rewrite bool_decide_eq_false_2 by done. by rewrite IH.
Qed.

(** Setting a property keeps the keys in place and adds a new key at the
    end. *)
Lemma objSet_keys (o : jsObject) (key : str) (v : option str) :
  (objSet o key v).*1 = if bool_decide (key ∈ o.*1) then o.*1 else o.*1 ++ [key].
Proof.
  induction o as [|[k w] o IH]; csimpl; [done|].
  destruct (decide (k = key)) as [->|Hne].
  - rewrite !bool_decide_eq_true_2; [done|apply elem_of_cons; by left|done].
  - rewrite (bool_decide_eq_false_2 (k = key)) by done. csimpl. rewrite IH.
    destruct (decide (key ∈ o.*1)) as [Hin|Hin].
    + rewrite !bool_decide_eq_true_2; [done|apply elem_of_cons; by right|done].
    + rewrite !bool_decide_eq_false_2; [done| |done].
      rewrite not_elem_of_cons. naive_solver.
Qed.

(** Reading a property after writing it gives the value written, whether
    the object had the property or not. *)
Lemma objSet_lookup (o : jsObject) (key : str) (v : option str) :
  assoc key (objSet o key v) = Some v.
Proof.
  induction o as [|[k w] o IH]; simpl.
  - by rewrite bool_decide_eq_true_2.
  - case_bool_decide as Hk; simpl; [by rewrite bool_decide_eq_true_2|].
    by rewrite bool_decide_eq_false_2.
Qed.

Lemma objSet_lookup_ne (o : jsObject) (key key' : str) (v : option str) :
  key <> key' -> assoc key' (objSet o key v) = assoc key' o.
Proof.
  intros Hne. induction o as [|[k w] o IH]; simpl.
  - by rewrite bool_decide_eq_false_2.
  - case_bool_decide as Hk; simpl; [subst; by rewrite !bool_decide_eq_false_2|].
    by rewrite IH.
Qed.

(** ** Equality of values is decidable *)

Lemma jsval_eqb_eq (v1 v2 : jsval) : jsval_eqb v1 v2 = true <-> v1 = v2.
Proof.
  revert v2. induction v1 as [|a|a|a|l1 IH|f1 IH] using jsval_nested_ind;
    intros [|b|b|b|l2|f2]; cbn [jsval_eqb]; try (split; [done|intros [=]]);
    try (rewrite bool_decide_eq_true; split; congruence); [done| |].
  - revert l2. induction IH as [|x l1 Hx _ IHl]; intros [|y l2]; try (split; [done|intros [=]]); [done|].
    rewrite andb_true_iff, Hx, IHl. split; [by intros [-> [= ->]]|by intros [= -> ->]].
  - revert f2. induction IH as [|[k1 x] f1 Hx _ IHl]; intros [|[k2 y] f2];
      try (split; [done|intros [=]]); [done|].
    simpl in Hx. rewrite !andb_true_iff, bool_decide_eq_true, Hx, IHl.
    split; [by intros [[-> ->] [= ->]]|by intros [= -> -> ->]].
Qed.

#[export] Instance jsval_eq_dec : EqDecision jsval.
Proof.
  refine (fun v1 v2 => cast_if (decide (jsval_eqb v1 v2 = true))); by rewrite <- jsval_eqb_eq.
Defined.
