(* ===== verification/Json.v ===== *)
(** * Json: a reader for the grammar of JSON, and what [JSON.stringify] prints

    The action sends the text of [JSON.stringify(body)] (lines 37 and 50
    of [src/index.js]).  This file holds a reader for the grammar of JSON
    (white space, the three words, number literals, string literals with
    their escapes, arrays and objects) and proves that the text that
    [jsonStringify] prints reads back as the value that was printed:
    the quotes, backslashes and control characters of a value never end
    a string or add a member.  The reader keeps a number as the text of
    its literal and the members of an object as they are written, and
    it refuses an escape [\u] of a code unit above 255, which the strings
    of this library do not hold. *)

From Stdlib Require Import Ascii String Arith Lia.
From stdpp Require Import base tactics option list.
From S2P Require Import Prelude JsString JsValue.

#[local] Open Scope str_scope.

(** ** White space *)

(** [isWs c]: the four characters of white space of the grammar (space,
    tab, line feed, carriage return). *)
Definition isWs (c : ascii) : bool :=
  let n := nat_of_ascii c in (n =? 32) || (n =? 9) || (n =? 10) || (n =? 13).

(** [skipWs s] is [s] without the white space at its start. *)
Fixpoint skipWs (s : str) : str :=
  match s with
  | c :: s' => if isWs c then skipWs s' else s
  | [] => []
  end.

(** [nextIs c s]: the text after the character [c], when [c] is the
    first character of [s] after the white space. *)
Definition nextIs (c : ascii) (s : str) : option str :=
  match skipWs s with
  | d :: r => if bool_decide (d = c) then Some r else None
  | [] => None
  end.

(** ** String literals *)

(** [hexValue c] is the value of a hexadecimal digit, in either case. *)
Definition hexValue (c : ascii) : option nat :=
  let n := nat_of_ascii c in
  if isDigit c then Some (n - 48)
  else if (97 <=? n) && (n <=? 102) then Some (n - 87)
  else if (65 <=? n) && (n <=? 70) then Some (n - 55)
  else None.

(** [unescape e] is the character that the escape [\e] stands for. *)
Definition unescape (e : ascii) : option ascii :=
  if bool_decide (e = dquote) then Some dquote
  else if bool_decide (e = "\"%char) then Some "\"%char
  else if bool_decide (e = "/"%char) then Some "/"%char
  else if bool_decide (e = "b"%char) then Some (ascii_of_nat 8)
  else if bool_decide (e = "f"%char) then Some (ascii_of_nat 12)
  else if bool_decide (e = "n"%char) then Some (ascii_of_nat 10)
  else if bool_decide (e = "r"%char) then Some (ascii_of_nat 13)
  else if bool_decide (e = "t"%char) then Some (ascii_of_nat 9)
  else None.

(** [codeUnit h1 h2 h3 h4] is the code unit of the escape [\uh1h2h3h4],
    when it is below 256: the strings of the model hold no other. *)
Definition codeUnit (h1 h2 h3 h4 : ascii) : option ascii :=
  a ← hexValue h1; b ← hexValue h2; c ← hexValue h3; d ← hexValue h4;
  if (a =? 0) && (b =? 0) then Some (ascii_of_nat (16 * c + d)) else None.

(** [readChars s] reads the characters of a string literal after its
    opening quote, up to the closing quote: the text of the literal and
    what follows it.  A control character that is not escaped, an unknown
    escape and a literal that is not closed are errors. *)
Fixpoint readChars (s : str) : option (str * str) :=
  match s with
  | [] => None
  | c :: s' =>
      if bool_decide (c = dquote) then Some ([], s')
      else if bool_decide (c = "\"%char) then
        match s' with
        | e :: s'' =>
            if bool_decide (e = "u"%char) then
              match s'' with
              | h1 :: h2 :: h3 :: h4 :: s3 =>
                  d ← codeUnit h1 h2 h3 h4;
                  '(t, r) ← readChars s3;
                  Some (d :: t, r)
              | _ => None
              end
            else
              d ← unescape e;
              '(t, r) ← readChars s'';
              Some (d :: t, r)
        | [] => None
        end
      else if nat_of_ascii c <? 32 then None
      else '(t, r) ← readChars s'; Some (c :: t, r)
  end.

(** ** Number literals *)

(** The states of the automaton of a number literal (an optional minus;
    a zero, or a digit from 1 to 9 and digits; an optional dot and
    digits; an optional [e] or [E], an optional sign and digits): what
    has been read so far. *)
Inductive numState : Type :=
| NStart | NMinus | NZero | NInt | NDot | NFrac | NExp | NExpSign | NExpDigits.

(** The mark of an exponent. *)
Definition isExpMark (c : ascii) : bool :=
  bool_decide (c = "e"%char) || bool_decide (c = "E"%char).

(** The sign of an exponent. *)
Definition isSign (c : ascii) : bool :=
  bool_decide (c = "+"%char) || bool_decide (c = "-"%char).

(** [numStep st c] is the state after the character [c], when the
    grammar lets [c] follow what has been read. *)
Definition numStep (st : numState) (c : ascii) : option numState :=
  match st with
  | NStart =>
      if bool_decide (c = "-"%char) then Some NMinus
      else if bool_decide (c = "0"%char) then Some NZero
      else if isDigit c then Some NInt else None
  | NMinus =>
      if bool_decide (c = "0"%char) then Some NZero
      else if isDigit c then Some NInt else None
  | NZero =>
      if bool_decide (c = "."%char) then Some NDot
      else if isExpMark c then Some NExp else None
  | NInt =>
      if isDigit c then Some NInt
      else if bool_decide (c = "."%char) then Some NDot
      else if isExpMark c then Some NExp else None
  | NDot => if isDigit c then Some NFrac else None
  | NFrac =>
      if isDigit c then Some NFrac
      else if isExpMark c then Some NExp else None
  | NExp =>
      if isSign c then Some NExpSign
      else if isDigit c then Some NExpDigits else None
  | NExpSign => if isDigit c then Some NExpDigits else None
  | NExpDigits => if isDigit c then Some NExpDigits else None
  end.

(** [accepting st]: what has been read is a number literal. *)
Definition accepting (st : numState) : bool :=
  match st with
  | NZero | NInt | NFrac | NExpDigits => true
  | _ => false
  end.

(** [scanNumber st s] reads the longest number literal at the start of
    [s], from the state [st]: the characters read and what follows
    them. *)
Fixpoint scanNumber (st : numState) (s : str) : option (str * str) :=
  match s with
  | [] => if accepting st then Some ([], []) else None
  | c :: s' =>
      match numStep st c with
      | Some st' => '(t, r) ← scanNumber st' s'; Some (c :: t, r)
      | None => if accepting st then Some ([], s) else None
      end
  end.

(** [numberLiteral text]: the whole of [text] is a number literal. *)
Definition numberLiteral (text : str) : bool :=
  bool_decide (scanNumber NStart text = Some (text, [])).

(** [numChar c]: [c] can stand in a number literal. *)
Definition numChar (c : ascii) : bool :=
  isDigit c || bool_decide (c = "."%char) || isExpMark c || isSign c.

(** [delimited rest]: no number literal goes on into [rest]. *)
Definition delimited (rest : str) : Prop :=
  match rest with
  | [] => True
  | c :: _ => numChar c = false
  end.

(** ** Values *)

(** [readLiteral lit v s] reads the word [lit] at the start of [s], for
    the value [v]. *)
Definition readLiteral (lit : str) (v : jsval) (s : str) : option (jsval * str) :=
  if isPrefixOf lit s then Some (v, drop (length lit) s) else None.

(** [readValue fuel s] reads one value at the start of [s], after white
    space: the value and what follows it.  [readItems] reads the items
    of an array after its bracket, up to the closing bracket, and
    [readFields] the members of an object.  A number is kept as the text
    of its literal, and the members of an object in the order of the
    text.  Each value, item and member takes one unit of [fuel]. *)
Fixpoint readValue (fuel : nat) (s : str) : option (jsval * str) :=
  match fuel with
  | 0 => None
  | S fuel =>
      match skipWs s with
      | [] => None
      | c :: r =>
          if bool_decide (c = "n"%char) then readLiteral "null" JNull (c :: r)
          else if bool_decide (c = "t"%char) then readLiteral "true" (JBool true) (c :: r)
          else if bool_decide (c = "f"%char) then readLiteral "false" (JBool false) (c :: r)
          else if bool_decide (c = dquote) then '(t, r') ← readChars r; Some (JStr t, r')
          else if bool_decide (c = "["%char) then
            match nextIs "]" r with
            | Some r' => Some (JArr [], r')
            | None => '(items, r') ← readItems fuel r; Some (JArr items, r')
            end
          else if bool_decide (c = "{"%char) then
            match nextIs "}" r with
            | Some r' => Some (JObj [], r')
            | None => '(fields, r') ← readFields fuel r; Some (JObj fields, r')
            end
          else '(text, r') ← scanNumber NStart (c :: r); Some (JNum text, r')
      end
  end
with readItems (fuel : nat) (s : str) : option (list jsval * str) :=
  match fuel with
  | 0 => None
  | S fuel =>
      '(v, r) ← readValue fuel s;
      match nextIs "," r with
      | Some r' => '(items, r'') ← readItems fuel r'; Some (v :: items, r'')
      | None => r' ← nextIs "]" r; Some ([v], r')
      end
  end
with readFields (fuel : nat) (s : str) : option (list (str * jsval) * str) :=
  match fuel with
  | 0 => None
  | S fuel =>
      r0 ← nextIs dquote s;
      '(k, r1) ← readChars r0;
      r2 ← nextIs ":" r1;
      '(v, r3) ← readValue fuel r2;
      match nextIs "," r3 with
      | Some r4 => '(fields, r5) ← readFields fuel r4; Some ((k, v) :: fields, r5)
      | None => r4 ← nextIs "}" r3; Some ([(k, v)], r4)
      end
  end.

(** [jsonRead s] reads [s] as one value with white space around it:
    the fuel is the length of the text. *)
Definition jsonRead (s : str) : option jsval :=
  '(v, r) ← readValue (length s) s;
  match skipWs r with
  | [] => Some v
  | _ => None
  end.

(** ** The values that are printed as they are *)

(** [literalNumbers v]: every number of [v] is the text of a number
    literal, as the canonical text of every finite number is. *)
Fixpoint literalNumbers (v : jsval) : bool :=
  match v with
  | JNum text => numberLiteral text
  | JArr items => forallb literalNumbers items
  | JObj fields => forallb (fun kv => literalNumbers kv.2) fields
  | _ => true
  end.

(** [weight v] is fuel enough to read the text of [v]: one unit for each
    value, item and member. *)
Fixpoint weight (v : jsval) : nat :=
  match v with
  | JArr items => S (sum_list_with (fun x => S (weight x)) items)
  | JObj fields => S (sum_list_with (fun kv => S (weight kv.2)) fields)
  | _ => 1
  end.

(** [memberText (k, v)] is the text of one member of an object. *)
Definition memberText (kv : str * jsval) : str :=
  quoteJSONString kv.1 ++ ":" ++ jsonStringify kv.2.

(** [valueStart c]: [c] can be the first character of a value. *)
Definition valueStart (c : ascii) : bool :=
  isDigit c || bool_decide (c ∈ ["-"; "n"; "t"; "f"; dquote; "["; "{"]%char).

(** What reading a printed value takes: the hypothesis of the induction. *)
Definition readsBack (v : jsval) : Prop :=
  literalNumbers v = true ->
  forall fuel rest, weight v <= fuel -> delimited rest ->
  readValue fuel (jsonStringify v ++ rest) = Some (v, rest).

(** ** Examples *)

Example jsonRead_example :
  jsonRead ("{ " ++ [dquote] ++ "a\u0041\n" ++ [dquote] ++ " : [1, -2.5e+3, true, null, {}] }")
  = Some (JObj [("aA" ++ [ascii_of_nat 10], JArr [JNum "1"; JNum "-2.5e+3"; JBool true; JNull; JObj []])]).
Proof. reflexivity. Qed.

(** A zero before a digit, a comma before the bracket, a dot without a
    digit, a key without quotes, a word cut short, the empty text and a
    line feed inside a string are errors. *)
Example jsonRead_errors :
  jsonRead "01" = None /\ jsonRead "[1,]" = None /\ jsonRead "1." = None
  /\ jsonRead "{a:1}" = None /\ jsonRead "nul" = None /\ jsonRead "" = None
  /\ jsonRead ([dquote; ascii_of_nat 10; dquote]) = None.
Proof. by vm_compute. Qed.

(** A value with a quote, a backslash and a control character in a string. *)
Example jsonRead_stringify_example :
  let v := JObj [("api_key", JStr ("a" ++ [dquote] ++ ",\" ++ [ascii_of_nat 1; dquote] ++ "x"))] in
  jsonRead (jsonStringify v) = Some v.
Proof. reflexivity. Qed.

(** ** White space *)

Lemma skipWs_head (c : ascii) (s : str) : isWs c = false -> skipWs (c :: s) = c :: s.
Proof. intros Hc. simpl. by rewrite Hc. Qed.

Lemma skipWs_app (ws s : str) : forallb isWs ws = true -> skipWs (ws ++ s) = skipWs s.
Proof.
  induction ws as [|c ws IH]; [done|]. simpl. intros [-> Hws]%andb_true_iff. auto.
Qed.

Lemma skipWs_all (ws : str) : forallb isWs ws = true -> skipWs ws = [].
Proof. intros Hws. rewrite <- (app_nil_r ws). by rewrite skipWs_app. Qed.

Lemma nextIs_head (c : ascii) (s : str) : isWs c = false -> nextIs c (c :: s) = Some s.
Proof. intros Hc. unfold nextIs. by rewrite skipWs_head, bool_decide_eq_true_2. Qed.

Lemma nextIs_other (c d : ascii) (s : str) :
  isWs d = false -> d <> c -> nextIs c (d :: s) = None.
Proof. intros Hd Hdc. unfold nextIs. by rewrite skipWs_head, bool_decide_eq_false_2. Qed.

(** ** String literals *)

(** One printed character reads as the character. *)
Lemma readChars_quoteJSONChar (c : ascii) (s : str) :
  readChars (quoteJSONChar c ++ s) = '(t, r) ← readChars s; Some (c :: t, r).
Proof. destruct c as [[] [] [] [] [] [] [] []]; reflexivity. Qed.

(** The characters that [quoteJSONString] prints, up to the closing
    quote, read as the string. *)
Lemma readChars_quote (s rest : str) :
  readChars (flat_map quoteJSONChar s ++ dquote :: rest) = Some (s, rest).
Proof.
  induction s as [|c s IH]; [done|].
  cbn [flat_map]. rewrite <- (assoc_L (++)), readChars_quoteJSONChar, IH. done.
Qed.

(** ** Number literals *)

Lemma numStep_numChar (st st' : numState) (c : ascii) :
  numStep st c = Some st' -> numChar c = true.
Proof.
  unfold numChar. intros Hst.
  destruct st; simpl in Hst; repeat case_match; simplify_eq;
    repeat match goal with
      | H : bool_decide _ = true |- _ => apply bool_decide_eq_true in H; subst
      | H : _ = true |- _ => rewrite H
      end; by rewrite ?orb_true_r.
Qed.

(** A literal is read to its end when what follows cannot go on with it. *)
Lemma scanNumber_app (st : numState) (text rest : str) :
  scanNumber st text = Some (text, []) -> delimited rest ->
  scanNumber st (text ++ rest) = Some (text, rest).
Proof.
  intros Ht Hrest. revert st Ht. induction text as [|c text IH]; intros st; simpl.
  - destruct (accepting st) eqn:Hst; [intros _|done]. destruct rest as [|c rest]; simpl; [by rewrite Hst|].
    destruct (numStep st c) as [st'|] eqn:Hc; [|by rewrite Hst].
    apply numStep_numChar in Hc. simpl in Hrest. congruence.
  - destruct (numStep st c) as [st'|]; [|by destruct (accepting st)].
    destruct (scanNumber st' text) as [[t r]|] eqn:Ht; [|done].
    intros [= -> ->]. by rewrite (IH st').
Qed.

(** What the automaton reads is a literal, and the start of the text. *)
Lemma scanNumber_literal (st : numState) (s text r : str) :
  scanNumber st s = Some (text, r) -> scanNumber st text = Some (text, []) /\ s = text ++ r.
Proof.
  revert st text r. induction s as [|c s IH]; intros st text r; simpl.
  - destruct (accepting st) eqn:Hst; intros [= <- <-]; simpl; by rewrite ?Hst.
  - destruct (numStep st c) as [st'|] eqn:Hc.
    + destruct (scanNumber st' s) as [[t r']|] eqn:Hs; intros [= <- <-].
      apply IH in Hs as [Ht ->]. simpl. by rewrite Hc, Ht.
    + destruct (accepting st) eqn:Hst; intros [= <- <-]. simpl. by rewrite Hst.
Qed.

(** A number literal starts with a digit or the sign. *)
Lemma numberLiteral_head (text : str) :
  numberLiteral text = true ->
  exists c t, text = c :: t /\ (isDigit c = true \/ c = "-"%char).
Proof.
  intros Ht%bool_decide_eq_true. destruct text as [|c t]; [done|]. exists c, t. split; [done|].
  cbn [scanNumber] in Ht. destruct (numStep NStart c) as [st|] eqn:Hc; [clear Ht|done].
  simpl in Hc. repeat case_bool_decide; subst; auto. destruct (isDigit c); [auto|done].
Qed.

(** A number literal is printed as it is: it is not the text of a number
    that is not finite. *)
Lemma numberLiteral_stringify (text : str) :
  numberLiteral text = true -> jsonStringify (JNum text) = text.
Proof.
  intros Ht. cbn [jsonStringify]. by repeat (case_bool_decide; [by subst|]).
Qed.

(** ** The text of a value *)

Lemma jsonStringify_JArr (items : list jsval) :
  jsonStringify (JArr items) = "[" ++ strJoin ","%char (jsonStringify <$> items) ++ "]".
Proof.
  cbn [jsonStringify]. do 2 f_equal.
  induction items as [|x [|y l] IH]; [done|done|].
  rewrite fmap_cons, strJoin_cons by done. by rewrite <- IH.
Qed.

Lemma jsonStringify_JObj (fields : list (str * jsval)) :
  jsonStringify (JObj fields) = "{" ++ strJoin ","%char (memberText <$> fields) ++ "}".
Proof.
  cbn [jsonStringify]. do 2 f_equal.
  induction fields as [|[k x] [|y l] IH]; [done|done|].
  rewrite fmap_cons, strJoin_cons by done. rewrite <- IH. unfold memberText. simpl.
  by rewrite <- !(assoc_L (++)).
Qed.

Lemma jsonStringify_start (v : jsval) :
  literalNumbers v = true -> exists c t, jsonStringify v = c :: t /\ valueStart c = true.
Proof.
  destruct v as [|[]|text|s|items|fields]; intros Hv; try by eexists _, _.
  rewrite numberLiteral_stringify by done.
    destruct (numberLiteral_head text Hv) as (c & t & -> & Hc). exists c, t. split; [done|].
    destruct Hc as [Hc| ->]; [|done]. unfold valueStart. by rewrite Hc.
Qed.

Lemma valueStart_isWs (c : ascii) : valueStart c = true -> isWs c = false.
Proof. destruct c as [[] [] [] [] [] [] [] []]; by vm_compute. Qed.

Lemma nextIs_stringify (c : ascii) (v : jsval) (rest : str) :
  literalNumbers v = true -> valueStart c = false ->
  nextIs c (jsonStringify v ++ rest) = None.
Proof.
  intros (d & t & -> & Hd)%jsonStringify_start Hc.
  apply nextIs_other; [by apply valueStart_isWs|congruence].
Qed.

(** The fuel that reading takes is at most the length of the text. *)
Lemma weight_length (v : jsval) :
  literalNumbers v = true -> weight v <= length (jsonStringify v).
Proof.
  induction v as [|b|text|s|items IH|fields IH] using jsval_nested_ind; intros Hv;
    try (destruct (jsonStringify_start _ Hv) as (c & t & -> & _); simpl; lia).
  - rewrite jsonStringify_JArr. cbn [weight app length]. rewrite length_app. cbn [length].
    pose proof (length_strJoin ","%char (jsonStringify <$> items)) as Hlen.
    rewrite sum_list_with_fmap in Hlen.
    enough (sum_list_with (fun x => S (weight x)) items
            <= sum_list_with ((fun p => S (length p)) ∘ jsonStringify) items) by lia.
    apply sum_list_with_mono. apply forallb_Forall in Hv.
    eapply Forall_impl; [apply Forall_and; split; [exact IH|exact Hv]|].
    intros x [Hx Hvx]. simpl. specialize (Hx Hvx). lia.
  - rewrite jsonStringify_JObj. cbn [weight app length]. rewrite length_app. cbn [length].
    pose proof (length_strJoin ","%char (memberText <$> fields)) as Hlen.
    rewrite sum_list_with_fmap in Hlen.
    enough (sum_list_with (fun kv => S (weight kv.2)) fields
            <= sum_list_with ((fun p => S (length p)) ∘ memberText) fields) by lia.
    apply sum_list_with_mono. apply forallb_Forall in Hv.
    eapply Forall_impl; [apply Forall_and; split; [exact IH|exact Hv]|].
    intros [k x] [Hx Hvx]. simpl in *. specialize (Hx Hvx).
    unfold memberText. rewrite !length_app. simpl. lia.
Qed.

(** ** Reading what was printed *)

Lemma readValue_JNum (fuel : nat) (text rest : str) :
  numberLiteral text = true -> delimited rest ->
  readValue (S fuel) (text ++ rest) = Some (JNum text, rest).
Proof.
  intros Ht Hrest. destruct (numberLiteral_head text Ht) as (c & t & -> & Hc).
  apply bool_decide_eq_true in Ht. cbn [readValue app]. rewrite skipWs_head.
  - repeat (case_bool_decide as E; [by destruct Hc as [Hc| ->]; [rewrite E in Hc|]|clear E]).
    change (c :: t ++ rest) with ((c :: t) ++ rest). rewrite (scanNumber_app _ _ rest Ht Hrest). done.
  - destruct Hc as [Hc| ->]; [|done]. unfold isDigit in Hc. unfold isWs.
    apply andb_true_iff in Hc as [H1%Nat.leb_le H2%Nat.leb_le].
    rewrite !orb_false_iff, !Nat.eqb_neq. lia.
Qed.

Lemma readItems_stringify (items : list jsval) :
  Forall readsBack items -> forallb literalNumbers items = true -> items <> [] ->
  forall fuel rest, sum_list_with (fun x => S (weight x)) items <= fuel ->
  readItems fuel (strJoin ","%char (jsonStringify <$> items) ++ "]"%char :: rest) = Some (items, rest).
Proof.
  induction 1 as [|x l Hx _ IH]; [by intros _ []|]. intros Hl _ fuel rest Hfuel.
  cbn [forallb] in Hl. apply andb_true_iff in Hl as [Hvx Hl].
  cbn [sum_list_with] in Hfuel.
  destruct fuel as [|fuel]; [lia|]. cbn [readItems].
  rewrite fmap_cons, strJoin_cons_after. destruct l as [|y l].
  - cbn [fmap list_fmap joinAfter concat]. rewrite app_nil_r.
    rewrite Hx by (done || lia). cbn [mbind option_bind app].
    by rewrite nextIs_other, nextIs_head.
  - rewrite fmap_cons. unfold joinAfter. cbn [fmap list_fmap concat].
    rewrite <- !(assoc_L (++)). rewrite Hx by (done || lia). cbn [mbind option_bind app].
    rewrite nextIs_head by done. fold (joinAfter ","%char (jsonStringify <$> l)).
    rewrite (assoc_L (++)), <- strJoin_cons_after, <- fmap_cons.
    rewrite IH by (done || lia). done.
Qed.

Lemma readFields_stringify (fields : list (str * jsval)) :
  Forall (fun kv => readsBack kv.2) fields ->
  forallb (fun kv => literalNumbers kv.2) fields = true -> fields <> [] ->
  forall fuel rest, sum_list_with (fun kv => S (weight kv.2)) fields <= fuel ->
  readFields fuel (strJoin ","%char (memberText <$> fields) ++ "}"%char :: rest)
  = Some (fields, rest).
Proof.
  induction 1 as [|[k x] l Hx _ IH]; [by intros _ []|]. intros Hl _ fuel rest Hfuel.
  cbn [forallb] in Hl. apply andb_true_iff in Hl as [Hvx Hl].
  cbn [sum_list_with] in Hfuel. simpl in Hx, Hvx, Hfuel.
  destruct fuel as [|fuel]; [lia|]. cbn [readFields].
  rewrite fmap_cons, strJoin_cons_after. unfold memberText at 1, quoteJSONString. simpl fst. simpl snd.
  cbn [app]. rewrite nextIs_head by done. cbn [mbind option_bind].
  rewrite <- !(assoc_L (++)). cbn [app]. rewrite readChars_quote. cbn [mbind option_bind].
  rewrite nextIs_head by done. cbn [mbind option_bind].
  destruct l as [|y l].
  - cbn [fmap list_fmap joinAfter concat app]. rewrite Hx by (done || lia).
    cbn [mbind option_bind]. by rewrite nextIs_other, nextIs_head.
  - rewrite fmap_cons. unfold joinAfter. cbn [fmap list_fmap concat].
    rewrite <- !(assoc_L (++)). rewrite Hx by (done || lia). cbn [mbind option_bind app].
    rewrite nextIs_head by done. fold (joinAfter ","%char (memberText <$> l)).
    rewrite (assoc_L (++)), <- strJoin_cons_after, <- fmap_cons.
    rewrite IH by (done || lia). done.
Qed.

(** Reading the text of a value, with fuel enough and before a text that
    does not go on with a number, gives the value and what follows. *)
Lemma readValue_stringify (v : jsval) : readsBack v.
Proof.
  induction v as [|b|text|s|items IH|fields IH] using jsval_nested_ind;
    intros Hv [|fuel] rest Hfuel Hrest; try (simpl in Hfuel; lia).
  - done.
  - by destruct b.
  - rewrite numberLiteral_stringify by done. by apply readValue_JNum.
  - cbn [jsonStringify readValue]. unfold quoteJSONString. cbn [app].
    rewrite skipWs_head by done. simpl bool_decide. cbn match.
    rewrite <- (assoc_L (++)). cbn [app]. by rewrite readChars_quote.
  - rewrite jsonStringify_JArr. destruct items as [|x l]; [done|].
    cbn [readValue app]. rewrite skipWs_head by done. simpl bool_decide. cbn match.
    rewrite <- (assoc_L (++)). cbn [app].
    rewrite (readItems_stringify (x :: l) IH Hv) by (done || simpl in *; lia).
    simpl in Hv. apply andb_true_iff in Hv as [Hx _].
    rewrite fmap_cons, strJoin_cons_after, <- (assoc_L (++)).
    by rewrite nextIs_stringify.
  - rewrite jsonStringify_JObj. destruct fields as [|[k x] l]; [done|].
    cbn [readValue app]. rewrite skipWs_head by done. simpl bool_decide. cbn match.
    rewrite <- (assoc_L (++)). cbn [app].
    rewrite (readFields_stringify ((k, x) :: l) IH Hv) by (done || simpl in *; lia).
    rewrite fmap_cons, strJoin_cons_after, <- (assoc_L (++)).
    unfold memberText at 1, quoteJSONString. cbn [app]. by rewrite nextIs_other.
Qed.

(** White space before a value is skipped, and white space ends a number. *)
Lemma readValue_skipWs (fuel : nat) (ws s : str) :
  forallb isWs ws = true -> readValue fuel (ws ++ s) = readValue fuel s.
Proof. intros Hws. destruct fuel; [done|]. cbn [readValue]. by rewrite skipWs_app. Qed.

Lemma delimited_isWs (ws : str) : forallb isWs ws = true -> delimited ws.
Proof.
  destruct ws as [|c ws]; [done|]. simpl. intros [Hc _]%andb_true_iff. revert Hc.
  destruct c as [[] [] [] [] [] [] [] []]; by vm_compute.
Qed.

(** The text of a value reads as the value. *)
Lemma jsonRead_printed (v : jsval) :
  literalNumbers v = true -> jsonRead (jsonStringify v) = Some v.
Proof.
  intros Hv. unfold jsonRead.
  rewrite <- (app_nil_r (jsonStringify v)) at 2.
  by rewrite readValue_stringify; [|done|apply weight_length|].
Qed.

(** C30. Round trip of [JSON.stringify]: the text of a value whose
    numbers are number literals, with any white space before and after
    it, reads as the value, whatever quotes, backslashes and control
    characters its strings and keys hold. *)
Theorem jsonRead_stringify (v : jsval) (before after : str) :
  literalNumbers v = true -> forallb isWs before = true -> forallb isWs after = true ->
  jsonRead (before ++ jsonStringify v ++ after) = Some v.
Proof.
  intros Hv Hb Ha. unfold jsonRead. rewrite readValue_skipWs by done.
  rewrite readValue_stringify; [|done|..].
  - cbn [mbind option_bind]. by rewrite skipWs_all.
  - pose proof (weight_length v Hv). rewrite !length_app. lia.
  - by apply delimited_isWs.
Qed.

(** Two values with the same text are the same value. *)
Lemma jsonStringify_inj (v1 v2 : jsval) :
  literalNumbers v1 = true -> literalNumbers v2 = true ->
  jsonStringify v1 = jsonStringify v2 -> v1 = v2.
Proof.
  intros H1%jsonRead_printed H2%jsonRead_printed E. rewrite E in H1. congruence.
Qed.

(** The body of a request holds strings only. *)
Lemma literalNumbers_objToJson (o : jsObject) : literalNumbers (objToJson o) = true.
Proof.
  unfold objToJson. cbn [literalNumbers].
  induction o as [|[k [w|]] o IH]; [done|..]; by cbn.
Qed.

(** The text of the body of a request reads as the body. *)
Lemma jsonRead_objToJson (o : jsObject) :
  jsonRead (jsonStringify (objToJson o)) = Some (objToJson o).
Proof. apply jsonRead_printed, literalNumbers_objToJson. Qed.

(** ** What the reader gives *)

Lemma readLiteral_Some (lit : str) (v w : jsval) (s r : str) :
  readLiteral lit v s = Some (w, r) -> w = v.
Proof. unfold readLiteral. case_match; [|done]. by intros [= <- _]. Qed.

Lemma readValue_literalNumbers (fuel : nat) :
  (forall s v r, readValue fuel s = Some (v, r) -> literalNumbers v = true)
  /\ (forall s items r, readItems fuel s = Some (items, r) -> forallb literalNumbers items = true)
  /\ (forall s fields r, readFields fuel s = Some (fields, r) ->
        forallb (fun kv => literalNumbers kv.2) fields = true).
Proof.
  induction fuel as [|fuel (IHv & IHi & IHf)]; [done|]. split_and!.
  - intros s v r. cbn [readValue]. destruct (skipWs s) as [|c s']; [done|].
    repeat case_bool_decide; try by intros ->%readLiteral_Some.
    + destruct (readChars s') as [[t r']|]; [|done]. by intros [= <- _].
    + destruct (nextIs _ s'); [by intros [= <- _]|].
      destruct (readItems fuel s') as [[items r']|] eqn:Hi; [|done].
      intros [= <- _]. by apply IHi in Hi.
    + destruct (nextIs _ s'); [by intros [= <- _]|].
      destruct (readFields fuel s') as [[fields r']|] eqn:Hf; [|done].
      intros [= <- _]. by apply IHf in Hf.
    + destruct (scanNumber NStart (c :: s')) as [[text r']|] eqn:Hn; [|done].
      intros [= <- _]. apply scanNumber_literal in Hn as [Hn _]. by apply bool_decide_eq_true.
  - intros s items r. cbn [readItems].
    destruct (readValue fuel s) as [[v r1]|] eqn:Hv; [|done]. apply IHv in Hv.
    cbn [mbind option_bind]. destruct (nextIs "," r1) as [r2|].
    + destruct (readItems fuel r2) as [[l r3]|] eqn:Hi; [|done]. apply IHi in Hi.
      intros [= <- _]. simpl. by rewrite Hv.
    + destruct (nextIs "]" r1); [|done]. intros [= <- _]. simpl. by rewrite Hv.
  - intros s fields r. cbn [readFields].
    destruct (nextIs dquote s) as [r0|]; [|done]. cbn [mbind option_bind].
    destruct (readChars r0) as [[k r1]|]; [|done]. cbn [mbind option_bind].
    destruct (nextIs ":" r1) as [r2|]; [|done]. cbn [mbind option_bind].
    destruct (readValue fuel r2) as [[v r3]|] eqn:Hv; [|done]. apply IHv in Hv.
    cbn [mbind option_bind]. destruct (nextIs "," r3) as [r4|].
    + destruct (readFields fuel r4) as [[l r5]|] eqn:Hf; [|done]. apply IHf in Hf.
      intros [= <- _]. simpl. by rewrite Hv.
    + destruct (nextIs "}" r3); [|done]. intros [= <- _]. simpl. by rewrite Hv.
Qed.

(** Every number of a value that the reader gives is a number literal. *)
Theorem jsonRead_literalNumbers (s : str) (v : jsval) :
  jsonRead s = Some v -> literalNumbers v = true.
Proof.
  unfold jsonRead. destruct (readValue (length s) s) as [[w r]|] eqn:Hw; [|done].
  cbn [mbind option_bind]. case_match; [|done]. intros [= <-].
  by eapply readValue_literalNumbers.
Qed.

(** Printing what was read gives a text that reads as the same value. *)
Lemma jsonRead_normal (s : str) (v : jsval) :
  jsonRead s = Some v -> jsonRead (jsonStringify v) = Some v.
Proof. intros Hv%jsonRead_literalNumbers. by apply jsonRead_printed. Qed.

(** ** The theorems at concrete inputs *)

Lemma jsonRead_stringify_witness :
  jsonRead (" " ++ jsonStringify (JArr [JNum "-1.5e+3"; JStr [dquote]]) ++ " ")
  = Some (JArr [JNum "-1.5e+3"; JStr [dquote]]).
Proof. by apply (jsonRead_stringify (JArr [JNum "-1.5e+3"; JStr [dquote]]) " " " "). Defined.
