(* ===== verification/Decoder.v ===== *)
(** * Decoder: from the operation string to the operation and its parameters

    Lines 89 to 113 of [src/index.js], the first part of [run]: a service
    name such as [php8.0-fpm] holds the separator, so the first match of
    each pattern of [servicesUsingDotRegExps] is replaced by a placeholder
    [$i] before the string is split on the dots, and a piece that holds a
    placeholder is replaced by the text that was set aside. *)

From Stdlib Require Import Ascii String Arith Lia.
From stdpp Require Import base tactics option list.
From S2P Require Import Prelude JsString RegExp Patterns.

#[local] Open Scope str_scope.

(** ** The patterns of the service names *)

(** Line 90: the patterns of the service names that hold a dot. *)
Definition servicesUsingDotRegExps : list regex := [phpFpmRe].

(** ** Protecting the service names (lines 94 to 102) *)

(** The state of the loop: [operationStr] and [serviceStringReplacements]. *)
Abbreviation protectState := (str * jsArray str)%type.

(** The body of the loop for the index [i] and the pattern
    [servicesUsingDotRegExps[i]]. *)
Definition protectStep (i : nat) (serviceRe : regex) (st : protectState) : result protectState :=
  let '(operationStr, serviceStringReplacements) := st in
  if regexTest serviceRe operationStr then
    match strMatch operationStr serviceRe with
    | None => Throw (TypeError (ReadPropertyOfNull "0"))
    | Some servicesUsingDotMatches =>
        Ok (strReplace operationStr (mText servicesUsingDotMatches) ("$" ++ natToString i),
            arraySet serviceStringReplacements i (mText servicesUsingDotMatches))
    end
  else Ok st.

(** The loop over the patterns from the index [i] on. *)
Fixpoint protectLoop (i : nat) (res : list regex) (st : protectState) : result protectState :=
  match res with
  | [] => Ok st
  | serviceRe :: res' => st' ← protectStep i serviceRe st; protectLoop (S i) res' st'
  end.

(** ** Splitting and restoring (lines 104 to 111) *)

(** The callback of [map]: a piece in which the placeholder pattern
    matches is replaced by [serviceStringReplacements[placeholderMatches[1]]],
    which is [undefined] ([None]) when that slot was never written. *)
Definition restoreArg (serviceStringReplacements : jsArray str) (arg : str) : option str :=
  match strMatch arg placeholderRe with
  | Some placeholderMatches =>
      if 1 <? matchLength placeholderMatches then
        arrayGet serviceStringReplacements
          (toPropertyKey (mjoin (mGroups placeholderMatches !! 0)))
      else Some arg
  | None => Some arg
  end.

(** ** The decoder (lines 89 to 113)

    [decodeOperation operationStr] is the pair of [operation] and
    [operationArgs] after the [shift] of line 113; either may hold
    [undefined] ([None]). *)
Definition decodeOperation (operationStr : str) : result (option str * jsArray str) :=
  '(operationStr', serviceStringReplacements) ←
    protectLoop 0 servicesUsingDotRegExps (operationStr, []);
  let operationArgs :=
    map (restoreArg serviceStringReplacements) (strSplit "." operationStr') in
  Ok (arrayShift operationArgs).

(** [plainPiece x]: [x] holds neither the separator nor a dollar. *)
Definition plainPiece (x : str) : Prop := ("."%char ∉ x) /\ ("$"%char ∉ x).

(** [quietPiece x]: [x] holds no separator and no placeholder. *)
Definition quietPiece (x : str) : Prop :=
  ("."%char ∉ x) /\ regexTest placeholderRe x = false.

(** ** Examples *)

Example decode_cdn_purge :
  decodeOperation "cdn_purge.123" = Ok (Some "cdn_purge", [Some "123"]).
Proof. reflexivity. Qed.

Example decode_service_php :
  decodeOperation "service.php8.0-fpm.restart"
  = Ok (Some "service", [Some "php8.0-fpm"; Some "restart"]).
Proof. reflexivity. Qed.

(** Only the first service name is protected: a second one is split at
    its dot. *)
Example decode_second_name :
  decodeOperation "service.php8.0-fpm.php7.4-fpm"
  = Ok (Some "service", [Some "php8.0-fpm"; Some "php7"; Some "4-fpm"]).
Proof. reflexivity. Qed.

(** A digit after the service name joins the placeholder, and the group
    captures it: the parameter is [undefined]. *)
Example decode_digit_after_name :
  decodeOperation "service.php8.0-fpm5.restart" = Ok (Some "service", [None; Some "restart"]).
Proof. reflexivity. Qed.

(** A piece that holds a service name is replaced by the name alone. *)
Example decode_name_inside_piece :
  decodeOperation "service.my-php8.0-fpm-pool.restart"
  = Ok (Some "service", [Some "php8.0-fpm"; Some "restart"]).
Proof. reflexivity. Qed.

(** A placeholder in the input is replaced like one the loop wrote. *)
Example decode_placeholder_input :
  decodeOperation "service.$0.php8.0-fpm"
  = Ok (Some "service", [Some "php8.0-fpm"; Some "php8.0-fpm"]).
Proof. reflexivity. Qed.

(** The empty string, a string of dots, a dot at an end: every piece is
    kept, the empty ones too. *)
Example decode_boundaries :
  decodeOperation "" = Ok (Some "", [])
  /\ decodeOperation "." = Ok (Some "", [Some ""])
  /\ decodeOperation "varnish." = Ok (Some "varnish", [Some ""])
  /\ decodeOperation ".purge" = Ok (Some "", [Some "purge"])
  /\ decodeOperation "php8.0-fpm" = Ok (Some "php8.0-fpm", [])
  /\ decodeOperation "$0" = Ok (None, []).
Proof. by vm_compute. Qed.

(** The slot of the eleventh pattern is never read: its placeholder reads
    the slot 0. *)
Example restore_eleventh :
  restoreArg (arraySet [] 10 "php8.0-fpm") "$10" = None
  /\ restoreArg (arraySet [Some "varnish"] 10 "php8.0-fpm") "$10" = Some "varnish".
Proof. by vm_compute. Qed.

(** ** The protecting loop *)

(** One round of the loop on a string in which the pattern matches. *)
Lemma protectStep_some (i : nat) (serviceRe : regex) (s : str) (repl : jsArray str)
    (m : matchResult) :
  regexExec serviceRe s = Some m ->
  protectStep i serviceRe (s, repl)
  = Ok (take (mIndex m) s ++ "$"%char :: natToString i ++ drop (mIndex m + length (mText m)) s,
        arraySet repl i (mText m)).
Proof.
  intros Hm. unfold protectStep, strMatch.
  rewrite (proj2 (regexTest_true _ _)) by eauto. rewrite Hm.
  do 2 f_equal. apply (strReplace_match serviceRe s m i Hm).
Qed.

(** One round of the loop on a string in which the pattern does not
    match. *)
Lemma protectStep_none (i : nat) (serviceRe : regex) (st : protectState) :
  regexExec serviceRe st.1 = None -> protectStep i serviceRe st = Ok st.
Proof. destruct st as [s repl]. simpl. intros H%regexTest_false. unfold protectStep. by rewrite H. Qed.

(** The two cases of a round. *)
Lemma protectStep_cases (i : nat) (serviceRe : regex) (s : str) (repl : jsArray str) :
  protectStep i serviceRe (s, repl) = Ok (s, repl)
  \/ exists m s', regexExec serviceRe s = Some m
       /\ protectStep i serviceRe (s, repl) = Ok (s', arraySet repl i (mText m)).
Proof.
  destruct (regexExec serviceRe s) as [m|] eqn:Hm.
  - right. eexists m, _. split; [done|]. by apply protectStep_some.
  - left. by apply (protectStep_none i serviceRe (s, repl)).
Qed.

(** The invariant of the loop: the rounds from the index [i] on leave the
    slots below [i] as they are, and the array ends within the indices of
    the patterns. *)
Lemma protectLoop_slots (res : list regex) (i : nat) (s s' : str) (repl repl' : jsArray str) :
  protectLoop i res (s, repl) = Ok (s', repl') ->
  (forall j, j < i -> mjoin (repl' !! j) = mjoin (repl !! j))
  /\ length repl' <= length repl `max` (i + length res).
Proof.
  revert i s repl. induction res as [|serviceRe res IH]; intros i s repl; cbn [protectLoop].
  { intros [= -> ->]. split; [done|lia]. }
  destruct (protectStep_cases i serviceRe s repl) as [->|(m & s1 & _ & ->)];
    cbn [mbind result_bind]; intros [Hlow Hlen]%IH; simpl.
  - split; [intros j Hj; apply Hlow; lia|lia].
  - rewrite arraySet_length in Hlen. split; [|lia].
    intros j Hj. rewrite Hlow by lia. apply arraySet_lookup_ne. lia.
Qed.

(** No service name in the string: the loop changes nothing. *)
Lemma protectLoop_none (s : str) :
  regexExec phpFpmRe s = None ->
  protectLoop 0 servicesUsingDotRegExps (s, []) = Ok (s, []).
Proof. intros H%regexTest_false. simpl. by rewrite H. Qed.

(** A service name in the string: its first occurrence becomes [$0] and
    slot 0 holds the name. *)
Lemma protectLoop_some (s : str) (m : matchResult) :
  regexExec phpFpmRe s = Some m ->
  protectLoop 0 servicesUsingDotRegExps (s, [])
  = Ok (take (mIndex m) s ++ "$0" ++ drop (mIndex m + length (mText m)) s,
        [Some (mText m)]).
Proof.
  intros H. cbn [protectLoop servicesUsingDotRegExps]. by rewrite (protectStep_some 0 _ _ _ _ H).
Qed.

(** One round of the loop never throws, whatever the pattern: [match]
    finds what [test] found. *)
Lemma protectStep_total (i : nat) (serviceRe : regex) (st : protectState) :
  exists st', protectStep i serviceRe st = Ok st'.
Proof.
  destruct st as [s repl]. unfold protectStep, strMatch.
  destruct (regexTest serviceRe s) eqn:E; [|by eauto].
  apply regexTest_true in E as [m ->]. eauto.
Qed.

(** The loop never throws, whatever the list of patterns. *)
Lemma protectLoop_total_any (i : nat) (res : list regex) (st : protectState) :
  exists st', protectLoop i res st = Ok st'.
Proof.
  revert i st. induction res as [|serviceRe res IH]; intros i st; simpl; [by eauto|].
  destruct (protectStep_total i serviceRe st) as [st' ->]. apply IH.
Qed.

(** The decoder never throws: [test] and [match] agree. *)
Lemma protectLoop_total (s : str) :
  exists st, protectLoop 0 servicesUsingDotRegExps (s, []) = Ok st.
Proof. apply protectLoop_total_any. Qed.

(** ** Restoring a piece *)

(** A piece without a dollar is kept. *)
Lemma restoreArg_plain (repl : jsArray str) (arg : str) :
  "$"%char ∉ arg -> restoreArg repl arg = Some arg.
Proof.
  intros H. unfold restoreArg, strMatch. by rewrite regexExec_placeholder_none.
Qed.

(** A piece that holds a placeholder is replaced as a whole by the slot
    that the last digit of the placeholder names: what stands before and
    after the placeholder in the piece is dropped, and so are the digits
    before the last one. *)
Lemma restoreArg_placeholder (repl : jsArray str) (pre ds rest : str) (d : ascii) :
  "$"%char ∉ pre -> forallb isDigit (d :: ds) = true -> startsWithDigit rest = false ->
  restoreArg repl (pre ++ "$"%char :: d :: ds ++ rest) = arrayGet repl [lastOf d ds].
Proof.
  intros Hpre Hds Hrest. unfold restoreArg, strMatch.
  by rewrite regexExec_placeholder_some.
Qed.

(** C34. A piece with a placeholder in a string without a service name: the
    parameter is [undefined]. *)
Theorem restoreArg_unrecorded (pre ds rest : str) (d : ascii) :
  "$"%char ∉ pre -> forallb isDigit (d :: ds) = true -> startsWithDigit rest = false ->
  restoreArg [] (pre ++ "$"%char :: d :: ds ++ rest) = None.
Proof.
  intros. unfold restoreArg, strMatch. rewrite regexExec_placeholder_some by done.
  apply arrayGet_nil.
Qed.

(** ** The index of a placeholder *)

(** What the placeholder of the round [i] is restored to. *)
Lemma restoreArg_written (repl : jsArray str) (i : nat) (v : str) :
  restoreArg (arraySet repl i v) ("$"%char :: natToString i)
  = if i <? 10 then Some v else restoreArg repl ("$"%char :: natToString i).
Proof.
  destruct (natToString_cons i) as (d & ds & E). pose proof (natToString_digits i) as Hd.
  pose proof (restoreArg_placeholder (arraySet repl i v) [] ds [] d) as H1.
  pose proof (restoreArg_placeholder repl [] ds [] d) as H2.
  rewrite E in *. rewrite app_nil_r in H1, H2. cbn [app] in H1, H2.
  rewrite H1, H2 by (done || apply not_elem_of_nil). clear H1 H2.
  case_match eqn:Hi.
  - apply Nat.ltb_lt in Hi. destruct (natToString_digit i Hi) as [d' E'].
    rewrite E in E'. simplify_eq. cbn [lastOf]. rewrite <- E. apply arrayGet_arraySet.
  - apply Nat.ltb_ge in Hi. apply arrayGet_arraySet_ne.
    rewrite canonicalIndex_digit by by apply lastOf_digit.
    pose proof (digitValue_lt _ (lastOf_digit d ds Hd)). intros [= ?]. lia.
Qed.

(** C29. The placeholder of a round of the loop, and what it is restored
    to: the round with the index [i] sets the first match aside in the
    slot [i] and writes [$i] in its place; restoring [$i] gives the match
    back when [i] is below ten, and otherwise reads the slot of the last
    digit of [i] as it was before the round, because the group of
    [/\$(\d)+/] keeps one digit. *)
Theorem protectStep_restored (i : nat) (serviceRe : regex) (s : str) (repl : jsArray str)
    (m : matchResult) :
  regexExec serviceRe s = Some m ->
  exists s' repl',
    protectStep i serviceRe (s, repl) = Ok (s', repl')
    /\ partOf ("$"%char :: natToString i) s'
    /\ restoreArg repl' ("$"%char :: natToString i)
       = if i <? 10 then Some (mText m) else restoreArg repl ("$"%char :: natToString i).
Proof.
  intros Hm. eexists _, _. split_and!; [by apply protectStep_some| |apply restoreArg_written].
  by eexists _, _.
Qed.

(** ** Decoding *)

Lemma restoreArg_no_placeholder (repl : jsArray str) (arg : str) :
  regexTest placeholderRe arg = false -> restoreArg repl arg = Some arg.
Proof. intros E%regexTest_false. unfold restoreArg, strMatch. by rewrite E. Qed.

Lemma restoreArg_pieces (repl : jsArray str) (s : str) :
  regexTest placeholderRe s = false ->
  restoreArg repl <$> strSplit "." s = Some <$> strSplit "." s.
Proof.
  intros Hs. apply list_eq_Forall2, Forall2_fmap, Forall_Forall2_diag.
  eapply Forall_impl; [apply (strSplit_partOf "." s)|].
  intros piece Hp. apply restoreArg_no_placeholder. by apply (regexTest_part_false _ _ s).
Qed.

Lemma placeholder_groups (p : str) (m : matchResult) :
  regexExec placeholderRe p = Some m -> matchLength m = 2.
Proof.
  intros (j & _ & _ & Hm & _)%execFrom_Some. rewrite matchAt_placeholder in Hm.
  destruct m as [i w cs]. unfold placeholderAt in Hm. by repeat case_match; simplify_eq/=.
Qed.

(** What a restored piece can be: the piece itself when it holds no
    placeholder, a recorded text otherwise. *)
Lemma restoreArg_Some_inv (repl : jsArray str) (p t : str) :
  restoreArg repl p = Some t ->
  (regexTest placeholderRe p = false /\ t = p)
  \/ (regexTest placeholderRe p = true /\ exists key, arrayGet repl key = Some t).
Proof.
  unfold restoreArg, strMatch. destruct (regexExec placeholderRe p) as [m|] eqn:E.
  - rewrite (placeholder_groups p m E). simpl. intros H. right.
    split; [apply regexTest_true|]; eauto.
  - intros [= <-]. left. by split; [apply regexTest_false|].
Qed.

(** C8. Without a service name and without a placeholder in it, a string
    decodes to its pieces between the dots: the first is the operation,
    the others are the parameters, in order. *)
Theorem decode_plain (s : str) :
  regexTest phpFpmRe s = false -> regexTest placeholderRe s = false ->
  decodeOperation s = Ok (arrayShift (Some <$> strSplit "." s)).
Proof.
  intros Hphp%regexTest_false Hs. unfold decodeOperation.
  rewrite (protectLoop_none s Hphp). simpl. by rewrite restoreArg_pieces.
Qed.

(** C35. The decoder never throws. *)
Theorem decode_total (s : str) : exists r, decodeOperation s = Ok r.
Proof.
  unfold decodeOperation. destruct (protectLoop_total s) as [[s' repl] ->].
  simpl. eauto.
Qed.

(** The loop of lines 94 to 102 on a string with a service name, after a
    text that holds none: the name is set aside and [$0] stands in its
    place. *)
Lemma protectLoop_first_name (P S post : str) :
  regexTest phpFpmRe P = false -> matches phpFpmRe S ->
  protectLoop 0 servicesUsingDotRegExps (P ++ S ++ post, []) = Ok (P ++ "$0" ++ post, [Some S]).
Proof.
  intros HP HS. destruct (regexExec_first_name P S post HP HS) as [cs Hm].
  rewrite (protectLoop_some _ _ Hm). simpl mIndex. simpl mText.
  by rewrite take_app_length, <- drop_drop, !drop_app_length.
Qed.

(** The same on a service name that follows the first piece. *)
Lemma protectLoop_piece (op S post : str) :
  "."%char ∉ op -> matches phpFpmRe S ->
  protectLoop 0 servicesUsingDotRegExps (op ++ "." ++ S ++ post, [])
  = Ok (op ++ "." ++ "$0" ++ post, [Some S]).
Proof.
  intros Hop HS. rewrite !(assoc_L (++) op ".").
  by apply protectLoop_first_name; [apply regexTest_phpFpm_dot, regexTest_phpFpm_no_dot|].
Qed.

(** The decoder on such a string: the split and the restoration see the
    string with [$0] in the place of the name. *)
Lemma decodeOperation_first_name (P S post : str) :
  regexTest phpFpmRe P = false -> matches phpFpmRe S ->
  decodeOperation (P ++ S ++ post)
  = Ok (arrayShift (restoreArg [Some S] <$> strSplit "." (P ++ "$0" ++ post))).
Proof. intros HP HS. unfold decodeOperation. by rewrite protectLoop_first_name. Qed.

Lemma plainPiece_nil : plainPiece [].
Proof. split; apply not_elem_of_nil. Qed.

Lemma plainPiece_quiet (x : str) : plainPiece x -> quietPiece x.
Proof. intros [Hdot Hdollar]. by split; [|apply regexTest_placeholder_no_dollar]. Qed.

Lemma plainPieces_quiet (ps : list str) : Forall plainPiece ps -> Forall quietPiece ps.
Proof. intros Hps. eapply Forall_impl; [exact Hps|apply plainPiece_quiet]. Qed.

(** Pieces without a placeholder are restored as they are. *)
Lemma restoreArg_quietPieces (repl : jsArray str) (ps : list str) :
  Forall quietPiece ps -> restoreArg repl <$> ps = Some <$> ps.
Proof.
  intros Hps. apply Forall_fmap_ext_1. eapply Forall_impl; [exact Hps|].
  intros p [_ Hp]. by apply restoreArg_no_placeholder.
Qed.

Lemma quietPieces_no_dot (ps : list str) :
  Forall quietPiece ps -> Forall (fun p => "."%char ∉ p) ps.
Proof. intros Hps. eapply Forall_impl; [exact Hps|]. by intros p [Hp _]. Qed.

Lemma placeholder_piece_no_dot (x y : str) :
  "."%char ∉ x -> "."%char ∉ y -> "."%char ∉ x ++ "$0" ++ y.
Proof.
  intros Hx Hy. rewrite !elem_of_app. intros [?|[H|?]]; [done| |done].
  revert H. compute_done.
Qed.

(** The decoder on the pieces around the first service name: the pieces
    are restored with [$0] in the place of the name. *)
Lemma decodeOperation_pieces (ps1 ps2 : list str) (x S y : str) :
  Forall (fun p => "."%char ∉ p) ps1 -> Forall (fun p => "."%char ∉ p) ps2 ->
  "."%char ∉ x -> "."%char ∉ y ->
  regexTest phpFpmRe (strJoin "." (ps1 ++ [x])) = false -> matches phpFpmRe S ->
  decodeOperation (strJoin "." (ps1 ++ (x ++ S ++ y) :: ps2))
  = Ok (arrayShift (restoreArg [Some S] <$> ps1 ++ (x ++ "$0" ++ y) :: ps2)).
Proof.
  intros H1 H2 Hx Hy HP HS.
  rewrite strJoin_inside, <- (assoc_L (++)), decodeOperation_first_name by done.
  rewrite (assoc_L (++) "$0"), <- strJoin_inside, strSplit_strJoin; [done|by destruct ps1|].
  apply Forall_app. split; [done|]. constructor; [by apply placeholder_piece_no_dot|done].
Qed.

(** Lines 104 to 111 on pieces around a piece that holds [$0]: the pieces
    come back, the recorded text in the place of that piece. *)
Lemma restoreArg_around (ps1 ps2 : list str) (x S y : str) :
  Forall quietPiece ps1 -> Forall quietPiece ps2 -> "$"%char ∉ x ->
  startsWithDigit y = false ->
  restoreArg [Some S] <$> ps1 ++ (x ++ "$0" ++ y) :: ps2 = Some <$> ps1 ++ S :: ps2.
Proof.
  intros H1 H2 Hx Hd.
  rewrite !fmap_app, !fmap_cons, !restoreArg_quietPieces by done. do 2 f_equal.
  by apply (restoreArg_placeholder [Some S] x [] y "0").
Qed.

(** Pieces without a dot that are restored as themselves hold no
    placeholder, when every recorded text holds a dot. *)
Lemma restoreArg_selves (repl : jsArray str) (ps : list str) :
  (forall key t, arrayGet repl key = Some t -> "."%char ∈ t) ->
  Forall (fun p => "."%char ∉ p) ps ->
  restoreArg repl <$> ps = Some <$> ps -> Forall quietPiece ps.
Proof.
  intros Hrepl Hps. induction Hps as [|p ps Hp Hps IH]; [done|]. rewrite !fmap_cons.
  intros [= E1 E2]. constructor; [|by apply IH].
  apply restoreArg_Some_inv in E1 as [[Hq _]|[_ [key Hk%Hrepl]]]; done.
Qed.

Lemma recorded_name_dot (S : str) (key t : str) :
  matches phpFpmRe S -> arrayGet [Some S] key = Some t -> "."%char ∈ t.
Proof. intros HS ->%arrayGet_singleton. by apply phpFpm_dot. Qed.

(** C4. Round trip of a service name: for every name [S] of the shape
    [php<digits>.<digits>-fpm], an operation [op] that holds neither a dot
    nor a dollar, and a rest without a placeholder, decoding [op.S.rest]
    gives the operation [op], the parameter [S], unbroken by the dot
    inside it, and then the pieces of the rest. *)
Theorem decode_service_name (op S rest : str) :
  matches phpFpmRe S -> plainPiece op -> regexTest placeholderRe rest = false ->
  decodeOperation (op ++ "." ++ S ++ "." ++ rest)
  = Ok (Some op, Some S :: (Some <$> strSplit "." rest)).
Proof.
  intros HS [Hop1 Hop2] Hrest. unfold decodeOperation.
  rewrite protectLoop_piece by done. cbn [mbind result_bind].
  rewrite (strSplit_app_lit "." op) by done.
  rewrite (strSplit_app_lit "." "$0") by (compute_done).
  cbn [map arrayShift]. change (map ?f ?l) with (f <$> l).
  by rewrite (restoreArg_plain _ op), restoreArg_pieces.
Qed.

(** C33. Digits that follow the service name join the placeholder, and the
    group of [/\$(\d)+/] captures the last of them: the parameter is the
    name only when that digit is 0, and [undefined] otherwise. *)
Theorem decode_name_then_digits (op S ds rest : str) (d : ascii) :
  matches phpFpmRe S -> plainPiece op -> forallb isDigit (d :: ds) = true ->
  regexTest placeholderRe rest = false ->
  decodeOperation (op ++ "." ++ S ++ (d :: ds) ++ "." ++ rest)
  = Ok (Some op, arrayGet [Some S] [lastOf d ds] :: (Some <$> strSplit "." rest)).
Proof.
  intros HS [Hop1 Hop2] Hds Hrest. unfold decodeOperation.
  rewrite protectLoop_piece by done. cbn [mbind result_bind].
  rewrite (strSplit_app_lit "." op) by done.
  rewrite (assoc_L (++) "$0"), (strSplit_app_lit "." ("$0" ++ d :: ds)).
  2: { rewrite elem_of_app. intros [Hin|Hin]; [|by apply isDigits_no_dot in Hin].
       revert Hin. compute_done. }
  cbn [map arrayShift]. change (map ?f ?l) with (f <$> l).
  rewrite (restoreArg_plain _ op), restoreArg_pieces by done.
  pose proof (restoreArg_placeholder [Some S] [] (d :: ds) [] "0") as Hr.
  rewrite app_nil_r in Hr. cbn [app lastOf] in Hr. change ("$0" ++ d :: ds) with ("$"%char :: "0"%char :: d :: ds).
  rewrite Hr; [done|apply not_elem_of_nil|exact Hds|done].
Qed.

(** C26. A service name anywhere in the string: when the pieces hold no
    dot and no placeholder, [S] is a service name inside a piece
    [x ++ S ++ y] whose other parts [x] and [y] are plain, [y] does not
    start with a digit and no service name stands before [S], the string
    decodes to the pieces with [S] alone in the place of [x ++ S ++ y].
    The dot inside [S] splits nothing, whatever the position of [S]; the
    text around [S] in its piece is dropped. *)
Theorem decode_name_in_piece (ps1 ps2 : list str) (x S y : str) :
  Forall plainPiece (ps1 ++ ps2) -> plainPiece x -> plainPiece y -> startsWithDigit y = false ->
  regexTest phpFpmRe (strJoin "." (ps1 ++ [x])) = false -> matches phpFpmRe S ->
  decodeOperation (strJoin "." (ps1 ++ (x ++ S ++ y) :: ps2))
  = Ok (arrayShift (Some <$> ps1 ++ S :: ps2)).
Proof.
  intros [H1%plainPieces_quiet H2%plainPieces_quiet]%Forall_app [Hx Hx'] [Hy Hy'] Hd HP HS.
  by rewrite decodeOperation_pieces, restoreArg_around by (done || by apply quietPieces_no_dot).
Qed.

(** The operation on a service with one state, as the registry declares
    it. *)
Lemma decode_service_state (S state : str) :
  matches phpFpmRe S -> plainPiece state ->
  decodeOperation ("service." ++ S ++ "." ++ state) = Ok (Some "service", [Some S; Some state]).
Proof.
  intros HS [Hdot Hdollar]. unfold decodeOperation.
  change ("service." ++ S ++ "." ++ state) with ("service" ++ "." ++ S ++ "." ++ state).
  rewrite (protectLoop_piece "service" S ("." ++ state)) by (done || compute_done).
  cbn [mbind result_bind].
  rewrite (strSplit_app_lit "." "service") by (compute_done).
  rewrite (strSplit_app_lit "." "$0") by (compute_done).
  rewrite strSplit_no_sep by done. cbn [map arrayShift].
  by rewrite (restoreArg_plain _ state).
Qed.

(** ** The theorems at concrete inputs *)

Lemma decode_plain_witness :
  decodeOperation "varnish.purge" = Ok (Some "varnish", [Some "purge"]).
Proof. by apply (decode_plain "varnish.purge"). Defined.

Lemma decode_service_name_witness :
  decodeOperation "service.php8.0-fpm.restart"
  = Ok (Some "service", [Some "php8.0-fpm"; Some "restart"]).
Proof.
  apply (decode_service_name "service" "php8.0-fpm" "restart"); [|split|done].
  - apply matches_phpFpmRe. by exists "8", "0".
  - compute_done.
  - compute_done.
Defined.

Lemma restoreArg_unrecorded_witness : restoreArg [] "x$12y" = None.
Proof. by apply (restoreArg_unrecorded "x" "2" "y" "1"); [apply (bool_decide_unpack _)|..]. Defined.

Lemma decode_name_then_digits_witness :
  decodeOperation "service.php8.0-fpm5.restart" = Ok (Some "service", [None; Some "restart"]).
Proof.
  apply (decode_name_then_digits "service" "php8.0-fpm" "" "restart" "5"); [|split|done..].
  - apply matches_phpFpmRe. by exists "8", "0".
  - compute_done.
  - compute_done.
Defined.

Lemma decode_name_in_piece_witness :
  decodeOperation "service.my-php7.4-fpm-old.restart"
  = Ok (Some "service", [Some "php7.4-fpm"; Some "restart"]).
Proof.
  apply (decode_name_in_piece ["service"] ["restart"] "my-" "php7.4-fpm" "-old");
    [| | |done|done|].
  - repeat constructor; compute_done.
  - split; compute_done.
  - split; compute_done.
  - apply matches_phpFpmRe. by exists "7", "4".
Defined.

Lemma protectStep_restored_witness :
  exists s' repl',
    protectStep 3 phpFpmRe ("service.php8.0-fpm.restart", []) = Ok (s', repl')
    /\ partOf "$3" s' /\ restoreArg repl' "$3" = Some "php8.0-fpm".
Proof.
  by apply (protectStep_restored 3 phpFpmRe "service.php8.0-fpm.restart" []
              (MatchResult 8 "php8.0-fpm" [])).
Defined.
