(* ===== verification/Tokens.v ===== *)
(** * Tokens: the decoder of the specification, and where the code agrees

    The specification asks for a decoder that keeps every service name
    whole; its design notes name a tokenizer in the place of the
    placeholders of lines 94 to 111 of [src/index.js].  [tokens] is that
    tokenizer, a scan from the left, and [oneWholeName] is the test of
    the strings on which [decodeOperation] gives its tokens: the theorems
    show that the code is the decoder of the specification on these
    strings and on no other, and that on them the pieces joined with
    dots ([encodeOperation]) are the operation string. *)

From Stdlib Require Import Ascii String Arith Lia.
From stdpp Require Import base tactics option list.
From S2P Require Import Prelude JsString RegExp Patterns Decoder.

#[local] Open Scope str_scope.

(** ** The tokenizer *)

(** [tokensFrom skip cur s]: the pieces of [s], where [skip] characters of
    a service name are still to be taken and [cur] is the piece read so
    far, in reverse.  A service name is taken whole where one starts; any
    other dot ends a piece. *)
Fixpoint tokensFrom (skip : nat) (cur s : str) : list str :=
  match s with
  | [] => [reverse cur]
  | c :: t =>
      match skip with
      | S k => tokensFrom k (c :: cur) t
      | 0 =>
          match matchAt phpFpmRe s with
          | Some (w, _) => tokensFrom (length w - 1) (c :: cur) t
          | None =>
              if bool_decide (c = "."%char) then reverse cur :: tokensFrom 0 [] t
              else tokensFrom 0 (c :: cur) t
          end
      end
  end.

Definition tokens (s : str) : list str := tokensFrom 0 [] s.

(** The decoder of the specification: the first token is the operation,
    the others are the parameters. *)
Definition decodeSpec (s : str) : option str * jsArray str :=
  arrayShift (Some <$> tokens s).

(** [nameFree x t]: no service name starts in [x] when [t] follows. *)
Definition nameFree (x t : str) : Prop :=
  forall u, u <> [] -> u `suffix_of` x -> matchAt phpFpmRe (u ++ t) = None.

(** [atBoundary c]: [c] is the end of the string or a dot. *)
Definition atBoundary (c : option ascii) : bool :=
  match c with
  | None => true
  | Some c => bool_decide (c = "."%char)
  end.

(** [oneWholeName s]: [s] holds no placeholder, and its first service
    name, if it has one, is a whole piece and the only name. *)
Definition oneWholeName (s : str) : bool :=
  negb (regexTest placeholderRe s) &&
  match regexExec phpFpmRe s with
  | None => true
  | Some m =>
      let post := drop (mIndex m + length (mText m)) s in
      atBoundary (last (take (mIndex m) s)) && atBoundary (head post)
      && negb (regexTest phpFpmRe post)
  end.

(** [encodeOperation d]: the operation string of an operation and its
    parameters, the join with dots; [undefined] is written as the empty
    text, as [Array.prototype.join] writes it. *)
Definition encodeOperation (d : option str * jsArray str) : str :=
  strJoin "." (default [] <$> (d.1 :: d.2)).

(** ** Examples *)

Example oneWholeName_examples :
  oneWholeName "service.php8.0-fpm.restart" = true
  /\ oneWholeName "varnish.purge" = true
  /\ oneWholeName "a.php1.2-fpm.php3.4-fpm" = false
  /\ oneWholeName "service.my-php8.0-fpm.restart" = false
  /\ oneWholeName "service.$0.restart" = false.
Proof. by vm_compute. Qed.

(** Where the code is not the decoder of the specification: a second
    service name is split at its dot, the text around a name in its piece
    is dropped, and a placeholder of the input is replaced. *)
Example decode_differs :
  decodeOperation "a.php1.2-fpm.php3.4-fpm" <> Ok (decodeSpec "a.php1.2-fpm.php3.4-fpm")
  /\ decodeOperation "service.my-php8.0-fpm.restart"
     <> Ok (decodeSpec "service.my-php8.0-fpm.restart")
  /\ decodeOperation "service.$0.restart" <> Ok (decodeSpec "service.$0.restart").
Proof. by vm_compute. Qed.

Example tokens_service_php :
  tokens "service.php8.0-fpm.restart" = ["service"; "php8.0-fpm"; "restart"].
Proof. reflexivity. Qed.

Example tokens_two_names :
  tokens "a.php1.2-fpm.php3.4-fpm" = ["a"; "php1.2-fpm"; "php3.4-fpm"].
Proof. reflexivity. Qed.

Example tokens_boundaries :
  tokens "" = [""] /\ tokens "." = [""; ""] /\ tokens "php8.0-fpm" = ["php8.0-fpm"]
  /\ tokens "php8.0-fp.x" = ["php8"; "0-fp"; "x"].
Proof. by vm_compute. Qed.

(** ** Texts without a service name *)

Lemma nameFree_app_l (a b t : str) : nameFree (a ++ b) t -> nameFree a (b ++ t).
Proof.
  intros H u Hu Hs. rewrite (assoc_L (++)). apply H; [by destruct u|by apply suffix_app].
Qed.

Lemma nameFree_app_r (a b t : str) : nameFree (a ++ b) t -> nameFree b t.
Proof. intros H u Hu Hs. apply H; [done|by apply suffix_app_r]. Qed.

Lemma nameFree_before (P S post : str) :
  regexTest phpFpmRe P = false -> matches phpFpmRe S -> nameFree P (S ++ post).
Proof.
  intros HP HS u Hu [k ->].
  rewrite <- (drop_app_length k (u ++ S ++ post)), (assoc_L (++) k).
  apply matchAt_before_name; [done..|]. rewrite length_app. destruct u; [done|simpl; lia].
Qed.

Lemma nameFree_end (x : str) : regexTest phpFpmRe x = false -> nameFree x [].
Proof.
  intros Hx%regexTest_false u Hu [k ->]. rewrite app_nil_r, <- (drop_app_length k u).
  apply (proj1 (regexExec_None _ _) Hx). rewrite !length_app. lia.
Qed.

(** ** The scan, step by step *)

Lemma tokensFrom_skip (u cur t : str) :
  tokensFrom (length u) cur (u ++ t) = tokensFrom 0 (reverse u ++ cur) t.
Proof.
  revert cur. induction u as [|c u IH]; intros cur; [done|]. simpl.
  by rewrite IH, reverse_cons, <- (assoc_L (++)).
Qed.

(** A service name is taken whole. *)
Lemma tokensFrom_name (S cur t : str) :
  matches phpFpmRe S -> tokensFrom 0 cur (S ++ t) = tokensFrom 0 (reverse S ++ cur) t.
Proof.
  intros HS. destruct (matchAt_name S t HS) as [cs Hm].
  destruct S as [|c S]; [by apply phpFpm_ends in HS as (? & ? & _)|].
  cbn [tokensFrom app] in *. rewrite Hm. replace (length (c :: S) - 1) with (length S) by (simpl; lia). rewrite tokensFrom_skip.
  by rewrite reverse_cons, <- (assoc_L (++)).
Qed.

(** A dot-free text without a service name joins the piece. *)
Lemma tokensFrom_run (x cur t : str) :
  "."%char ∉ x -> nameFree x t -> tokensFrom 0 cur (x ++ t) = tokensFrom 0 (reverse x ++ cur) t.
Proof.
  revert cur. induction x as [|c x IH]; intros cur Hx Hn; [done|].
  apply not_elem_of_cons in Hx as [Hc Hx]. cbn [tokensFrom app].
  pose proof (Hn (c :: x) ltac:(done) ltac:(done)) as Hm. cbn [app] in Hm.
  rewrite Hm, bool_decide_eq_false_2 by done.
  rewrite IH, reverse_cons, <- (assoc_L (++)); [done..|].
  by apply (nameFree_app_r [c]).
Qed.

(** A dot ends the piece. *)
Lemma tokensFrom_dot (cur t : str) :
  tokensFrom 0 cur ("."%char :: t) = reverse cur :: tokensFrom 0 [] t.
Proof. cbn [tokensFrom]. by rewrite matchAt_phpFpm_head, bool_decide_eq_true_2. Qed.

(** A dot and the piece after it. *)
Lemma tokensFrom_piece (p c0 t : str) :
  "."%char ∉ p -> nameFree p t ->
  tokensFrom 0 (reverse c0) ("."%char :: p ++ t) = c0 :: tokensFrom 0 (reverse p) t.
Proof.
  intros Hp Hn. by rewrite tokensFrom_dot, reverse_involutive, tokensFrom_run, app_nil_r.
Qed.

(** Pieces before a dot. *)
Lemma tokensFrom_pieces (ps : list str) (c0 t : str) :
  Forall (fun p => "."%char ∉ p) ps -> nameFree (joinAfter "." ps) ("."%char :: t) ->
  tokensFrom 0 (reverse c0) (joinAfter "." ps ++ "."%char :: t) = c0 :: ps ++ tokensFrom 0 [] t.
Proof.
  intros Hps. revert c0. induction Hps as [|p ps Hp Hps IH]; intros c0 Hn.
  - apply (tokensFrom_piece [] c0 t); [apply not_elem_of_nil|]. by intros [|??] ? ?%suffix_nil_inv.
  - change (joinAfter "." (p :: ps)) with (("."%char :: p) ++ joinAfter "." ps) in *.
    rewrite <- (assoc_L (++)). cbn [app].
    rewrite tokensFrom_piece, IH; [done|by eapply nameFree_app_r|done|].
    by eapply (nameFree_app_r ["."%char]), nameFree_app_l.
Qed.

(** Pieces at the end of the string. *)
Lemma tokensFrom_end (ps : list str) (c0 : str) :
  Forall (fun p => "."%char ∉ p) ps -> nameFree (joinAfter "." ps) [] ->
  tokensFrom 0 (reverse c0) (joinAfter "." ps) = c0 :: ps.
Proof.
  intros Hps. revert c0. induction Hps as [|p ps Hp Hps IH]; intros c0 Hn.
  - simpl. by rewrite reverse_involutive.
  - change (joinAfter "." (p :: ps)) with (("."%char :: p) ++ joinAfter "." ps) in *.
    cbn [app]. rewrite tokensFrom_piece, IH; [done|by eapply nameFree_app_r|done|].
    apply nameFree_app_l in Hn. rewrite app_nil_r in Hn. by apply (nameFree_app_r ["."%char]).
Qed.

(** The first token starts with the piece read so far. *)
Lemma tokensFrom_head (s cur : str) (skip : nat) :
  exists h rest, tokensFrom skip cur s = (reverse cur ++ h) :: rest.
Proof.
  revert skip cur. induction s as [|c s IH]; intros skip cur; simpl.
  { exists [], []. by rewrite app_nil_r. }
  assert (forall k, exists h rest, tokensFrom k (c :: cur) s = (reverse cur ++ h) :: rest) as Hc.
  { intros k. destruct (IH k (c :: cur)) as (h & rest & ->). exists (c :: h), rest.
    by rewrite reverse_cons, <- (assoc_L (++)). }
  destruct skip; [|done]. destruct (matchAt phpFpmRe (c :: s)) as [[w cs]|]; [done|].
  case_bool_decide; [|done]. exists [], (tokensFrom 0 [] s). by rewrite app_nil_r.
Qed.

(** A piece ends only at a dot or at the end of the string. *)
Lemma tokensFrom_ends_piece (c : ascii) (t cur : str) (rest : list str) :
  tokensFrom 0 cur (c :: t) = reverse cur :: rest -> c = "."%char.
Proof.
  assert (forall k, tokensFrom k (c :: cur) t <> reverse cur :: rest) as Hc.
  { intros k. destruct (tokensFrom_head t (c :: cur) k) as (h & r & ->).
    intros [= E _]. apply (f_equal length) in E.
    rewrite reverse_cons, !length_app in E. simpl in E. lia. }
  simpl. destruct (matchAt phpFpmRe (c :: t)) as [[w cs]|]; [intros E; by apply Hc in E|].
  case_bool_decide; [done|]. intros E. by apply Hc in E.
Qed.

(** The tokenizer loses no character: the join of the tokens is the
    string. *)
Lemma strJoin_tokensFrom (s cur : str) (skip : nat) :
  strJoin "." (tokensFrom skip cur s) = reverse cur ++ s.
Proof.
  revert skip cur. induction s as [|c s IH]; intros skip cur; simpl.
  { by rewrite app_nil_r. }
  assert (forall k, strJoin "." (tokensFrom k (c :: cur) s) = reverse cur ++ c :: s) as Hc.
  { intros k. by rewrite IH, reverse_cons, <- (assoc_L (++)). }
  destruct skip; [|done]. destruct (matchAt phpFpmRe (c :: s)) as [[w cs]|]; [done|].
  case_bool_decide as Hdot; [subst c|done].
  destruct (tokensFrom_head s [] 0) as (h & rest & E).
  rewrite strJoin_cons by (by rewrite E). by rewrite IH.
Qed.

(** ** The tokens of a string *)

(** Without a service name, the tokens are the pieces between the dots. *)
Lemma tokens_plain (s : str) : regexTest phpFpmRe s = false -> tokens s = strSplit "." s.
Proof.
  intros Hs%nameFree_end. pose proof (strSplit_pieces "." s) as Hps.
  pose proof (strSplit_length "." s) as Hl.
  rewrite <- (strJoin_strSplit "." s) in Hs |- * at 1.
  destruct (strSplit "." s) as [|p ps]; [done|]. apply Forall_cons in Hps as [Hp Hps].
  rewrite strJoin_cons_after in *. unfold tokens.
  rewrite tokensFrom_run, app_nil_r; [|done|by rewrite <- (app_nil_r (joinAfter _ _)); apply nameFree_app_l].
  apply tokensFrom_end; [done|by eapply nameFree_app_r].
Qed.

Lemma tokens_nonempty (s : str) : tokens s <> [].
Proof. unfold tokens. by destruct (tokensFrom_head s [] 0) as (h & rest & ->). Qed.

Lemma strJoin_tokens (s : str) : strJoin "." (tokens s) = s.
Proof. apply strJoin_tokensFrom. Qed.

(** The tokens up to the first service name: the pieces before the piece
    that holds it. *)
Lemma tokens_before_name (ps : list str) (x S rest : str) :
  Forall (fun p => "."%char ∉ p) ps -> "."%char ∉ x ->
  regexTest phpFpmRe (strJoin "." (ps ++ [x])) = false -> matches phpFpmRe S ->
  tokens (strJoin "." (ps ++ [x]) ++ S ++ rest) = ps ++ tokensFrom 0 (reverse (x ++ S)) rest.
Proof.
  intros Hps Hx HP HS. unfold tokens. pose proof (nameFree_before _ S rest HP HS) as Hn.
  assert (forall cur t, nameFree x (S ++ t) ->
    tokensFrom 0 cur (x ++ S ++ t) = tokensFrom 0 (reverse (x ++ S) ++ cur) t) as Hxs.
  { intros cur t Ht. rewrite tokensFrom_run, tokensFrom_name by done.
    by rewrite reverse_app, (assoc_L (++)). }
  destruct Hps as [|p ps Hp Hps]; [simpl in *; by rewrite Hxs, app_nil_r|].
  change ((p :: ps) ++ [x]) with (p :: (ps ++ [x])) in *.
  rewrite strJoin_cons_after, joinAfter_snoc in Hn.
  rewrite strJoin_cons_after, joinAfter_snoc, <- !(assoc_L (++)). cbn [app] in *.
  apply nameFree_app_l in Hn as Hp'. apply nameFree_app_r, nameFree_app_l in Hn as Hps'.
  apply nameFree_app_r, (nameFree_app_r ["."%char]) in Hn.
  rewrite <- (assoc_L (++)) in Hp'. cbn [app] in *.
  rewrite (tokensFrom_run p), app_nil_r, tokensFrom_pieces by done.
  by rewrite Hxs, app_nil_r.
Qed.

(** The tokens of pieces around one service name are the pieces and the
    name. *)
Lemma tokens_around_name (ps1 ps2 : list str) (S : str) :
  Forall (fun p => "."%char ∉ p) ps1 -> Forall (fun p => "."%char ∉ p) ps2 ->
  regexTest phpFpmRe (strJoin "." ps1) = false ->
  regexTest phpFpmRe (joinAfter "." ps2) = false -> matches phpFpmRe S ->
  tokens (strJoin "." (ps1 ++ S :: ps2)) = ps1 ++ S :: ps2.
Proof.
  intros H1 H2 Hn1 Hn2 HS. pose proof (strJoin_inside "." ps1 ps2 [] S) as E.
  cbn [app] in E. rewrite E, tokens_before_name; [|done|apply not_elem_of_nil| |done].
  - by rewrite tokensFrom_end by (done || by apply nameFree_end).
  - rewrite strJoin_snoc_empty. case_decide; [done|]. by apply regexTest_phpFpm_dot.
Qed.

(** ** From a text to its pieces *)

Lemma pieces_before (P : str) :
  atBoundary (last P) = true ->
  exists ps, Forall (fun p => "."%char ∉ p) ps
    /\ P = (if decide (ps = []) then [] else strJoin "." ps ++ ".")
    /\ partOf (strJoin "." ps) P.
Proof.
  destruct P as [|c P' _] using rev_ind; intros Hb.
  - exists []. split_and!; [done..|]. by exists [], [].
  - rewrite last_snoc in Hb. apply bool_decide_eq_true in Hb as ->.
    exists (strSplit "." P'). pose proof (strSplit_length "." P') as Hl.
    split_and!; [apply strSplit_pieces| |].
    + rewrite decide_False, strJoin_strSplit; [done|]. by intros E; rewrite E in Hl.
    + rewrite strJoin_strSplit. by exists [], ".".
Qed.

Lemma pieces_after (post : str) :
  atBoundary (head post) = true ->
  exists ps, Forall (fun p => "."%char ∉ p) ps /\ post = joinAfter "." ps.
Proof.
  destruct post as [|c q]; intros Hb; [by exists []|].
  apply bool_decide_eq_true in Hb as ->. exists (strSplit "." q).
  split; [apply strSplit_pieces|]. pose proof (strSplit_length "." q) as Hl.
  rewrite <- (strJoin_strSplit "." q) at 1.
  destruct (strSplit "." q) as [|p ps]; [done|]. by rewrite strJoin_cons_after.
Qed.

Lemma text_before (P : str) :
  exists ps x, Forall (fun p => "."%char ∉ p) ps /\ ("."%char ∉ x) /\ P = strJoin "." (ps ++ [x]).
Proof.
  pose proof (strSplit_pieces "." P) as H. pose proof (strSplit_length "." P) as Hl.
  assert (exists ps x, strSplit "." P = ps ++ [x]) as (ps & x & E).
  { destruct (strSplit "." P) using rev_ind; [done|eauto]. }
  rewrite E in H. apply Forall_app in H as [H1 [Hx _]%Forall_cons].
  exists ps, x. by rewrite <- E, strJoin_strSplit.
Qed.

Lemma text_after (post : str) :
  exists y ps, ("."%char ∉ y) /\ Forall (fun p => "."%char ∉ p) ps /\ post = y ++ joinAfter "." ps.
Proof.
  pose proof (strSplit_pieces "." post) as H. pose proof (strSplit_length "." post) as Hl.
  destruct (strSplit "." post) as [|y ps] eqn:E; [done|]. apply Forall_cons in H as [Hy Hps].
  exists y, ps. by rewrite <- strJoin_cons_after, <- E, strJoin_strSplit.
Qed.

(** ** Where the code is the decoder of the specification *)

(** Without a service name and without a placeholder. *)
Lemma decode_tokens_plain (s : str) :
  regexExec phpFpmRe s = None -> regexTest placeholderRe s = false ->
  decodeOperation s = Ok (decodeSpec s).
Proof.
  intros Hn Hs. unfold decodeSpec, decodeOperation.
  rewrite tokens_plain, (protectLoop_none s Hn) by by apply regexTest_false.
  simpl. by rewrite restoreArg_pieces.
Qed.

(** On pieces around one service name. *)
Lemma decode_tokens_around (ps1 ps2 : list str) (S : str) :
  Forall quietPiece ps1 -> Forall quietPiece ps2 ->
  regexTest phpFpmRe (strJoin "." ps1) = false ->
  regexTest phpFpmRe (joinAfter "." ps2) = false -> matches phpFpmRe S ->
  decodeOperation (strJoin "." (ps1 ++ S :: ps2))
  = Ok (decodeSpec (strJoin "." (ps1 ++ S :: ps2))).
Proof.
  intros H1 H2 Hn1 Hn2 HS. unfold decodeSpec.
  rewrite tokens_around_name by (done || by apply quietPieces_no_dot).
  pose proof (decodeOperation_pieces ps1 ps2 [] S []) as Hd.
  pose proof (restoreArg_around ps1 ps2 [] S []) as Hr.
  rewrite app_nil_r in Hd. cbn [app] in Hd, Hr.
  rewrite Hd; [by rewrite Hr by (done || apply not_elem_of_nil)| | | | | |done];
    [by apply quietPieces_no_dot..|apply not_elem_of_nil|apply not_elem_of_nil|].
  rewrite strJoin_snoc_empty. case_decide; [done|]. by apply regexTest_phpFpm_dot.
Qed.

(** The pieces of a string without a placeholder hold none. *)
Lemma quietPieces_join (ps qs : list str) :
  Forall (fun p => "."%char ∉ p) ps -> ps ⊆ qs ->
  regexTest placeholderRe (strJoin "." qs) = false -> Forall quietPiece ps.
Proof.
  intros Hps Hsub Hs. apply Forall_forall. intros p Hp.
  split; [by eapply Forall_forall in Hps|].
  by apply (regexTest_part_false _ _ (strJoin "." qs)); [apply strJoin_partOf, Hsub|].
Qed.

(** The code gives the tokens of every string that passes the test. *)
Lemma decode_tokens_intro (s : str) :
  oneWholeName s = true -> decodeOperation s = Ok (decodeSpec s).
Proof.
  intros [Hd%negb_true_iff Hm]%andb_true_iff.
  destruct (regexExec phpFpmRe s) as [m|] eqn:E; [|by apply decode_tokens_plain].
  apply andb_true_iff in Hm as [[Hb Ha]%andb_true_iff Hn%negb_true_iff].
  destruct (regexExec_phpFpm_first s m E) as (HS & HP & Es).
  destruct (pieces_before _ Hb) as (ps1 & H1 & E1 & Hp1).
  destruct (pieces_after _ Ha) as (ps2 & H2 & E2).
  rewrite E2 in Hn. rewrite E1, E2, <- strJoin_around in Es. rewrite Es in Hd |- *.
  apply decode_tokens_around; [by eapply quietPieces_join; [..|exact Hd]; [|intros p Hp; rewrite elem_of_app, elem_of_cons; auto]..| |done|done].
  by apply (regexTest_part_false _ _ _ Hp1).
Qed.

(** ** Where the code is not the decoder of the specification *)

(** Tokens without a dot: the string holds no service name. *)
Lemma tokens_no_dot (q : str) :
  Forall (fun p => "."%char ∉ p) (tokens q) -> regexTest phpFpmRe q = false.
Proof.
  intros Hq. destruct (regexTest phpFpmRe q) eqn:E; [|done].
  apply regexTest_true in E as [m (HS & HP & Es)%regexExec_phpFpm_first].
  destruct (text_before (take (mIndex m) q)) as (ps & x & Hps & Hx & EP).
  rewrite EP in HP, Es. rewrite Es, tokens_before_name in Hq by done.
  destruct (tokensFrom_head (drop (mIndex m + length (mText m)) q) (reverse (x ++ mText m)) 0)
    as (h & rest & ET).
  rewrite ET, reverse_involutive in Hq. apply Forall_app in Hq as [_ [Hq _]%Forall_cons].
  destruct Hq. rewrite !elem_of_app. left. right. by apply phpFpm_dot.
Qed.

(** Pieces that are restored to the tokens of their join hold no
    placeholder, and their join holds no service name. *)
Lemma restored_tokens (S : str) (ps : list str) :
  matches phpFpmRe S -> Forall (fun p => "."%char ∉ p) ps ->
  restoreArg [Some S] <$> ps = Some <$> tokens (strJoin "." ps) ->
  Forall quietPiece ps /\ regexTest phpFpmRe (strJoin "." ps) = false.
Proof.
  intros HS Hps H. assert (ps = tokens (strJoin "." ps)) as E.
  { apply (strJoin_inj_pieces "."); [|done|by rewrite strJoin_tokens].
    apply (f_equal length) in H. by rewrite !length_fmap in H. }
  rewrite <- E in H. split; [by eapply restoreArg_selves; [intros ??; apply recorded_name_dot|..]|].
  apply tokens_no_dot. by rewrite <- E.
Qed.

(** The code gives the tokens of pieces around a first service name only
    when the name is a whole piece, the only name, and no piece holds a
    placeholder. *)
Lemma restored_around_inv (ps1 ps2 : list str) (x S y : str) :
  Forall (fun p => "."%char ∉ p) ps1 -> Forall (fun p => "."%char ∉ p) ps2 ->
  "."%char ∉ x -> "."%char ∉ y ->
  regexTest phpFpmRe (strJoin "." (ps1 ++ [x])) = false -> matches phpFpmRe S ->
  restoreArg [Some S] <$> ps1 ++ (x ++ "$0" ++ y) :: ps2
  = Some <$> tokens (strJoin "." (ps1 ++ (x ++ S ++ y) :: ps2)) ->
  x = [] /\ y = [] /\ Forall quietPiece ps1 /\ Forall quietPiece ps2
  /\ regexTest phpFpmRe (joinAfter "." ps2) = false.
Proof.
  intros H1 H2 Hx Hy HP HS.
  rewrite strJoin_inside, <- (assoc_L (++)), tokens_before_name, !fmap_app by done.
  intros [E1 E2]%app_inj_1; [|by rewrite !length_fmap].
  destruct (tokensFrom_head (y ++ joinAfter "." ps2) (reverse (x ++ S)) 0) as (h & rest & ET).
  rewrite ET, reverse_involutive, !fmap_cons in E2. injection E2 as Er E2.
  apply restoreArg_Some_inv in Er as [[Hq _]|[_ [key Ek%arrayGet_singleton]]].
  { pose proof (placeholder_piece_test x y) as Ht. cbn [app] in Ht. congruence. }
  assert (x = [] /\ h = []) as [-> ->].
  { apply (f_equal length) in Ek. rewrite !length_app in Ek. by destruct x, h; simpl in *; try lia. }
  rewrite app_nil_r in ET. cbn [app] in ET.
  destruct y as [|c y].
  2: { cbn [app] in ET. apply tokensFrom_ends_piece in ET as ->. destruct Hy. by left. }
  split_and!; [done..|by eapply restoreArg_selves; [intros ??; apply recorded_name_dot|..]| |]; cbn [app] in ET.
  all: destruct ps2 as [|p ps]; [done|]; apply Forall_cons in H2 as [Hp Hps].
  all: change (joinAfter "." (p :: ps)) with ("."%char :: p ++ joinAfter "." ps) in *.
  all: rewrite tokensFrom_dot, <- strJoin_cons_after in ET; injection ET as <-.
  all: destruct (restored_tokens S (p :: ps) HS) as [Hq Hn]; [by constructor|done|].
  - done.
  - rewrite <- strJoin_cons_after. by apply regexTest_phpFpm_after_dot.
Qed.

Lemma atBoundary_before (ps : list str) :
  atBoundary (last (strJoin "." (ps ++ [[]]))) = true.
Proof.
  rewrite strJoin_snoc_empty. case_decide; [done|]. by rewrite last_snoc.
Qed.

Lemma quiet_around (ps1 ps2 : list str) (S : str) :
  Forall quietPiece ps1 -> Forall quietPiece ps2 -> matches phpFpmRe S ->
  regexTest placeholderRe (strJoin "." (ps1 ++ S :: ps2)) = false.
Proof.
  intros H1 H2 HS. apply regexTest_placeholder_join, Forall_app. split; [|constructor].
  - eapply Forall_impl; [exact H1|]. by intros p [_ Hp].
  - by apply regexTest_placeholder_no_dollar, phpFpm_no_dollar.
  - eapply Forall_impl; [exact H2|]. by intros p [_ Hp].
Qed.

(** The code gives the tokens of a string only when the string passes
    the test. *)
Lemma decode_tokens_inv (s : str) :
  decodeOperation s = Ok (decodeSpec s) -> oneWholeName s = true.
Proof.
  intros H. unfold oneWholeName, decodeSpec in *.
  destruct (regexExec phpFpmRe s) as [m|] eqn:E.
  - destruct (regexExec_phpFpm_first s m E) as (HS & HP & Es). cbn zeta.
    destruct (text_before (take (mIndex m) s)) as (ps1 & x & H1 & Hx & EP).
    destruct (text_after (drop (mIndex m + length (mText m)) s)) as (y & ps2 & Hy & H2 & Epost).
    rewrite EP in HP. rewrite EP, Epost in Es |- *. clear EP Epost.
    rewrite (assoc_L (++) _ y), <- strJoin_inside in Es. rewrite Es in H |- *.
    rewrite decodeOperation_pieces in H by done. injection H as H.
    apply arrayShift_inj in H; [|by destruct ps1|by intros ?%fmap_nil_inv%tokens_nonempty].
    apply restored_around_inv in H as (-> & -> & Hq1 & Hq2 & Hn); [|done..].
    rewrite app_nil_r. cbn [app]. rewrite quiet_around, atBoundary_before, Hn by done.
    by destruct ps2.
  - rewrite tokens_plain in H by by apply regexTest_false. unfold decodeOperation in H.
    rewrite (protectLoop_none s E) in H. simpl in H. injection H as H.
    pose proof (strSplit_length "." s) as Hl.
    apply arrayShift_inj in H; [|by destruct (strSplit "." s)..].
    apply restoreArg_selves in H; [|intros ??; by rewrite arrayGet_nil|apply strSplit_pieces].
    rewrite <- (strJoin_strSplit "." s), regexTest_placeholder_join; [done|].
    eapply Forall_impl; [exact H|]. by intros p [_ Hp].
Qed.

(** C27. The code against the decoder of the specification:
    [decodeOperation] gives the tokens of a string, the first as the
    operation, exactly when the string holds no placeholder and its first
    service name, if it has one, is a whole piece and the only name. *)
Theorem decode_refines_tokens (s : str) :
  decodeOperation s = Ok (decodeSpec s) <-> oneWholeName s = true.
Proof. split; [apply decode_tokens_inv|apply decode_tokens_intro]. Qed.

Lemma decode_refines_tokens_witness :
  decodeOperation "server.service.php7.4-fpm.restart"
  = Ok (decodeSpec "server.service.php7.4-fpm.restart").
Proof. apply (decode_refines_tokens "server.service.php7.4-fpm.restart"). by vm_compute. Defined.

(** ** Round trip *)

Lemma default_Some_fmap (ts : list str) : default [] <$> (Some <$> ts) = ts.
Proof. induction ts as [|p ts IH]; [done|]. by rewrite !fmap_cons, IH. Qed.

Lemma encodeOperation_decodeSpec (s : str) : encodeOperation (decodeSpec s) = s.
Proof.
  unfold encodeOperation, decodeSpec. pose proof (tokens_nonempty s) as Hs.
  transitivity (strJoin "." (tokens s)); [|apply strJoin_tokens].
  destruct (tokens s) as [|t ts]; [done|].
  rewrite (fmap_cons Some). cbn [arrayShift fst snd]. by rewrite fmap_cons, default_Some_fmap.
Qed.

(** C28. Round trip of the decoder: on a string that passes the test the
    code loses nothing, the join of the operation and the parameters that
    it returns is the string. *)
Theorem decode_encode (s : str) :
  oneWholeName s = true ->
  exists d, decodeOperation s = Ok d /\ encodeOperation d = s.
Proof.
  intros Hs%decode_tokens_intro. exists (decodeSpec s).
  by split; [|apply encodeOperation_decodeSpec].
Qed.

(** Two strings that pass the test and decode alike are equal. *)
Corollary decodeOperation_inj (s1 s2 : str) :
  oneWholeName s1 = true -> oneWholeName s2 = true ->
  decodeOperation s1 = decodeOperation s2 -> s1 = s2.
Proof.
  intros H1%decode_tokens_intro H2%decode_tokens_intro. rewrite H1, H2. intros [= E].
  by rewrite <- (encodeOperation_decodeSpec s1), E, encodeOperation_decodeSpec.
Qed.

(** Without the test the decoder is not injective: two placeholders of
    the input both decode to [undefined]. *)
Example decodeOperation_not_inj :
  decodeOperation "a.$0" = decodeOperation "a.$1"
  /\ encodeOperation (Some "a", [None]) = "a.".
Proof. by vm_compute. Qed.

Lemma decode_encode_witness :
  exists d, decodeOperation "service.php8.0-fpm.restart" = Ok d
    /\ encodeOperation d = "service.php8.0-fpm.restart".
Proof. apply (decode_encode "service.php8.0-fpm.restart"). by vm_compute. Defined.
