(* ===== verification/Registry.v ===== *)
(** * Registry: the supported endpoints and the check of the parameters

    Lines 6 to 26 of [src/index.js] ([supportedEndpoints]), the lookup of
    line 114 and [validateParameters] (lines 82 to 84).

    [supportedEndpoints] is an object literal, so [supportedEndpoints[name]]
    finds the three own properties and, for a name that is none of them,
    whatever [Object.prototype] defines under that name: a function, or
    the prototype itself for [__proto__].  Those values are truthy and have
    no property [params]. *)

From Stdlib Require Import Ascii String Arith Lia.
From stdpp Require Import base tactics option list.
From S2P Require Import Prelude JsString JsValue.

#[local] Open Scope str_scope.

(** ** The registry *)

(** One entry of [supportedEndpoints]. *)
Record endpointConfig : Type := EndpointConfig {
  endpoint : str;
  params : list str
}.

(** Lines 6 to 26. *)
Definition supportedEndpoints : list (str * endpointConfig) :=
  [ ("varnish", EndpointConfig "/service/varnish" ["action"]);
    ("service", EndpointConfig "/service/state" ["service"; "state"]);
    ("cdn_purge", EndpointConfig "/app/cdn/purge" ["app_id"]) ].

(** The names that [Object.prototype] defines. *)
Definition objectPrototypeKeys : list str :=
  [ "constructor"; "__defineGetter__"; "__defineSetter__"; "hasOwnProperty";
    "__lookupGetter__"; "__lookupSetter__"; "isPrototypeOf";
    "propertyIsEnumerable"; "toString"; "valueOf"; "__proto__"; "toLocaleString" ].

(** What [supportedEndpoints[operation]] evaluates to. *)
Inductive lookupResult : Type :=
| OwnConfig (config : endpointConfig)   (* an entry of the registry *)
| Inherited                             (* a value of Object.prototype: truthy, no params *)
| Missing.                              (* undefined *)

(** Line 114: [supportedEndpoints[operation]], where [operation] is a
    string or [undefined]. *)
Definition lookupEndpoint (operation : option str) : lookupResult :=
  let key := toPropertyKey operation in
  match assoc key supportedEndpoints with
  | Some config => OwnConfig config
  | None => if bool_decide (key ∈ objectPrototypeKeys) then Inherited else Missing
  end.

#[export] Instance endpointConfig_eq_dec : EqDecision endpointConfig.
Proof. solve_decision. Defined.
#[export] Instance lookupResult_eq_dec : EqDecision lookupResult.
Proof. solve_decision. Defined.

(** [endpointConfig.params] for a value that [lookupEndpoint] found:
    [undefined] ([None]) for an inherited value. *)
Definition paramsOf (found : lookupResult) : option (list str) :=
  match found with
  | OwnConfig config => Some (params config)
  | Inherited => None
  | Missing => None
  end.

(** ** The check of the parameters *)

(** [objectKeys a] is [Object.keys(a)] for an array without holes: the
    texts of its indices. *)
Definition objectKeys {A : Type} (a : list A) : list str :=
  natToString <$> seq 0 (length a).

(** Lines 82 to 84.  The function is called with [endpointConfig.params],
    which is an array or [undefined]; [Object.keys(undefined)] throws. *)
Definition validateParameters (endpointConfig : option (list str)) (params : jsArray str) :
    result bool :=
  match endpointConfig with
  | None => Throw (TypeError KeysOfUndefined)
  | Some names => Ok (length (objectKeys names) =? length params)
  end.

(** ** Well-formedness of the registry *)

(** The names of the parameters of an entry are distinct, none is
    [server_id], and each is an ordinary property key. *)
Definition wellFormedConfig (config : endpointConfig) : Prop :=
  NoDup (params config) /\ ("server_id" ∉ params config) /\
  Forall (fun name => ordinaryKey name = true) (params config).

(** ** Examples *)

Example lookup_service :
  lookupEndpoint (Some "service")
  = OwnConfig (EndpointConfig "/service/state" ["service"; "state"]).
Proof. reflexivity. Qed.

Example lookup_unknown : lookupEndpoint (Some "unknown") = Missing.
Proof. reflexivity. Qed.

Example lookup_constructor : lookupEndpoint (Some "constructor") = Inherited.
Proof. reflexivity. Qed.

(** ** Lemmas *)

Lemma objectKeys_length {A : Type} (a : list A) : length (objectKeys a) = length a.
Proof. unfold objectKeys. by rewrite length_fmap, length_seq. Qed.

(** C6. The check of the parameters is a check of arity: it succeeds
    exactly when there are as many parameters as declared names, whatever
    the values are, [undefined] included. *)
Theorem validateParameters_arity (names : list str) (ps : jsArray str) :
  validateParameters (Some names) ps = Ok (bool_decide (length names = length ps)).
Proof.
  unfold validateParameters. rewrite objectKeys_length. f_equal.
  destruct (Nat.eqb_spec (length names) (length ps));
    [by rewrite bool_decide_eq_true_2|by rewrite bool_decide_eq_false_2].
Qed.

(** An operation that the lookup finds in the registry is one of its entries. *)
Lemma lookupEndpoint_elem_of (operation : option str) (config : endpointConfig) :
  lookupEndpoint operation = OwnConfig config ->
  (toPropertyKey operation, config) ∈ supportedEndpoints.
Proof.
  unfold lookupEndpoint. destruct (assoc _ supportedEndpoints) as [c|] eqn:E.
  - intros [= ->]. by apply assoc_Some_elem_of.
  - by case_bool_decide.
Qed.

(** The registry has exactly three operations: the lookup finds a
    configuration of its own exactly for the keys [varnish], [service] and
    [cdn_purge], each with its entry. *)
Theorem lookupEndpoint_own (operation : option str) (config : endpointConfig) :
  lookupEndpoint operation = OwnConfig config <->
  (toPropertyKey operation, config) ∈ supportedEndpoints.
Proof.
  split; [apply lookupEndpoint_elem_of|]. unfold lookupEndpoint, supportedEndpoints.
  rewrite !elem_of_cons, elem_of_nil.
  intros [[= -> ->]|[[= -> ->]|[[= -> ->]|[]]]]; reflexivity.
Qed.

(** Every entry of the registry is well formed. *)
Lemma supportedEndpoints_wellFormed :
  Forall (fun entry => wellFormedConfig entry.2) supportedEndpoints.
Proof.
  repeat constructor; simpl;
    try (compute_done).
Qed.

(** What the lookup finds in the registry is well formed. *)
Lemma lookupEndpoint_wellFormed (operation : option str) (config : endpointConfig) :
  lookupEndpoint operation = OwnConfig config -> wellFormedConfig config.
Proof.
  intros Hl%lookupEndpoint_elem_of.
  by apply (proj1 (Forall_forall _ _) supportedEndpoints_wellFormed _ Hl).
Qed.
