(* ===== verification/Effects.v ===== *)
(** * Effects: what the action does to the outside world

    [src/index.js] talks to the world through [fetch] (lines 43 and 70)
    and through the toolkit's [core.info], [core.setOutput] and
    [core.setFailed] (lines 116, 131, 138, 139 and 142); [core.getInput]
    only reads the configuration.  A run is modelled as a tree of these
    calls ([io]): a node is a call, and the node of [fetch] has one
    subtree for each thing the network can answer.  [throw] and a rejected
    promise are the leaf [Raise], and [try ... catch] is [tryCatch].

    [execIO] runs a tree against a [world], which decides what the n-th
    request is answered with, and returns the calls that were made, in
    order, with the outcome.  Theorems about a run quantify over the
    world.  The shapes of programs ([quiet], [reportsSuccessLast],
    [fetchBound], [requestsAll]) are predicates on the tree that hold on
    every path, whatever the world answers; two worlds [agree] on a
    range of requests when they answer them alike. *)

From Stdlib Require Import Ascii String Arith Lia.
From stdpp Require Import base tactics option list.
From S2P Require Import Prelude JsString JsValue.

#[local] Open Scope str_scope.

(** ** Requests and responses *)

(** The options object given to [fetch]. *)
Record fetchOptions : Type := FetchOptions {
  method : str;
  body : str;
  headers : list (str * str)
}.

(** What [fetch] resolves with, as far as the action looks at it:
    [response.ok], [response.status], and what [response.json()] resolves
    with or is rejected with. *)
Record httpResponse : Type := HttpResponse {
  respOk : bool;
  respStatus : nat;
  respJson : result jsval
}.

(** ** Events *)

Inductive event : Type :=
| EvInfo (message : str)                         (* core.info(message) *)
| EvSetOutput (name : str) (value : jsval)       (* core.setOutput(name, value) *)
| EvSetFailed (error : jsError)                  (* core.setFailed(error.message) *)
| EvFetch (url : str) (options : fetchOptions).  (* fetch(url, options) *)

(** Requests, answers and events can be compared. *)
#[export] Instance fetchOptions_eq_dec : EqDecision fetchOptions.
Proof. solve_decision. Defined.
#[export] Instance httpResponse_eq_dec : EqDecision httpResponse.
Proof. solve_decision. Defined.
#[export] Instance event_eq_dec : EqDecision event.
Proof. solve_decision. Defined.

(** ** Programs *)

Inductive io (A : Type) : Type :=
| Ret (a : A)
| Raise (e : jsError)
| LogInfo (message : str) (k : io A)
| SetOutput (name : str) (value : jsval) (k : io A)
| SetFailed (error : jsError) (k : io A)
| Fetch (url : str) (options : fetchOptions) (k : result httpResponse -> io A).
Arguments Ret {A} a.
Arguments Raise {A} e.
Arguments LogInfo {A} message k.
Arguments SetOutput {A} name value k.
Arguments SetFailed {A} error k.
Arguments Fetch {A} url options k.

Fixpoint io_bind {A B : Type} (f : A -> io B) (p : io A) : io B :=
  match p with
  | Ret a => f a
  | Raise e => Raise e
  | LogInfo message k => LogInfo message (io_bind f k)
  | SetOutput name value k => SetOutput name value (io_bind f k)
  | SetFailed error k => SetFailed error (io_bind f k)
  | Fetch url options k => Fetch url options (fun r => io_bind f (k r))
  end.

#[global] Instance io_mret : MRet io := @Ret.
#[global] Instance io_mbind : MBind io := @io_bind.

(** [tryCatch p handler] is [try { p } catch (error) { handler(error) }]. *)
Fixpoint tryCatch {A : Type} (p : io A) (handler : jsError -> io A) : io A :=
  match p with
  | Ret a => Ret a
  | Raise e => handler e
  | LogInfo message k => LogInfo message (tryCatch k handler)
  | SetOutput name value k => SetOutput name value (tryCatch k handler)
  | SetFailed error k => SetFailed error (tryCatch k handler)
  | Fetch url options k => Fetch url options (fun r => tryCatch (k r) handler)
  end.

(** [liftResult r] is a computation without effects inside a program. *)
Definition liftResult {A : Type} (r : result A) : io A :=
  match r with
  | Ok a => Ret a
  | Throw e => Raise e
  end.

(** [fetchThen url options] is [await fetch(url, options)]: the response,
    or the rejection as a [throw]. *)
Definition fetchThen (url : str) (options : fetchOptions) : io httpResponse :=
  Fetch url options liftResult.

(** ** Running a program *)

(** The world answers the [n]-th request of a run. *)
Record world : Type := World {
  respond : nat -> str -> fetchOptions -> result httpResponse
}.

(** [execIO w n p] runs [p] in the world [w] after [n] requests: the
    events in order, and the value returned or the error thrown. *)
Fixpoint execIO {A : Type} (w : world) (n : nat) (p : io A) : list event * result A :=
  match p with
  | Ret a => ([], Ok a)
  | Raise e => ([], Throw e)
  | LogInfo message k =>
      let '(t, r) := execIO w n k in (EvInfo message :: t, r)
  | SetOutput name value k =>
      let '(t, r) := execIO w n k in (EvSetOutput name value :: t, r)
  | SetFailed error k =>
      let '(t, r) := execIO w n k in (EvSetFailed error :: t, r)
  | Fetch url options k =>
      let '(t, r) := execIO w (S n) (k (respond w n url options)) in
      (EvFetch url options :: t, r)
  end.

(** [agree i n w1 w2]: the two worlds give the same answers to the [n]
    requests from the [i]-th on. *)
Definition agree (i n : nat) (w1 w2 : world) : Prop :=
  forall j url options, i <= j < i + n -> respond w1 j url options = respond w2 j url options.

(** Two worlds are equivalent when they give the same answers. *)
#[export] Instance world_equiv : Equiv world :=
  fun w1 w2 => forall j url options, respond w1 j url options = respond w2 j url options.

(** ** Observations on traces *)

Definition isFetch (e : event) : bool :=
  match e with
  | EvFetch _ _ => true
  | _ => false
  end.

(** The requests of a trace, in order. *)
Definition fetchesOf (t : list event) : list event := filter (fun e => isFetch e = true) t.

(** ** Shapes of programs *)

(** [isReport e]: the event reports the outcome of the run. *)
Definition isReport (e : event) : bool :=
  match e with
  | EvSetOutput _ _ | EvSetFailed _ => true
  | _ => false
  end.

(** [quiet p]: the program reports nothing. *)
Fixpoint quiet {A : Type} (p : io A) : Prop :=
  match p with
  | Ret _ | Raise _ => True
  | LogInfo _ k => quiet k
  | SetOutput _ _ _ | SetFailed _ _ => False
  | Fetch _ _ k => forall r, quiet (k r)
  end.

(** [reportsSuccessLast p]: on every path the program either throws
    without having reported anything, or reports an output as its last
    action and returns. *)
Fixpoint reportsSuccessLast (p : io unit) : Prop :=
  match p with
  | Ret _ => False
  | Raise _ => True
  | LogInfo _ k => reportsSuccessLast k
  | SetOutput _ _ k => k = Ret tt
  | SetFailed _ _ => False
  | Fetch _ _ k => forall r, reportsSuccessLast (k r)
  end.

(** [fetchBound n p]: no path of the program makes more than [n]
    requests. *)
Fixpoint fetchBound {A : Type} (n : nat) (p : io A) : Prop :=
  match p with
  | Ret _ | Raise _ => True
  | LogInfo _ k | SetOutput _ _ k | SetFailed _ k => fetchBound n k
  | Fetch _ _ k =>
      match n with
      | 0 => False
      | S n' => forall r, fetchBound n' (k r)
      end
  end.

(** [requestsAll P p]: every request that the program can make
    satisfies [P]. *)
Fixpoint requestsAll {A : Type} (P : event -> Prop) (p : io A) : Prop :=
  match p with
  | Ret _ | Raise _ => True
  | LogInfo _ k | SetOutput _ _ k | SetFailed _ k => requestsAll P k
  | Fetch url options k => P (EvFetch url options) /\ forall r, requestsAll P (k r)
  end.

(** ** Lemmas *)

Lemma fetchesOf_cons_fetch (u : str) (o : fetchOptions) (t : list event) :
  fetchesOf (EvFetch u o :: t) = EvFetch u o :: fetchesOf t.
Proof. done. Qed.

Lemma fetchesOf_cons_other (e : event) (t : list event) :
  isFetch e = false -> fetchesOf (e :: t) = fetchesOf t.
Proof. intros He. unfold fetchesOf. rewrite filter_cons_False; [done|congruence]. Qed.

(** Sequencing: the events of the first program, then those of the
    second, which runs after the requests of the first; an error of the
    first ends the run. *)
Theorem execIO_bind {A B : Type} (w : world) (n : nat) (p : io A) (f : A -> io B) :
  execIO w n (p ≫= f)
  = match execIO w n p with
    | (t, Ok a) =>
        let '(t', r) := execIO w (n + length (fetchesOf t)) (f a) in (t ++ t', r)
    | (t, Throw e) => (t, Throw e)
    end.
Proof.
  revert n. induction p as [a|e|m k IH|nm v k IH|er k IH|u o k IH]; intros n;
    cbn [mbind io_mbind io_bind execIO]; rewrite ?IH;
    [rewrite Nat.add_0_r; by destruct (execIO w n (f a))|done|..];
    (destruct (execIO w _ _) as [t [a|e]]; [|done]);
    rewrite ?fetchesOf_cons_fetch, ?fetchesOf_cons_other by done;
    cbn [length]; rewrite ?Nat.add_succ_r; by destruct (execIO w _ (f a)).
Qed.

(** What [try] and [catch] do: the events of the body and, on an
    error, those of the handler after them. *)
Theorem execIO_tryCatch {A : Type} (w : world) (n : nat) (p : io A) (h : jsError -> io A) :
  execIO w n (tryCatch p h)
  = match execIO w n p with
    | (t, Ok a) => (t, Ok a)
    | (t, Throw e) =>
        let '(t', r) := execIO w (n + length (fetchesOf t)) (h e) in (t ++ t', r)
    end.
Proof.
  revert n. induction p as [a|e|m k IH|nm v k IH|er k IH|u o k IH]; intros n;
    cbn [tryCatch execIO]; rewrite ?IH;
    [done|rewrite Nat.add_0_r; by destruct (execIO w n (h e))|..];
    (destruct (execIO w _ _) as [t [a|e]]; [done|]);
    rewrite ?fetchesOf_cons_fetch, ?fetchesOf_cons_other by done;
    cbn [length]; rewrite ?Nat.add_succ_r; by destruct (execIO w _ (h e)).
Qed.

(** ** Lemmas: shapes of programs *)

Lemma fetchBound_mono {A : Type} (n m : nat) (p : io A) : n <= m -> fetchBound n p -> fetchBound m p.
Proof.
  revert n m. induction p as [a|e|ms k IH|nm v k IH|er k IH|u o k IH]; simpl; eauto.
  intros [|n] [|m] Hnm Hp; try done; [lia|]. intros r. apply (IH r n); [lia|auto].
Qed.

Section Structure.
Context {A B : Type}.
Implicit Types (p : io A) (f : A -> io B).

Lemma quiet_liftResult (r : result A) : quiet (liftResult r).
Proof. by destruct r. Qed.

Lemma quiet_bind p f : quiet p -> (forall a, quiet (f a)) -> quiet (p ≫= f).
Proof.
  intros Hp Hf. induction p as [a|e|m k IH|nm v k IH|er k IH|u o k IH]; simpl in *; auto.
Qed.

Lemma fetchBound_liftResult (r : result A) : fetchBound 0 (liftResult r).
Proof. by destruct r. Qed.

Lemma fetchBound_bind (n m : nat) p f :
  fetchBound n p -> (forall a, fetchBound m (f a)) -> fetchBound (n + m) (p ≫= f).
Proof.
  intros Hp Hf. revert n Hp.
  induction p as [a|e|ms k IH|nm v k IH|er k IH|u o k IH]; intros n Hp; simpl in *; auto.
  - apply (fetchBound_mono m); [lia|]. apply Hf.
  - destruct n as [|n]; [done|]. simpl. intros r. apply IH, Hp.
Qed.

(** The number of requests of a run is within the bound of the program. *)
Lemma fetchBound_execIO (w : world) (n i : nat) p :
  fetchBound n p -> length (fetchesOf (execIO w i p).1) <= n.
Proof.
  revert n i.
  induction p as [a|e|ms k IH|nm v k IH|er k IH|u o k IH]; intros n i Hp;
    cbn [execIO fetchBound] in *;
    try (specialize (IH n i Hp); destruct (execIO w i k); cbn [fst] in *;
         by rewrite fetchesOf_cons_other).
  - simpl. lia.
  - simpl. lia.
  - destruct n as [|n]; [by simpl in Hp|].
    specialize (IH (respond w i u o) n (S i) (Hp _)).
    destruct (execIO w (S i) _). cbn [fst] in *. rewrite fetchesOf_cons_fetch. simpl. lia.
Qed.
End Structure.

Lemma reportsSuccessLast_bind {A : Type} (p : io A) (f : A -> io unit) :
  quiet p -> (forall a, reportsSuccessLast (f a)) -> reportsSuccessLast (p ≫= f).
Proof.
  intros Hp Hf. induction p as [a|e|m k IH|nm v k IH|er k IH|u o k IH]; simpl in *; auto; done.
Qed.

(** A body that reports success last, inside a [try] whose handler reports
    the failure: the run returns, and it reports exactly once, at the
    end. *)
Lemma tryCatch_reports_once (w : world) (n : nat) (p : io unit) :
  reportsSuccessLast p ->
  exists t final,
    execIO w n (tryCatch p (fun error => SetFailed error (Ret tt))) = (t ++ [final], Ok tt)
    /\ Forall (fun e => isReport e = false) t /\ isReport final = true.
Proof.
  revert n. induction p as [[]|e|m k IH|nm v k IH|er k IH|u o k IH]; intros n Hp; simpl in *.
  - done.
  - by exists [], (EvSetFailed e).
  - destruct (IH n Hp) as (t & final & -> & Ht & Hf).
    exists (EvInfo m :: t), final. split_and!; [done|by constructor|done].
  - subst k. by exists [], (EvSetOutput nm v).
  - done.
  - destruct (IH (respond w n u o) (S n) (Hp _)) as (t & final & -> & Ht & Hf).
    exists (EvFetch u o :: t), final. split_and!; [done|by constructor|done].
Qed.

Lemma fetchBound_tryCatch {A : Type} (n : nat) (p : io A) (h : jsError -> io A) :
  fetchBound n p -> (forall e, fetchBound 0 (h e)) -> fetchBound n (tryCatch p h).
Proof.
  intros Hp Hh. revert n Hp.
  induction p as [a|e|ms k IH|nm v k IH|er k IH|u o k IH]; intros n Hp; simpl in *; auto.
  - apply (fetchBound_mono 0); [lia|]. apply Hh.
  - destruct n as [|n]; [done|]. intros r. apply IH, Hp.
Qed.

Lemma quiet_fetchThen (url : str) (options : fetchOptions) : quiet (fetchThen url options).
Proof. intros r. apply quiet_liftResult. Qed.

Lemma fetchBound_fetchThen (url : str) (options : fetchOptions) :
  fetchBound 1 (fetchThen url options).
Proof. intros r. apply fetchBound_liftResult. Qed.

#[export] Hint Resolve quiet_liftResult quiet_fetchThen : io.
#[export] Hint Resolve fetchBound_liftResult fetchBound_fetchThen : io.

(** ** What every request of a program satisfies *)

Section Requests.
Context {A B : Type} (P : event -> Prop).
Implicit Types (p : io A) (f : A -> io B).

Lemma requestsAll_liftResult (r : result A) : requestsAll P (liftResult r).
Proof. by destruct r. Qed.

Lemma requestsAll_bind p f :
  requestsAll P p -> (forall a, requestsAll P (f a)) -> requestsAll P (p ≫= f).
Proof.
  intros Hp Hf. induction p as [a|e|m k IH|nm v k IH|er k IH|u o k IH]; simpl in *; auto.
  destruct Hp as [Hu Hk]. auto.
Qed.

Lemma requestsAll_tryCatch p (h : jsError -> io A) :
  requestsAll P p -> (forall e, requestsAll P (h e)) -> requestsAll P (tryCatch p h).
Proof.
  intros Hp Hh. induction p as [a|e|m k IH|nm v k IH|er k IH|u o k IH]; simpl in *; auto.
  destruct Hp as [Hu Hk]. auto.
Qed.

Lemma requestsAll_execIO (w : world) (i : nat) p :
  requestsAll P p -> Forall P (fetchesOf (execIO w i p).1).
Proof.
  revert i. induction p as [a|e|ms k IH|nm v k IH|er k IH|u o k IH]; intros i Hp;
    cbn [execIO requestsAll] in *;
    try (specialize (IH i Hp); destruct (execIO w i k); cbn [fst] in *;
         by rewrite fetchesOf_cons_other).
  - constructor.
  - constructor.
  - destruct Hp as [Hu Hk]. specialize (IH (respond w i u o) (S i) (Hk _)).
    destruct (execIO w (S i) _). cbn [fst] in *. rewrite fetchesOf_cons_fetch. by constructor.
Qed.
End Requests.

Lemma requestsAll_fetchThen (P : event -> Prop) (url : str) (options : fetchOptions) :
  P (EvFetch url options) -> requestsAll P (fetchThen url options).
Proof. intros HP. split; [done|]. intros r. apply requestsAll_liftResult. Qed.

(** ** Worlds that give the same answers *)

#[export] Instance world_equivalence : Equivalence (≡@{world}).
Proof.
  split; [done|intros w1 w2 Hw j u o; by rewrite Hw|].
  intros w1 w2 w3 H12 H23 j u o. by rewrite H12.
Qed.

(** A program that makes at most [n] requests sees the answers to these
    requests only. *)
Lemma execIO_agree {A : Type} (w1 w2 : world) (n i : nat) (p : io A) :
  fetchBound n p -> agree i n w1 w2 -> execIO w1 i p = execIO w2 i p.
Proof.
  revert n i. induction p as [a|e|ms k IH|nm v k IH|er k IH|u o k IH]; intros n i Hp Hw;
    cbn [execIO fetchBound] in *; try done; try by rewrite (IH n i).
  destruct n as [|n]; [done|]. rewrite (Hw i u o) by lia.
  rewrite (IH _ n (S i)); [done|apply Hp|]. intros j u' o' Hj. apply Hw. lia.
Qed.

(** Equivalent worlds give the same run of every program. *)
#[export] Instance execIO_proper {A : Type} :
  Proper ((≡) ==> (=) ==> (=) ==> (=)) (@execIO A).
Proof.
  intros w1 w2 Hw i ? <- p ? <-. revert i.
  induction p as [a|e|ms k IH|nm v k IH|er k IH|u o k IH]; intros i;
    cbn [execIO]; try done; try by rewrite IH.
  by rewrite Hw, IH.
Qed.
