(* ===== verification/Steps.v ===== *)
(** * Steps: a run of the action, one call at a time

    [execIO] of [Effects] gives the whole trace of a program at once.
    This file gives the same programs a transition relation: a
    configuration is what is left of the program, the number of requests
    sent and the events so far, and a step performs the call at the head
    of the program.  The relation is functional ([stepOf] computes it),
    every sequence of steps ends, and the configuration in which it ends
    is the one [execIO] computes.

    A [world] answers every request.  A [network] may leave a request
    without an answer: the promise of [fetch], or of [json()] on its
    response, never settles, and the run stays suspended at its [await]
    ([nstep], [suspended]).  [eventually] is stated over networks, and
    [completes] computes whether the network answers the requests that
    a program comes to make. *)

From Stdlib Require Import Ascii String Arith Lia.
From stdpp Require Import base tactics option list relations.
From S2P Require Import Prelude JsString JsValue Effects.

#[local] Open Scope str_scope.

(** ** Configurations and steps *)

(** A configuration of a run. *)
Record config (A : Type) : Type := Config {
  remaining : io A;        (* what is left of the program *)
  requests : nat;          (* the number of requests sent *)
  emitted : list event     (* the calls made, in order *)
}.
Arguments Config {A} remaining requests emitted.
Arguments remaining {A} c.
Arguments requests {A} c.
Arguments emitted {A} c.

(** One call of the program, in the world [w]. *)
Inductive step {A : Type} (w : world) : config A -> config A -> Prop :=
| step_info message k n t :
    step w (Config (LogInfo message k) n t) (Config k n (t ++ [EvInfo message]))
| step_output name value k n t :
    step w (Config (SetOutput name value k) n t) (Config k n (t ++ [EvSetOutput name value]))
| step_failed error k n t :
    step w (Config (SetFailed error k) n t) (Config k n (t ++ [EvSetFailed error]))
| step_fetch url options k n t :
    step w (Config (Fetch url options k) n t)
      (Config (k (respond w n url options)) (S n) (t ++ [EvFetch url options])).

(** The step of a configuration, when it has one. *)
Definition stepOf {A : Type} (w : world) (c : config A) : option (config A) :=
  match remaining c with
  | Ret _ | Raise _ => None
  | LogInfo message k => Some (Config k (requests c) (emitted c ++ [EvInfo message]))
  | SetOutput name value k =>
      Some (Config k (requests c) (emitted c ++ [EvSetOutput name value]))
  | SetFailed error k => Some (Config k (requests c) (emitted c ++ [EvSetFailed error]))
  | Fetch url options k =>
      Some (Config (k (respond w (requests c) url options)) (S (requests c))
              (emitted c ++ [EvFetch url options]))
  end.

(** [stepsOf w fuel c] takes up to [fuel] steps from [c]. *)
Fixpoint stepsOf {A : Type} (w : world) (fuel : nat) (c : config A) : config A :=
  match fuel with
  | 0 => c
  | S fuel' =>
      match stepOf w c with
      | Some c' => stepsOf w fuel' c'
      | None => c
      end
  end.

(** The outcome of a configuration that has no call left. *)
Definition outcomeOf {A : Type} (c : config A) : option (result A) :=
  match remaining c with
  | Ret a => Some (Ok a)
  | Raise e => Some (Throw e)
  | _ => None
  end.

(** [final c]: the program has returned or thrown. *)
Definition final {A : Type} (c : config A) : Prop := is_Some (outcomeOf c).

(** The configuration in which a program starts. *)
Definition initial {A : Type} (p : io A) : config A := Config p 0 [].

(** The configuration in which [execIO] says that a program ends. *)
Definition endOf {A : Type} (w : world) (c : config A) : config A :=
  let '(t, r) := execIO w (requests c) (remaining c) in
  Config (liftResult r) (requests c + length (fetchesOf t)) (emitted c ++ t).

(** ** Networks *)

(** A network answers the [n]-th request of a run or leaves it pending:
    [None] is a promise that never settles. *)
Record network : Type := Network {
  answer : nat -> str -> fetchOptions -> option (result httpResponse)
}.

(** The network of a world: every request is answered. *)
Definition settled (w : world) : network :=
  Network (fun n url options => Some (respond w n url options)).

(** [extends w net]: the world answers as the network does, wherever the
    network answers. *)
Definition extends (w : world) (net : network) : Prop :=
  forall n url options r, answer net n url options = Some r -> respond w n url options = r.

(** One call of the program in the network [net]: a request takes its
    step when it is answered. *)
Inductive nstep {A : Type} (net : network) : config A -> config A -> Prop :=
| nstep_info message k n t :
    nstep net (Config (LogInfo message k) n t) (Config k n (t ++ [EvInfo message]))
| nstep_output name value k n t :
    nstep net (Config (SetOutput name value k) n t) (Config k n (t ++ [EvSetOutput name value]))
| nstep_failed error k n t :
    nstep net (Config (SetFailed error k) n t) (Config k n (t ++ [EvSetFailed error]))
| nstep_fetch url options k n t r :
    answer net n url options = Some r ->
    nstep net (Config (Fetch url options k) n t) (Config (k r) (S n) (t ++ [EvFetch url options])).

(** The step of a configuration in a network, when it has one. *)
Definition nstepOf {A : Type} (net : network) (c : config A) : option (config A) :=
  match remaining c with
  | Ret _ | Raise _ => None
  | LogInfo message k => Some (Config k (requests c) (emitted c ++ [EvInfo message]))
  | SetOutput name value k =>
      Some (Config k (requests c) (emitted c ++ [EvSetOutput name value]))
  | SetFailed error k => Some (Config k (requests c) (emitted c ++ [EvSetFailed error]))
  | Fetch url options k =>
      r ← answer net (requests c) url options;
      Some (Config (k r) (S (requests c)) (emitted c ++ [EvFetch url options]))
  end.

(** [nstepsOf net fuel c] takes up to [fuel] steps from [c]. *)
Fixpoint nstepsOf {A : Type} (net : network) (fuel : nat) (c : config A) : config A :=
  match fuel with
  | 0 => c
  | S fuel' =>
      match nstepOf net c with
      | Some c' => nstepsOf net fuel' c'
      | None => c
      end
  end.

(** [suspended net c]: the run waits for the answer to the request at the
    head of its program, and the network gives none. *)
Definition suspended {A : Type} (net : network) (c : config A) : Prop :=
  match remaining c with
  | Fetch url options _ => answer net (requests c) url options = None
  | _ => False
  end.

(** [completes net n p]: the network answers every request that the
    program comes to make after [n] requests. *)
Fixpoint completes {A : Type} (net : network) (n : nat) (p : io A) : bool :=
  match p with
  | Ret _ | Raise _ => true
  | LogInfo _ k | SetOutput _ _ k | SetFailed _ k => completes net n k
  | Fetch url options k =>
      match answer net n url options with
      | Some r => completes net (S n) (k r)
      | None => false
      end
  end.

(** [answersFrom net n t]: the network answers the requests among the
    events [t], the first of which is the [n]-th request of the run. *)
Fixpoint answersFrom (net : network) (n : nat) (t : list event) : bool :=
  match t with
  | [] => true
  | EvFetch url options :: t' =>
      bool_decide (is_Some (answer net n url options)) && answersFrom net (S n) t'
  | _ :: t' => answersFrom net n t'
  end.

(** [eventually net P c]: every sequence of steps from [c] reaches a
    configuration in which [P] holds. *)
Inductive eventually {A : Type} (net : network) (P : config A -> Prop) (c : config A) : Prop :=
| eventually_now : P c -> eventually net P c
| eventually_step :
    (exists c', nstep net c c') -> (forall c', nstep net c c' -> eventually net P c') ->
    eventually net P c.

(** [counted c]: the requests sent are the requests of the events. *)
Definition counted {A : Type} (c : config A) : Prop :=
  requests c = length (fetchesOf (emitted c)).

(** [noReport t]: no event of [t] reports an outcome. *)
Definition noReport (t : list event) : Prop := Forall (fun e => isReport e = false) t.

(** [reportsOnce p]: on every path the program makes one report, as its
    last call, and returns. *)
Fixpoint reportsOnce (p : io unit) : Prop :=
  match p with
  | Ret _ | Raise _ => False
  | LogInfo _ k => reportsOnce k
  | SetOutput _ _ k | SetFailed _ k => k = Ret tt
  | Fetch _ _ k => forall r, reportsOnce (k r)
  end.

(** [reported c]: the run has returned, and its last event is its only
    report. *)
Definition reported (c : config unit) : Prop :=
  remaining c = Ret tt
  /\ exists t e, emitted c = t ++ [e] /\ noReport t /\ isReport e = true.

(** [reporting c]: nothing is reported yet and the program will report
    once, or the run has [reported]. *)
Definition reporting (c : config unit) : Prop :=
  (noReport (emitted c) /\ reportsOnce (remaining c)) \/ reported c.

(** ** The relation and the function *)

Section Steps.
Context {A : Type} (w : world).
Implicit Types (c : config A) (p : io A).

Lemma step_stepOf c c' : step w c c' <-> stepOf w c = Some c'.
Proof.
  split.
  - by intros [].
  - destruct c as [[] n t]; intros [= <-]; constructor.
Qed.

(** The relation is functional. *)
Lemma step_deterministic c c1 c2 : step w c c1 -> step w c c2 -> c1 = c2.
Proof. rewrite !step_stepOf. congruence. Qed.

(** A configuration is final or steps, and not both. *)
Lemma step_progress c : final c \/ exists c', step w c c'.
Proof.
  destruct (stepOf w c) as [c'|] eqn:E; [right; exists c'; by apply step_stepOf|].
  left. unfold final, outcomeOf. destruct c as [[] n t]; by simplify_eq/=.
Qed.

Lemma final_nf c : final c -> nf (step w) c.
Proof.
  intros [r Hr] [c' Hc'%step_stepOf]. unfold outcomeOf, stepOf in *.
  by destruct (remaining c).
Qed.

(** Every sequence of steps ends. *)
Lemma step_sn c : sn (step w) c.
Proof.
  destruct c as [p n t]. revert n t.
  induction p as [a|e|m k IH|nm v k IH|er k IH|u o k IH]; intros n t;
    constructor; intros c' Hc'; inversion Hc'; subst; auto.
Qed.

(** The function [stepsOf] follows the relation. *)
Lemma stepsOf_steps (fuel : nat) c : rtc (step w) c (stepsOf w fuel c).
Proof.
  revert c. induction fuel as [|fuel IH]; intros c; simpl; [done|].
  destruct (stepOf w c) as [c'|] eqn:E; [|done].
  eapply rtc_l; [by apply step_stepOf|apply IH].
Qed.

(** ** Steps and [execIO] *)

Lemma endOf_final c : final (endOf w c).
Proof.
  unfold endOf, final, outcomeOf. destruct (execIO w _ _) as [t [a|e]]; simpl; eauto.
Qed.

Lemma endOf_step c c' : step w c c' -> endOf w c = endOf w c'.
Proof.
  intros []; unfold endOf; cbn [remaining requests emitted execIO];
    destruct (execIO w _ _) as [t' r]; rewrite <- (assoc_L (++));
    rewrite ?fetchesOf_cons_fetch, ?fetchesOf_cons_other by done; cbn [length app];
    by rewrite ?Nat.add_succ_r.
Qed.

Lemma endOf_of_final c : final c -> endOf w c = c.
Proof.
  destruct c as [[] n t]; intros [r Hr]; try done; unfold endOf; simpl;
    by rewrite Nat.add_0_r, app_nil_r.
Qed.

(** The steps of a program lead to the configuration of [execIO]. *)
Lemma steps_endOf c : rtc (step w) c (endOf w c).
Proof.
  induction (step_sn c) as [c _ IH]. destruct (step_progress c) as [Hf|[c' Hc']].
  - by rewrite endOf_of_final.
  - rewrite (endOf_step c c' Hc'). eapply rtc_l; [exact Hc'|]. by apply IH.
Qed.

Lemma rtc_endOf c c' : rtc (step w) c c' -> endOf w c = endOf w c'.
Proof. induction 1 as [|c1 c2 c3 H12 _ IH]; [done|]. by rewrite (endOf_step _ _ H12). Qed.

(** The two semantics agree: a sequence of steps from a program ends
    in a final configuration exactly when that configuration is the one
    that [execIO] computes. *)
Theorem steps_execIO c c' :
  rtc (step w) c c' /\ final c' <-> c' = endOf w c.
Proof.
  split.
  - intros [Hs Hf]. by rewrite (rtc_endOf _ _ Hs), endOf_of_final.
  - intros ->. split; [apply steps_endOf|apply endOf_final].
Qed.

(** The counter of a run is the number of requests among its
    events, in every configuration that the run reaches: the n-th request
    is the one that the world answers as its n-th. *)
Lemma counted_reachable p c : rtc (step w) (initial p) c -> counted c.
Proof.
  revert c. apply (rtc_ind_r (R := step w) counted); [done|]. intros c1 c2 _ Hstep IH.
  destruct Hstep; unfold counted, fetchesOf in *; cbn [requests emitted] in *;
    rewrite filter_app, length_app; simpl; lia.
Qed.

(** ** Eventually *)

(** The events of a configuration are the first events of the run: a
    step adds an event and takes none back. *)
Lemma emitted_endOf c :
  emitted (endOf w c) = emitted c ++ (execIO w (requests c) (remaining c)).1.
Proof. unfold endOf. by destruct (execIO w _ _). Qed.

Lemma steps_prefix p c :
  rtc (step w) (initial p) c -> emitted c `prefix_of` (execIO w 0 p).1.
Proof.
  intros Hs%rtc_endOf. pose proof (emitted_endOf (initial p)) as Hp.
  rewrite Hs, emitted_endOf in Hp. cbn [initial emitted requests remaining app] in Hp.
  rewrite <- Hp. by eexists.
Qed.

End Steps.

(** ** The report of a run *)

(** A body that reports success last, inside a [try] whose handler reports
    the failure, reports once. *)
Lemma tryCatch_reportsOnce (p : io unit) :
  reportsSuccessLast p -> reportsOnce (tryCatch p (fun error => SetFailed error (Ret tt))).
Proof.
  induction p as [[]|e|m k IH|nm v k IH|er k IH|u o k IH]; simpl; auto.
  - by intros ->.
  - done.
Qed.


(** ** Steps in a network *)

Section Network.
Context {A : Type} (net : network).
Implicit Types (c : config A) (p : io A) (P : config A -> Prop).

(** A world is the network that answers every request as it does. *)
Lemma step_settled (w : world) c c' : step w c c' <-> nstep (settled w) c c'.
Proof.
  split.
  - intros []; by constructor.
  - intros [| | |u o k n t r [= <-]]; constructor.
Qed.

(** A step in a network is a step in every world that extends it. *)
Lemma nstep_step (w : world) c c' : extends w net -> nstep net c c' -> step w c c'.
Proof.
  intros Hw [| | |u o k n t r Hr]; [constructor..|]. rewrite <- (Hw _ _ _ _ Hr). constructor.
Qed.

Lemma nstep_nstepOf c c' : nstep net c c' <-> nstepOf net c = Some c'.
Proof.
  split.
  - intros [| | |u o k n t r Hr]; unfold nstepOf; simpl; [done..|by rewrite Hr].
  - destruct c as [[a|e|m k|nm v k|er k|u o k] n t]; unfold nstepOf; simpl;
      try done; try (intros [= <-]; constructor).
    destruct (answer net n u o) as [r|] eqn:E; intros [= <-]. by constructor.
Qed.

(** The function [nstepsOf] follows the relation. *)
Lemma nstepsOf_steps (fuel : nat) c : rtc (nstep net) c (nstepsOf net fuel c).
Proof.
  revert c. induction fuel as [|fuel IH]; intros c; simpl; [done|].
  destruct (nstepOf net c) as [c'|] eqn:E; [|done].
  eapply rtc_l; [by apply nstep_nstepOf|apply IH].
Qed.

Lemma nsteps_steps (w : world) c c' :
  extends w net -> rtc (nstep net) c c' -> rtc (step w) c c'.
Proof. intros Hw. induction 1; [done|]. eapply rtc_l; [by eapply nstep_step|done]. Qed.

Lemma nstep_deterministic c c1 c2 : nstep net c c1 -> nstep net c c2 -> c1 = c2.
Proof. intros H1 H2. destruct H1; inversion H2; congruence. Qed.

(** A configuration is final, or suspended, or it takes a step. *)
Lemma nstep_progress c : final c \/ suspended net c \/ exists c', nstep net c c'.
Proof.
  destruct c as [[a|e|m k|nm v k|er k|u o k] n t]; unfold final, suspended; simpl;
    try (by left; eauto); try (by right; right; eexists; constructor).
  destruct (answer net n u o) as [r|] eqn:E; [|by right; left].
  right; right. eexists. by constructor.
Qed.

(** A suspended run stays where it is. *)
Lemma suspended_nf c : suspended net c -> nf (nstep net) c.
Proof. intros Hs [c' Hc']. destruct Hc'; unfold suspended in Hs; simpl in Hs; congruence. Qed.

Lemma suspended_not_final c : suspended net c -> ~ final c.
Proof. unfold suspended, final, outcomeOf. intros Hs [r Hr]. by destruct (remaining c). Qed.

(** A step keeps what is left to answer. *)
Lemma completes_nstep c c' :
  nstep net c c' ->
  completes net (requests c') (remaining c') = completes net (requests c) (remaining c).
Proof. intros [| | |u o k n t r Hr]; simpl; [done..|by rewrite Hr]. Qed.

Lemma eventually_weaken P (Q : config A -> Prop) c :
  (forall c', P c' -> Q c') -> eventually net P c -> eventually net Q c.
Proof. intros HPQ. induction 1; [apply eventually_now|apply eventually_step]; auto. Qed.

Lemma eventually_next P c c' : nstep net c c' -> eventually net P c' -> eventually net P c.
Proof.
  intros Hs He. apply eventually_step; [by exists c'|].
  intros c'' Hc''. by rewrite (nstep_deterministic _ _ _ Hc'' Hs).
Qed.

(** A run that is sure to end is answered at each of its requests. *)
Lemma eventually_completes P c :
  (forall c', P c' -> final c') -> eventually net P c ->
  completes net (requests c) (remaining c) = true.
Proof.
  intros HP. induction 1 as [c Hc|c [c' Hc'] _ IH].
  - destruct (HP c Hc) as [r Hr]. unfold outcomeOf in Hr. by destruct (remaining c).
  - rewrite <- (completes_nstep c c' Hc'). by apply IH.
Qed.

(** A run that is answered at each of its requests ends, and what every
    step keeps holds where it ends. *)
Lemma completes_eventually (I : config A -> Prop) c :
  (forall c1 c2, I c1 -> nstep net c1 c2 -> I c2) -> I c ->
  completes net (requests c) (remaining c) = true ->
  eventually net (fun c' => final c' /\ I c') c.
Proof.
  intros HI. destruct c as [p n t]. revert n t.
  induction p as [a|e|m k IH|nm v k IH|er k IH|u o k IH]; intros n t Hc Hp; simpl in Hp;
    [apply eventually_now; split; [by eexists|done]..| | | |].
  1-3: eapply eventually_next; [constructor|]; apply IH; [|done]; eapply HI; [exact Hc|constructor].
  destruct (answer net n u o) as [r|] eqn:E; [|done].
  eapply eventually_next; [by constructor|]. apply IH; [|done].
  eapply HI; [exact Hc|by constructor].
Qed.

(** A run that is not answered at one of its requests reaches that
    request and is suspended there. *)
Lemma not_completes_suspended c :
  completes net (requests c) (remaining c) = false ->
  exists c', rtc (nstep net) c c' /\ suspended net c'.
Proof.
  destruct c as [p n t]. revert n t.
  induction p as [a|e|m k IH|nm v k IH|er k IH|u o k IH]; intros n t Hp; simpl in Hp; [done..| | | |].
  1-3: edestruct (IH n) as (c' & Hs & Hc'); [exact Hp|]; exists c'; split; [|done];
       eapply rtc_l; [constructor|exact Hs].
  destruct (answer net n u o) as [r|] eqn:E.
  - edestruct (IH r (S n)) as (c' & Hs & Hc'); [exact Hp|]. exists c'. split; [|done].
    eapply rtc_l; [by constructor|exact Hs].
  - by eexists.
Qed.

(** The requests that the network has to answer are those of the trace
    in a world that extends it. *)
Lemma completes_answersFrom (w : world) (n : nat) p :
  extends w net -> completes net n p = answersFrom net n (execIO w n p).1.
Proof.
  intros Hw. revert n.
  induction p as [a|e|m k IH|nm v k IH|er k IH|u o k IH]; intros n; simpl; [done..| | | |].
  1-3: rewrite IH; by destruct (execIO w n k).
  destruct (answer net n u o) as [r|] eqn:E.
  - rewrite (Hw _ _ _ _ E), IH. destruct (execIO w (S n) (k r)). simpl. by rewrite E.
  - destruct (execIO w (S n) _). simpl. by rewrite E.
Qed.
End Network.

Lemma answersFrom_fetchesOf (net : network) (n : nat) (t : list event) :
  answersFrom net n (fetchesOf t) = answersFrom net n t.
Proof.
  revert n. induction t as [|e t IH]; intros n; [done|].
  destruct e; rewrite ?fetchesOf_cons_fetch, ?fetchesOf_cons_other by done; simpl; by rewrite IH.
Qed.

Section Reports.
Context (net : network).
Implicit Types (c : config unit) (p : io unit).

Lemma noReport_snoc (t : list event) (e : event) :
  noReport t -> isReport e = false -> noReport (t ++ [e]).
Proof. intros Ht He. apply Forall_app. split; [done|by constructor]. Qed.

(** A step keeps the invariant. *)
Lemma reporting_nstep c c' : reporting c -> nstep net c c' -> reporting c'.
Proof.
  intros [[Ht Hp]|[Hr _]] Hs; [|destruct Hs; discriminate Hr].
  destruct Hs as [m k n t|nm v k n t|er k n t|u o k n t r _];
    cbn [remaining emitted reportsOnce] in *.
  - left. by split; [apply noReport_snoc|].
  - right. split; [done|]. by exists t, (EvSetOutput nm v).
  - right. split; [done|]. by exists t, (EvSetFailed er).
  - left. by split; [apply noReport_snoc|apply Hp].
Qed.

Lemma reporting_rtc c c' : reporting c -> rtc (nstep net) c c' -> reporting c'.
Proof. intros Hc Hs. induction Hs; eauto using reporting_nstep. Qed.

Lemma reporting_initial p : reportsOnce p -> reporting (initial p).
Proof. intros Hp. left. by split; [constructor|]. Qed.

Lemma reporting_final c : reporting c -> final c -> reported c.
Proof.
  intros [[_ Hp]|Hr] [r Hf]; [|done]. unfold outcomeOf in Hf. by destruct (remaining c).
Qed.

Lemma reported_final c : reported c -> final c.
Proof. intros [Hr _]. unfold final, outcomeOf. rewrite Hr. by eexists. Qed.

Lemma reporting_suspended c : reporting c -> suspended net c -> noReport (emitted c).
Proof.
  intros [[Ht _]|[Hr _]] Hs; [done|]. unfold suspended in Hs. by rewrite Hr in Hs.
Qed.

(** A program that reports once has eventually reported exactly when the
    network answers each of its requests. *)
Lemma reportsOnce_eventually p :
  reportsOnce p -> eventually net reported (initial p) <-> completes net 0 p = true.
Proof.
  intros Hp. split.
  - apply (eventually_completes net reported (initial p)), reported_final.
  - intros Hc. eapply eventually_weaken;
      [|apply (completes_eventually net reporting (initial p));
          [apply reporting_nstep|by apply reporting_initial|done]].
    intros c' [Hf Hr]. by apply reporting_final.
Qed.

(** Otherwise it is suspended at a request, and nothing is reported. *)
Lemma reportsOnce_suspended p :
  reportsOnce p -> completes net 0 p = false ->
  exists c, rtc (nstep net) (initial p) c /\ suspended net c /\ noReport (emitted c).
Proof.
  intros Hp Hc. destruct (not_completes_suspended net (initial p) Hc) as (c & Hs & Hsus).
  exists c. split_and!; [done..|].
  eapply reporting_suspended; [|done]. eapply reporting_rtc; [by apply reporting_initial|done].
Qed.
End Reports.
