(* ===== verification/Action.v ===== *)
(** * Action: the authenticator and the command dispatcher

    The functions of [src/index.js] that talk to the API: [getOauthToken]
    (lines 29 to 44), [optionsWithAuth] (lines 47 to 56) and [command]
    (lines 58 to 80), as programs over the effects of [Effects], with the
    test of the token of line 127 and the messages of [run].  [getInput]
    is the configuration that the toolkit's [core.getInput] reads; the
    engine's primitive is a parameter as in [JsValue]. *)

From Stdlib Require Import Ascii String Arith Lia.
From stdpp Require Import base tactics option list.
From S2P Require Import Prelude JsString RegExp Patterns JsValue Json Decoder Registry Effects.

#[local] Open Scope str_scope.

(** Line 4. *)
Definition cloudwaysApiUrl : str := "https://api.cloudways.com/api/v1".

(** The address of the token endpoint (line 43). *)
Definition tokenUrl : str := cloudwaysApiUrl ++ "/oauth/access_token".

(** What [command] resolves with (lines 73 to 77). *)
Record commandResponse : Type := CommandResponse {
  ok : bool;
  code : nat;
  responseBody : jsval
}.

(** Lines 64 to 66: each declared name takes the next parameter; a name
    for which no parameter is left takes [undefined]. *)
Fixpoint fillBody (names : list str) (body : jsObject) (params : jsArray str) : jsObject :=
  match names with
  | [] => body
  | parameter :: names' =>
      let '(v, params') := arrayShift params in
      fillBody names' (objSet body parameter v) params'
  end.

(** Lines 47 to 56. *)
Definition optionsWithAuth (body : jsObject) (accessToken : option jsval) : result fetchOptions :=
  bearer ← toStrOpt accessToken;
  Ok (FetchOptions "POST" (jsonStringify (objToJson body))
        [("Content-Type", "application/json"); ("Authorization", "Bearer " ++ bearer)]).

(** The error of line 115. *)
Definition notUnderstood (operation : option str) : jsError :=
  UserError ("Cloudways API operation '" ++ toPropertyKey operation ++ "' not understood").

(** The message of line 116. *)
Definition foundMessage (operation : option str) : str :=
  "Found Cloudways API operation: '" ++ toPropertyKey operation ++ "'".

(** The message of line 138. *)
Definition successMessage (data : jsval) : str :=
  "Success! Received response from Cloudways: " ++ jsonStringify data.

Section Action.
Context `{JsEngine} (getInput : str -> str).

(** Lines 30 to 41: the request for a token. *)
Definition tokenRequest : fetchOptions :=
  let body := [("email", Some (getInput "email")); ("api_key", Some (getInput "api-key"))] in
  FetchOptions "POST" (jsonStringify (objToJson body))
    [("Content-Type", "application/json")].

(** Lines 29 to 44. *)
Definition getOauthToken : io jsval :=
  res ← fetchThen tokenUrl tokenRequest;
  liftResult (respJson res).

(** Lines 60 to 66: the body of the request of an operation. *)
Definition commandBody (config : endpointConfig) (params : jsArray str) : jsObject :=
  fillBody (Registry.params config) [("server_id", Some (getInput "server-id"))] params.

(** Lines 58 to 80.  [endpointConfig] is what the lookup of line 114
    found: on [undefined] the read of line 59 throws, and on a value
    inherited from [Object.prototype], which has no property [params],
    the loop of line 64 is given [undefined] and throws. *)
Definition command (endpointConfig : lookupResult) (params : jsArray str)
    (accessToken : option jsval) : io commandResponse :=
  match endpointConfig with
  | OwnConfig config =>
      options ← liftResult (optionsWithAuth (commandBody config params) accessToken);
      response ← fetchThen (cloudwaysApiUrl ++ endpoint config) options;
      data ← liftResult (respJson response);
      mret (CommandResponse (respOk response) (respStatus response) data)
  | Inherited => Raise (TypeError NotIterable)
  | Missing => Raise (TypeError (ReadPropertyOfUndefined "endpoint"))
  end.

(** Line 127: [!token.access_token || token.access_token.legnth == 0]. *)
Definition tokenMissing (accessToken : option jsval) : result bool :=
  if negb (truthy accessToken) then Ok true
  else legnth ← getProp accessToken "legnth"; looseEqZero legnth.
End Action.

(** ** Examples *)

(** An engine for the examples; no example compares a string with zero. *)
Definition exampleEngine : JsEngine := {| stringIsZero := fun s => bool_decide (s = "0") |}.

Definition exampleInputs (operation : str) (name : str) : str :=
  if bool_decide (name = "email") then "me@example.com"
  else if bool_decide (name = "api-key") then "k3y"
  else if bool_decide (name = "server-id") then "42"
  else if bool_decide (name = "operation") then operation
  else "".

(** A world whose token endpoint answers with [token] and whose operation
    endpoint answers with [data], with the status [status]. *)
Definition worldOf (token : jsval) (okay : bool) (status : nat) (data : jsval) : world :=
  World (fun n url options =>
    match n with
    | 0 => Ok (HttpResponse true 200 (Ok token))
    | _ => Ok (HttpResponse okay status (Ok data))
    end).

(** A world in which the token endpoint answers with a token and the
    operation endpoint with a 200 and a message. *)
Definition exampleWorld : world :=
  worldOf (JObj [("access_token", JStr "t0k")]) true 200 (JObj [("message", JStr "ok")]).

(** A world in which the token endpoint refuses the credentials. *)
Definition deniedWorld : world :=
  worldOf (JObj [("error", JStr "invalid_credentials");
                 ("error_description", JStr "Invalid credentials")]) true 200 JNull.

(** A world in which the operation endpoint refuses the operation. *)
Definition failingWorld : world :=
  worldOf (JObj [("access_token", JStr "t0k")]) false 422
    (JObj [("error_description", JStr "An operation is already in progress")]).

(** ** The body of a request *)

(** The loop of lines 64 to 66 on names that the body does not have yet,
    with one parameter for each: the pairs are added in order. *)
Lemma fillBody_fresh (names : list str) (body : jsObject) (ps : jsArray str) :
  NoDup names -> (forall name, name ∈ names -> name ∉ body.*1) ->
  length names = length ps ->
  fillBody names body ps = body ++ zip names ps.
Proof.
  revert body ps. induction names as [|name names IH]; intros body [|p ps]; try done.
  { intros. simpl. by rewrite app_nil_r. }
  intros [Hname Hnames]%NoDup_cons Hbody [= Hlen]. simpl.
  rewrite objSet_fresh by (apply Hbody; left).
  rewrite IH, <- (assoc_L (++)); [done..| |done].
  intros n Hn. rewrite fmap_app, elem_of_app. csimpl. rewrite list_elem_of_singleton.
  intros [Hin| ->]; [by apply (Hbody n); [right|]|done].
Qed.

(** Without parameters, every name is set to [undefined]. *)
Lemma fillBody_short (names : list str) (body : jsObject) :
  fillBody names body [] = fold_left (fun o name => objSet o name None) names body.
Proof. revert body. induction names as [|n names IH]; intros body; simpl; [done|apply IH]. Qed.

(** A token that is not a string: [true], and an object without a
    property [legnth], pass the test of line 127 and are sent as their
    text. *)
Lemma tokenMissing_JObj `{JsEngine} (fields : list (str * jsval)) :
  assoc "legnth" fields = None -> tokenMissing (Some (JObj fields)) = Ok false.
Proof. intros Hf. unfold tokenMissing. simpl. by rewrite Hf. Qed.

Example optionsWithAuth_not_string :
  (options ← optionsWithAuth [] (Some (JBool true)); Ok (headers options))
  = Ok [("Content-Type", "application/json"); ("Authorization", "Bearer true")]
  /\ (options ← optionsWithAuth [] (Some (JObj [])); Ok (headers options))
     = Ok [("Content-Type", "application/json"); ("Authorization", "Bearer [object Object]")].
Proof. done. Qed.

(** The body of the request of an operation is a text that reads as the
    body that was built, without the properties that are [undefined]. *)
Lemma optionsWithAuth_body_reads (o : jsObject) (accessToken : option jsval)
    (options : fetchOptions) :
  optionsWithAuth o accessToken = Ok options -> jsonRead (body options) = Some (objToJson o).
Proof.
  unfold optionsWithAuth. destruct (toStrOpt accessToken); [|done].
  intros [= <-]. apply jsonRead_objToJson.
Qed.

(** C31. The body of the token request reads as an object with the two
    members [email] and [api_key], whose values are the two inputs as
    they are: whatever characters the address and the key hold, they
    end no string and add no member. *)
Theorem tokenRequest_body_reads (getInput : str -> str) :
  jsonRead (body (tokenRequest getInput))
  = Some (JObj [("email", JStr (getInput "email")); ("api_key", JStr (getInput "api-key"))]).
Proof. apply jsonRead_objToJson. Qed.

Section Body.
Context `{JsEngine} (getInput : str -> str).

(** The body of the request of a well-formed entry with one parameter for
    each name: the server and then each name with its parameter. *)
Lemma commandBody_wellFormed (config : endpointConfig) (ps : jsArray str) :
  wellFormedConfig config -> length (params config) = length ps ->
  commandBody getInput config ps
  = ("server_id", Some (getInput "server-id")) :: zip (params config) ps.
Proof.
  intros (Hnd & Hid & _) Hlen. unfold commandBody. rewrite fillBody_fresh; [done..| |done].
  intros name Hname. csimpl. rewrite list_elem_of_singleton. by intros ->.
Qed.

(** C32. The second test of line 127 reads the property [legnth], which no
    string has: a token that is a string is rejected exactly when it is
    empty, which the first test alone decides. *)
Theorem tokenMissing_JStr (s : str) :
  tokenMissing (Some (JStr s)) = Ok (bool_decide (s = "")).
Proof. unfold tokenMissing. simpl. by case_bool_decide. Qed.
End Body.

(** ** The shape of the programs *)

Section Shape.
Context `{JsEngine} (getInput : str -> str).

Lemma quiet_getOauthToken : quiet (getOauthToken getInput).
Proof.
  apply quiet_bind; [apply quiet_fetchThen|]. intros. apply quiet_liftResult.
Qed.

Lemma fetchBound_getOauthToken : fetchBound 1 (getOauthToken getInput).
Proof.
  apply (fetchBound_bind 1 0); [apply fetchBound_fetchThen|].
  intros. apply fetchBound_liftResult.
Qed.

Lemma quiet_command found ps tok : quiet (command getInput found ps tok).
Proof.
  destruct found; [|exact I..]. unfold command.
  apply quiet_bind; [apply quiet_liftResult|intros options].
  apply quiet_bind; [apply quiet_fetchThen|intros response].
  apply quiet_bind; [apply quiet_liftResult|intros data]. exact I.
Qed.

Lemma fetchBound_command found ps tok : fetchBound 1 (command getInput found ps tok).
Proof.
  destruct found; [|exact I..]. unfold command.
  apply (fetchBound_bind 0 1); [apply fetchBound_liftResult|]. intros.
  apply (fetchBound_bind 1 0); [apply fetchBound_fetchThen|]. intros.
  apply (fetchBound_bind 0 0); [apply fetchBound_liftResult|]. done.
Qed.
End Shape.

#[export] Hint Resolve quiet_getOauthToken quiet_command : io.
#[export] Hint Resolve fetchBound_getOauthToken fetchBound_command : io.
