(* ===== verification/Spec.v ===== *)
(** * Spec: what a run promises

    The outcome, the requests and the calls of a run as functions of the
    configuration and of the answers of the network: the three phases of
    a run (the operation is resolved, a token is granted, the operation
    is dispatched), each either a value or the error that ends the run,
    and the calls that they give rise to ([trace]).  [Run] proves that
    [run] makes these calls, reports this outcome and sends these
    requests. *)

From Stdlib Require Import Ascii String Arith Lia.
From stdpp Require Import base tactics option list.
From S2P Require Import Prelude JsString RegExp Patterns JsValue Json Decoder Registry Effects Action.

#[local] Open Scope str_scope.

Section Spec.
Context `{JsEngine} (getInput : str -> str) (w : world).

(** The first phase: the operation is decoded, looked up in the registry,
    and has as many parameters as its entry declares. *)
Definition resolved : result (option str * endpointConfig * jsArray str) :=
  '(operation, operationArgs) ← decodeOperation (getInput "operation");
  match lookupEndpoint operation with
  | Missing => Throw (notUnderstood operation)
  | Inherited => Throw (TypeError KeysOfUndefined)
  | OwnConfig config =>
      if length (params config) =? length operationArgs
      then Ok (operation, config, operationArgs)
      else Throw (UserError "Operation parameters not understood")
  end.

(** The second phase: the token that the token endpoint grants. *)
Definition authenticate : result (option jsval) :=
  response ← respond w 0 tokenUrl (tokenRequest getInput);
  token ← respJson response;
  tokenError ← getProp (Some token) "error";
  if truthy tokenError then
    description ← getProp (Some token) "error_description";
    message ← errorMessageOf description;
    Throw (UserError message)
  else
    accessToken ← getProp (Some token) "access_token";
    missing ← tokenMissing accessToken;
    if (missing : bool) then Throw (UserError "Unable to retrieve access token from Cloudways.")
    else Ok accessToken.

(** The third phase: the data that the operation endpoint answers with. *)
Definition dispatch (config : endpointConfig) (operationArgs : jsArray str)
    (accessToken : option jsval) : result jsval :=
  options ← optionsWithAuth (commandBody getInput config operationArgs) accessToken;
  response ← respond w 1 (cloudwaysApiUrl ++ endpoint config) options;
  data ← respJson response;
  if respOk response then Ok data
  else
    description ← getProp (Some data) "error_description";
    message ← errorMessageOf description;
    Throw (UserError message).

(** The outcome of a run: the data of the answer, or the error of the
    first phase that fails. *)
Definition outcome : result jsval :=
  '(operation, config, operationArgs) ← resolved;
  accessToken ← authenticate;
  dispatch config operationArgs accessToken.

(** The event that reports an outcome. *)
Definition reportOf (o : result jsval) : event :=
  match o with
  | Ok _ => EvSetOutput "success" (JBool true)
  | Throw e => EvSetFailed e
  end.

(** The requests of a run: none before the operation is resolved, the
    request for a token, and the request of the operation once a token is
    granted. *)
Definition requests : list event :=
  match resolved with
  | Throw _ => []
  | Ok (_, config, operationArgs) =>
      EvFetch tokenUrl (tokenRequest getInput) ::
      match accessToken ← authenticate;
            optionsWithAuth (commandBody getInput config operationArgs) accessToken with
      | Throw _ => []
      | Ok options => [EvFetch (cloudwaysApiUrl ++ endpoint config) options]
      end
  end.
(** The log of line 116: written when the lookup of line 114 finds
    anything, before the parameters are checked. *)
Definition announced : list event :=
  match decodeOperation (getInput "operation") with
  | Ok (operation, _) =>
      match lookupEndpoint operation with
      | Missing => []
      | _ => [EvInfo (foundMessage operation)]
      end
  | Throw _ => []
  end.

(** The calls of a run, in order: the log of the operation, the request
    for a token, the log of the authentication, the request of the
    operation, and the log of the answer, up to the first phase that
    fails, and then the report. *)
Definition trace : list event :=
  announced ++
  match resolved with
  | Throw e => [EvSetFailed e]
  | Ok (_, config, operationArgs) =>
      EvFetch tokenUrl (tokenRequest getInput) ::
      match authenticate with
      | Throw e => [EvSetFailed e]
      | Ok accessToken =>
          EvInfo "Successfully authenticated with Cloudways API" ::
          match optionsWithAuth (commandBody getInput config operationArgs) accessToken with
          | Throw e => [EvSetFailed e]
          | Ok options =>
              EvFetch (cloudwaysApiUrl ++ endpoint config) options ::
              match dispatch config operationArgs accessToken with
              | Ok data => [EvInfo (successMessage data); EvSetOutput "success" (JBool true)]
              | Throw e => [EvSetFailed e]
              end
          end
      end
  end.
End Spec.
