(* ===== verification/Run.v ===== *)
(** * Run: the orchestration, and what a run of the action does

    [run] of [src/index.js] (lines 87 to 144): [runBody] is the body of
    the [try] and [run] the whole function, as programs over the effects
    of [Effects].  The theorems hold for every configuration and every
    world, that is whatever the network answers: the trace of each path
    through the run, that the run reports the outcome of [Spec] and sends
    its requests, that it reports exactly once, that it sends nothing
    before the operation is resolved, and that it depends on the
    configuration through the four inputs of [inputsRead] only. *)

From Stdlib Require Import Ascii String Arith Lia.
From stdpp Require Import base tactics option list.
From S2P Require Import Prelude JsString RegExp Patterns JsValue Json Decoder Registry Effects Action Spec.

#[local] Open Scope str_scope.

(** The configuration values that the action asks the toolkit for:
    [core.getInput] is called with these names at lines 91, 31, 32 and
    61, and with no other. *)
Definition inputsRead : list str := ["operation"; "email"; "api-key"; "server-id"].

(** [agreeOn names g1 g2]: the two configurations give the same value to
    each of [names]. *)
Definition agreeOn (names : list str) (g1 g2 : str -> str) : Prop :=
  Forall (fun name => g1 name = g2 name) names.

Section Run.
Context `{JsEngine} (getInput : str -> str).

(** ** The orchestration (lines 87 to 144) *)

(** Lines 89 to 140: the body of the [try]. *)
Definition runBody : io unit :=
  '(operation, operationArgs) ← liftResult (decodeOperation (getInput "operation"));
  let endpointConfig := lookupEndpoint operation in
  match endpointConfig with
  | Missing =>
      Raise (notUnderstood operation)
  | _ =>
      LogInfo (foundMessage operation) (
      paramsValid ← liftResult (validateParameters (paramsOf endpointConfig) operationArgs);
      if negb paramsValid then Raise (UserError "Operation parameters not understood")
      else
        token ← getOauthToken getInput;
        tokenError ← liftResult (getProp (Some token) "error");
        if truthy tokenError then
          description ← liftResult (getProp (Some token) "error_description");
          message ← liftResult (errorMessageOf description);
          Raise (UserError message)
        else
          accessToken ← liftResult (getProp (Some token) "access_token");
          missing ← liftResult (tokenMissing accessToken);
          if (missing : bool) then Raise (UserError "Unable to retrieve access token from Cloudways.")
          else
            LogInfo "Successfully authenticated with Cloudways API" (
            response ← command getInput endpointConfig operationArgs accessToken;
            if negb (ok response) then
              description ← liftResult (getProp (Some (responseBody response)) "error_description");
              message ← liftResult (errorMessageOf description);
              Raise (UserError message)
            else
              LogInfo (successMessage (responseBody response)) (
              SetOutput "success" (JBool true) (
              mret tt))))
  end.

(** Lines 87 to 144. *)
Definition run : io unit :=
  tryCatch runBody (fun error => SetFailed error (mret tt)).

(** ** The hypotheses of the paths of a run *)

Implicit Types (w : world) (operation : option str) (operationArgs : jsArray str).
Implicit Types (config : endpointConfig) (accessToken : option jsval).

(** [accepted operation operationArgs config]: the operation string
    decodes to a known operation with the right number of parameters. *)
Definition accepted operation operationArgs config : Prop :=
  decodeOperation (getInput "operation") = Ok (operation, operationArgs)
  /\ lookupEndpoint operation = OwnConfig config
  /\ (length (params config) =? length operationArgs) = true.

(** [tokenAnswer w token]: the token endpoint answers with the JSON value
    [token], which has no truthy property [error]. *)
Definition tokenAnswer w (token : jsval) : Prop :=
  exists response tokenError,
    respond w 0 tokenUrl (tokenRequest getInput) = Ok response
    /\ respJson response = Ok token
    /\ getProp (Some token) "error" = Ok tokenError /\ truthy tokenError = false.

(** [authenticated w accessToken]: the token endpoint answers with a token
    that line 127 accepts. *)
Definition authenticated w accessToken : Prop :=
  exists token,
    tokenAnswer w token
    /\ getProp (Some token) "access_token" = Ok accessToken
    /\ tokenMissing accessToken = Ok false.

(** [commandAnswer w config operationArgs accessToken options response]:
    the request of the operation is [options] and it is answered with
    [response]. *)
Definition commandAnswer w config operationArgs accessToken
    (options : fetchOptions) (response : commandResponse) : Prop :=
  exists resp,
    optionsWithAuth (commandBody getInput config operationArgs) accessToken = Ok options
    /\ respond w 1 (cloudwaysApiUrl ++ endpoint config) options = Ok resp
    /\ respJson resp = Ok (responseBody response)
    /\ respOk resp = ok response.

(** ** Tactics *)

(** [io_simpl] unfolds the program constructors and nothing of the data. *)
Ltac io_simpl :=
  cbn [execIO tryCatch mbind io_mbind io_bind liftResult mret io_mret fetchThen
       result_bind result_ret paramsOf negb ok responseBody].

(** [io_run] runs a program along the equations of the context. *)
Ltac io_run :=
  repeat (io_simpl;
          match goal with
          | H : ?x = Ok _ |- context [?x] => rewrite H
          | H : ?x = Throw _ |- context [?x] => rewrite H
          | H : ?x = OwnConfig _ |- context [?x] => rewrite H
          | H : ?x = Inherited |- context [?x] => rewrite H
          | H : ?x = Missing |- context [?x] => rewrite H
          | H : ?x = true |- context [?x] => rewrite H
          | H : ?x = false |- context [?x] => rewrite H
          | |- context [length (objectKeys _)] => rewrite objectKeys_length
          end);
  io_simpl.

(** [run_walk] runs [run] along the equations of the context. *)
Ltac run_walk :=
  unfold run, runBody, validateParameters, getOauthToken, command; io_run.

(** [spec_destruct H] splits the cases of a phase of the specification in
    the equation [H]. *)
Ltac spec_destruct H :=
  unfold resolved, authenticate, dispatch, mbind, result_bind in H;
  repeat match type of H with
         | context [match ?x with _ => _ end] =>
             lazymatch x with
             | context [match _ with _ => _ end] => fail
             | _ => destruct x eqn:?; try discriminate H
             end
         end;
  simplify_eq.

(** One step of the walk through a program that [reportsSuccessLast]. *)
Ltac reports_step :=
  first [ apply reportsSuccessLast_bind; [solve [auto with io]|intros]
        | progress cbn [reportsSuccessLast]
        | exact I
        | reflexivity
        | case_match ].

(** One step of the walk through a program within a [fetchBound]. *)
Ltac bound_step :=
  first [ eapply (fetchBound_bind 0); [solve [auto with io]|intros]
        | eapply (fetchBound_bind 1); [solve [auto with io]|intros]
        | progress cbn [fetchBound]
        | exact I
        | case_match ].

(** ** The shape of the run *)

Lemma runBody_reportsSuccessLast : reportsSuccessLast runBody.
Proof. unfold runBody. repeat reports_step. Qed.

Lemma runBody_fetchBound : fetchBound 2 runBody.
Proof. unfold runBody. repeat bound_step. Qed.

(** ** The paths of a run *)

(** C9. An operation that the registry does not know: the run fails with
    the message of line 115, nothing is logged and no request is made. *)
Theorem run_unknown_operation w operation operationArgs :
  decodeOperation (getInput "operation") = Ok (operation, operationArgs) ->
  lookupEndpoint operation = Missing ->
  execIO w 0 run = ([EvSetFailed (notUnderstood operation)], Ok tt).
Proof. intros Hd Hl. by run_walk. Qed.

(** C10. A known operation with the wrong number of parameters: the run
    logs that it found the operation and fails with the message of line
    119; no request is made. *)
Theorem run_parameter_mismatch w operation operationArgs config :
  decodeOperation (getInput "operation") = Ok (operation, operationArgs) ->
  lookupEndpoint operation = OwnConfig config ->
  length (params config) <> length operationArgs ->
  execIO w 0 run
  = ([EvInfo (foundMessage operation);
      EvSetFailed (UserError "Operation parameters not understood")], Ok tt).
Proof.
  intros Hd Hl Hn%Nat.eqb_neq. by run_walk.
Qed.

(** C17. An operation named like a property of [Object.prototype]: the
    lookup of line 114 finds the inherited value, the run logs that it
    found the operation, and the check of the parameters throws a
    [TypeError]; the run does not fail with the message of line 115. *)
Theorem run_inherited_operation w operation operationArgs :
  decodeOperation (getInput "operation") = Ok (operation, operationArgs) ->
  lookupEndpoint operation = Inherited ->
  execIO w 0 run
  = ([EvInfo (foundMessage operation); EvSetFailed (TypeError KeysOfUndefined)], Ok tt).
Proof. intros Hd Hl. by run_walk. Qed.

(** C11. The token endpoint answers with a truthy [error]: the run fails
    with the text of [error_description], and the request of the operation
    is not made. *)
Theorem run_authentication_error w operation operationArgs config response token tokenError
    description message :
  accepted operation operationArgs config ->
  respond w 0 tokenUrl (tokenRequest getInput) = Ok response ->
  respJson response = Ok token ->
  getProp (Some token) "error" = Ok tokenError -> truthy tokenError = true ->
  getProp (Some token) "error_description" = Ok description ->
  errorMessageOf description = Ok message ->
  execIO w 0 run
  = ([EvInfo (foundMessage operation); EvFetch tokenUrl (tokenRequest getInput);
      EvSetFailed (UserError message)], Ok tt).
Proof.
  intros (Hd & Hl & Hn) Hr Hj He Ht Hdesc Hm.
  by run_walk.
Qed.

(** C12. The token endpoint answers without an error and without a token
    that line 127 accepts: the run fails with the message of line 128,
    and the request of the operation is not made. *)
Theorem run_token_missing w operation operationArgs config token accessToken :
  accepted operation operationArgs config -> tokenAnswer w token ->
  getProp (Some token) "access_token" = Ok accessToken ->
  tokenMissing accessToken = Ok true ->
  execIO w 0 run
  = ([EvInfo (foundMessage operation); EvFetch tokenUrl (tokenRequest getInput);
      EvSetFailed (UserError "Unable to retrieve access token from Cloudways.")], Ok tt).
Proof.
  intros (Hd & Hl & Hn) (response & tokenError & Hr & Hj & He & Ht) Ha Hm.
  by run_walk.
Qed.

(** C5. An accepted operation, a token and an answer with [ok]: the run
    logs the operation, asks for the token, logs the authentication, sends
    the request of the operation with the token, logs the answer and sets
    the output [success], in this order. *)
Theorem run_success w operation operationArgs config accessToken options response :
  accepted operation operationArgs config -> authenticated w accessToken ->
  commandAnswer w config operationArgs accessToken options response ->
  ok response = true ->
  execIO w 0 run
  = ([EvInfo (foundMessage operation); EvFetch tokenUrl (tokenRequest getInput);
      EvInfo "Successfully authenticated with Cloudways API";
      EvFetch (cloudwaysApiUrl ++ endpoint config) options;
      EvInfo (successMessage (responseBody response)); EvSetOutput "success" (JBool true)], Ok tt).
Proof.
  intros (Hd & Hl & Hn) (token & (r0 & tokenError & Hr & Hj & He & Ht) & Ha & Hm)
    (resp & Ho & Hc & Hcj & Hok) Hs.
  run_walk. by rewrite Hok, Hs.
Qed.

(** C13. An accepted operation, a token and an answer without [ok]: the
    run fails with the text of the [error_description] of the answer, and
    sets no output. *)
Theorem run_remote_error w operation operationArgs config accessToken options response
    description message :
  accepted operation operationArgs config -> authenticated w accessToken ->
  commandAnswer w config operationArgs accessToken options response ->
  ok response = false ->
  getProp (Some (responseBody response)) "error_description" = Ok description ->
  errorMessageOf description = Ok message ->
  execIO w 0 run
  = ([EvInfo (foundMessage operation); EvFetch tokenUrl (tokenRequest getInput);
      EvInfo "Successfully authenticated with Cloudways API";
      EvFetch (cloudwaysApiUrl ++ endpoint config) options;
      EvSetFailed (UserError message)], Ok tt).
Proof.
  intros (Hd & Hl & Hn) (token & (r0 & tokenError & Hr & Hj & He & Ht) & Ha & Hm)
    (resp & Ho & Hc & Hcj & Hok) Hs Hdesc Hmsg.
  run_walk. rewrite Hok, Hs. by io_run.
Qed.
(** The body of the request of an accepted operation. *)
Lemma commandBody_accepted operation operationArgs config :
  accepted operation operationArgs config ->
  commandBody getInput config operationArgs
  = ("server_id", Some (getInput "server-id")) :: zip (params config) operationArgs.
Proof.
  intros (_ & Hl%lookupEndpoint_wellFormed & Hn%Nat.eqb_eq).
  by apply commandBody_wellFormed.
Qed.

(** C14. The body of the request of an accepted operation: the server
    and then each declared name with the parameter at its position. *)
Theorem run_request_body operation operationArgs config :
  accepted operation operationArgs config ->
  commandBody getInput config operationArgs
  = ("server_id", Some (getInput "server-id")) :: zip (params config) operationArgs.
Proof.
  intros (_ & Hl%lookupEndpoint_wellFormed & Hn%Nat.eqb_eq).
  by apply commandBody_wellFormed.
Qed.

(** C25. A run sees the network through its first two answers only: in
    two worlds that answer the first two requests alike, the run makes
    the same calls and ends alike. *)
Theorem run_two_answers (w1 w2 : world) :
  agree 0 2 w1 w2 -> execIO w1 0 run = execIO w2 0 run.
Proof.
  apply execIO_agree, fetchBound_tryCatch; [apply runBody_fetchBound|done].
Qed.

(** Worlds that give the same answers give the same run. *)
Lemma run_equiv (w1 w2 : world) : w1 ≡ w2 -> execIO w1 0 run = execIO w2 0 run.
Proof. by intros ->. Qed.

(** C24. From the operation string to the body of the request: the
    operation [service] on a service name with a dot and a state is
    accepted with the entry of the registry, and the body of its request
    holds the server, the name unbroken and the state. *)
Theorem run_service_operation (S state : str) :
  getInput "operation" = "service." ++ S ++ "." ++ state ->
  matches phpFpmRe S -> plainPiece state ->
  accepted (Some "service") [Some S; Some state]
    (EndpointConfig "/service/state" ["service"; "state"])
  /\ commandBody getInput (EndpointConfig "/service/state" ["service"; "state"])
       [Some S; Some state]
     = [("server_id", Some (getInput "server-id")); ("service", Some S); ("state", Some state)].
Proof.
  intros Hop HS Hstate. split; [|done]. split_and!; [|done..].
  rewrite Hop. by apply decode_service_state.
Qed.

(** C2. Whatever the inputs and whatever the network answers, the run
    returns without an uncaught error and reports its outcome exactly
    once, as its last action: either the output [success] or a failure. *)
Theorem run_reports_once (w : world) :
  exists t final,
    execIO w 0 run = (t ++ [final], Ok tt)
    /\ Forall (fun e => isReport e = false) t /\ isReport final = true.
Proof. apply tryCatch_reports_once, runBody_reportsSuccessLast. Qed.

(** C16. A run makes at most two requests. *)
Theorem run_at_most_two_requests (w : world) :
  length (fetchesOf (execIO w 0 run).1) <= 2.
Proof.
  apply fetchBound_execIO, fetchBound_tryCatch; [apply runBody_fetchBound|done].
Qed.
(** ** The run against the specification *)

(** The log of the operation is the only event before the first request
    or the report. *)
Lemma announced_resolved operation config operationArgs :
  resolved getInput = Ok (operation, config, operationArgs) ->
  announced getInput = [EvInfo (foundMessage operation)].
Proof. intros Hr. unfold announced. by spec_destruct Hr. Qed.

Lemma fetchesOf_announced : fetchesOf (announced getInput) = [].
Proof. unfold announced. by repeat case_match. Qed.

(** A run whose operation is not resolved: at most the message of line
    116, and the error. *)
Lemma run_unresolved w e :
  resolved getInput = Throw e ->
  execIO w 0 run = (announced getInput ++ [EvSetFailed e], Ok tt).
Proof. intros Hr. unfold announced. spec_destruct Hr; by run_walk. Qed.

(** A run that is not granted a token. *)
Lemma run_unauthenticated w operation config operationArgs e :
  resolved getInput = Ok (operation, config, operationArgs) ->
  authenticate getInput w = Throw e ->
  execIO w 0 run
  = ([EvInfo (foundMessage operation); EvFetch tokenUrl (tokenRequest getInput);
      EvSetFailed e], Ok tt).
Proof. intros Hr Ha. spec_destruct Hr. run_walk. spec_destruct Ha; by io_run. Qed.

(** A run that is granted a token. *)
Lemma run_dispatched w operation config operationArgs accessToken :
  resolved getInput = Ok (operation, config, operationArgs) ->
  authenticate getInput w = Ok accessToken ->
  execIO w 0 run
  = ([EvInfo (foundMessage operation); EvFetch tokenUrl (tokenRequest getInput);
      EvInfo "Successfully authenticated with Cloudways API"]
     ++ match optionsWithAuth (commandBody getInput config operationArgs) accessToken with
        | Throw e => [EvSetFailed e]
        | Ok options =>
            EvFetch (cloudwaysApiUrl ++ endpoint config) options ::
            match dispatch getInput w config operationArgs accessToken with
            | Ok data => [EvInfo (successMessage data); EvSetOutput "success" (JBool true)]
            | Throw e => [EvSetFailed e]
            end
        end, Ok tt).
Proof.
  intros Hr Ha. spec_destruct Hr. spec_destruct Ha. run_walk.
  destruct (dispatch getInput w config operationArgs accessToken) as [data|e] eqn:Hd;
    spec_destruct Hd; by io_run.
Qed.

(** The run makes the calls of the specification, and returns. *)
Lemma run_spec w : execIO w 0 run = (trace getInput w, Ok tt).
Proof.
  unfold trace.
  destruct (resolved getInput) as [[[operation config] operationArgs]|e] eqn:Hr;
    [|by apply run_unresolved].
  rewrite (announced_resolved _ _ _ Hr).
  destruct (authenticate getInput w) as [accessToken|e] eqn:Ha;
    [|by rewrite (run_unauthenticated _ _ _ _ _ Hr Ha)].
  by rewrite (run_dispatched _ _ _ _ _ Hr Ha).
Qed.

(** The requests among the calls of the specification are its requests. *)
Lemma fetchesOf_trace w : fetchesOf (trace getInput w) = requests getInput w.
Proof.
  unfold trace, requests, fetchesOf. rewrite filter_app.
  fold (fetchesOf (announced getInput)). rewrite fetchesOf_announced.
  destruct (resolved getInput) as [[[operation config] operationArgs]|e]; [|done].
  destruct (authenticate getInput w) as [accessToken|e]; cbn [mbind result_bind]; [|done].
  destruct (optionsWithAuth _ _); [|done]. by destruct (dispatch _ _ _ _ _).
Qed.

(** C1. The run reports the outcome of the specification, as its last
    event: the output [success] when the three phases succeed, and
    otherwise the error of the first phase that fails. *)
Theorem run_outcome w :
  exists t, execIO w 0 run = (t ++ [reportOf (outcome getInput w)], Ok tt).
Proof.
  unfold outcome.
  destruct (resolved getInput) as [[[operation config] operationArgs]|e] eqn:Hr;
    [|rewrite (run_unresolved w e Hr); by eexists].
  cbn [mbind result_bind]. destruct (authenticate getInput w) as [accessToken|e] eqn:Ha;
    [|rewrite (run_unauthenticated _ _ _ _ _ Hr Ha); by eexists [_; _]].
  rewrite (run_dispatched _ _ _ _ _ Hr Ha). cbn [mbind result_bind].
  destruct (dispatch getInput w config operationArgs accessToken) as [data|e] eqn:Hd.
  - spec_destruct Hd. by eexists [_; _; _; _; _].
  - destruct (optionsWithAuth _ _) eqn:Ho; [by eexists [_; _; _; _]|].
    unfold dispatch in Hd. rewrite Ho in Hd. simplify_eq/=. by eexists [_; _; _].
Qed.

(** C3. The run sends the requests of the specification, in order:
    nothing unless the operation is resolved, then the request for a
    token, and the request of the operation only with a token. *)
Theorem run_requests w :
  fetchesOf (execIO w 0 run).1 = requests getInput w.
Proof.
  unfold requests.
  destruct (resolved getInput) as [[[operation config] operationArgs]|e] eqn:Hr.
  2: { rewrite (run_unresolved w e Hr). cbn [fst]. unfold fetchesOf.
       rewrite filter_app. fold (fetchesOf (announced getInput)). by rewrite fetchesOf_announced. }
  destruct (authenticate getInput w) as [accessToken|e] eqn:Ha; cbn [mbind result_bind];
    [|by rewrite (run_unauthenticated _ _ _ _ _ Hr Ha)].
  rewrite (run_dispatched _ _ _ _ _ Hr Ha).
  destruct (optionsWithAuth _ _); [|done]. by destruct (dispatch _ _ _ _ _).
Qed.

(** C7. No request leaves before the operation is resolved: a run that
    sends a request has decoded an operation of the registry with as many
    parameters as it declares. *)
Theorem run_resolves_before_request w :
  fetchesOf (execIO w 0 run).1 <> [] ->
  exists operation operationArgs config, accepted operation operationArgs config.
Proof.
  destruct (resolved getInput) as [[[operation config] operationArgs]|e] eqn:Hr.
  - intros _. exists operation, operationArgs, config. by spec_destruct Hr.
  - rewrite (run_unresolved w e Hr). cbn [fst]. unfold fetchesOf.
    rewrite filter_app. fold (fetchesOf (announced getInput)). by rewrite fetchesOf_announced.
Qed.
(** The phases of the specification give the hypotheses of the paths. *)
Lemma resolved_accepted operation config operationArgs :
  resolved getInput = Ok (operation, config, operationArgs) ->
  accepted operation operationArgs config.
Proof. intros Hr. by spec_destruct Hr. Qed.

Lemma authenticate_authenticated w accessToken :
  authenticate getInput w = Ok accessToken -> authenticated w accessToken.
Proof. intros Ha. spec_destruct Ha. eexists. split; [by eexists _, _|done]. Qed.

(** C15. The request of an operation, whenever a run sends one: a POST to
    the endpoint of the entry of the registry, with the content type of
    JSON and, as bearer, the text of the token that the first answer
    granted, and with a body that reads as the server and then each
    declared name with its parameter, a parameter that is [undefined]
    being left out. *)
Theorem run_operation_request w e :
  fetchesOf (execIO w 0 run).1 !! 1 = Some e ->
  exists operation operationArgs config accessToken bearer text,
    accepted operation operationArgs config /\ authenticated w accessToken
    /\ toStrOpt accessToken = Ok bearer
    /\ e = EvFetch (cloudwaysApiUrl ++ endpoint config)
             (FetchOptions "POST" text
                [("Content-Type", "application/json"); ("Authorization", "Bearer " ++ bearer)])
    /\ jsonRead text
       = Some (objToJson (("server_id", Some (getInput "server-id"))
                          :: zip (params config) operationArgs)).
Proof.
  rewrite run_spec. cbn [fst]. rewrite fetchesOf_trace. unfold requests.
  destruct (resolved getInput) as [[[operation config] operationArgs]|e'] eqn:Hr; [|done].
  destruct (authenticate getInput w) as [accessToken|e'] eqn:Ha; cbn [mbind result_bind]; [|done].
  destruct (optionsWithAuth _ _) as [options|e'] eqn:Ho; [|done]. intros [= <-].
  pose proof (resolved_accepted _ _ _ Hr) as Hacc.
  pose proof (optionsWithAuth_body_reads _ _ _ Ho) as Hbody.
  rewrite (commandBody_accepted _ _ _ Hacc) in Hbody.
  unfold optionsWithAuth in Ho. destruct (toStrOpt accessToken) as [bearer|] eqn:Hb; [|done].
  injection Ho as <-. exists operation, operationArgs, config, accessToken, bearer.
  eexists. split_and!; [done|by apply authenticate_authenticated|done..].
Qed.

End Run.

(** ** The inputs of a run *)

(** C22. The run consumes four configuration values and nothing else of
    the configuration: two configurations that agree on the operation,
    the e-mail address, the API key and the server give the same
    program, hence the same calls in every world. *)
Theorem run_inputs `{JsEngine} (g1 g2 : str -> str) :
  agreeOn inputsRead g1 g2 -> run g1 = run g2.
Proof.
  unfold agreeOn, inputsRead. rewrite !Forall_cons. intros (Ho & He & Hk & Hs & _).
  unfold run, runBody, getOauthToken, tokenRequest, command, commandBody.
  by rewrite Ho, He, Hk, Hs.
Qed.

(** ** Examples *)

(** Each of the four values is read: a change of one of them changes the
    calls of the run. *)
Example run_reads_each_input :
  Forall (fun name =>
    (execIO exampleWorld 0 (run (H := exampleEngine) (exampleInputs "varnish.purge"))).1
    <> (execIO exampleWorld 0 (run (H := exampleEngine)
          (fun n => if bool_decide (n = name) then "other.x"
                    else exampleInputs "varnish.purge" n))).1)
    inputsRead.
Proof. repeat constructor; by vm_compute. Qed.

Lemma run_inputs_witness :
  run (H := exampleEngine) (exampleInputs "varnish.purge")
  = run (H := exampleEngine)
      (fun name => if bool_decide (name = "debug") then "1"
                   else exampleInputs "varnish.purge" name).
Proof. apply run_inputs. by repeat constructor. Defined.

Example run_varnish_purge :
  execIO exampleWorld 0 (run (H := exampleEngine) (exampleInputs "varnish.purge"))
  = ([ EvInfo "Found Cloudways API operation: 'varnish'";
       EvFetch "https://api.cloudways.com/api/v1/oauth/access_token"
         (FetchOptions "POST"
            ("{" ++ [dquote] ++ "email" ++ [dquote] ++ ":" ++ [dquote] ++ "me@example.com"
               ++ [dquote] ++ "," ++ [dquote] ++ "api_key" ++ [dquote] ++ ":" ++ [dquote]
               ++ "k3y" ++ [dquote] ++ "}")
            [("Content-Type", "application/json")]);
       EvInfo "Successfully authenticated with Cloudways API";
       EvFetch "https://api.cloudways.com/api/v1/service/varnish"
         (FetchOptions "POST"
            ("{" ++ [dquote] ++ "server_id" ++ [dquote] ++ ":" ++ [dquote] ++ "42"
               ++ [dquote] ++ "," ++ [dquote] ++ "action" ++ [dquote] ++ ":" ++ [dquote]
               ++ "purge" ++ [dquote] ++ "}")
            [("Content-Type", "application/json"); ("Authorization", "Bearer t0k")]);
       EvInfo ("Success! Received response from Cloudways: {" ++ [dquote] ++ "message"
                 ++ [dquote] ++ ":" ++ [dquote] ++ "ok" ++ [dquote] ++ "}");
       EvSetOutput "success" (JBool true) ],
     Ok tt).
Proof. vm_compute. reflexivity. Qed.


(** A placeholder in the input, with no service name: the parameter is
    [undefined], the operation is accepted, and the request is sent without
    the parameter. *)
Example run_undefined_parameter :
  fetchesOf (execIO exampleWorld 0
               (run (H := exampleEngine) (exampleInputs "service.$1.restart"))).1
  = [ EvFetch tokenUrl (tokenRequest (exampleInputs ""));
      EvFetch "https://api.cloudways.com/api/v1/service/state"
         (FetchOptions "POST"
            ("{" ++ [dquote] ++ "server_id" ++ [dquote] ++ ":" ++ [dquote] ++ "42"
               ++ [dquote] ++ "," ++ [dquote] ++ "state" ++ [dquote] ++ ":" ++ [dquote]
               ++ "restart" ++ [dquote] ++ "}")
            [("Content-Type", "application/json"); ("Authorization", "Bearer t0k")]) ].
Proof. vm_compute. reflexivity. Qed.

(** An operation with a dot and nothing after it is accepted with an
    empty parameter. *)
Example run_empty_parameter :
  (execIO exampleWorld 0 (run (H := exampleEngine) (exampleInputs "varnish."))).1
  = trace (H := exampleEngine) (exampleInputs "varnish.") exampleWorld
  /\ commandBody (exampleInputs "varnish.") (EndpointConfig "/service/varnish" ["action"]) [Some ""]
     = [("server_id", Some "42"); ("action", Some "")].
Proof. by vm_compute. Qed.

(** The empty operation string, and a placeholder in the place of the
    operation: the operation is not understood. *)
Example run_no_operation :
  execIO exampleWorld 0 (run (H := exampleEngine) (exampleInputs ""))
  = ([EvSetFailed (UserError "Cloudways API operation '' not understood")], Ok tt)
  /\ execIO exampleWorld 0 (run (H := exampleEngine) (exampleInputs "$0"))
     = ([EvSetFailed (UserError "Cloudways API operation 'undefined' not understood")], Ok tt).
Proof. by vm_compute. Qed.

Lemma run_unknown_operation_witness :
  execIO exampleWorld 0 (run (H := exampleEngine) (exampleInputs "reboot.now"))
  = ([EvSetFailed (notUnderstood (Some "reboot"))], Ok tt).
Proof.
  apply (run_unknown_operation (H := exampleEngine) _ exampleWorld (Some "reboot") [Some "now"]);
    reflexivity.
Defined.

Lemma run_parameter_mismatch_witness :
  execIO exampleWorld 0 (run (H := exampleEngine) (exampleInputs "varnish.purge.now"))
  = ([EvInfo (foundMessage (Some "varnish"));
      EvSetFailed (UserError "Operation parameters not understood")], Ok tt).
Proof.
  apply (run_parameter_mismatch (H := exampleEngine) _ exampleWorld (Some "varnish")
           [Some "purge"; Some "now"] (EndpointConfig "/service/varnish" ["action"]));
    [reflexivity..|simpl; lia].
Defined.

Lemma run_inherited_operation_witness :
  execIO exampleWorld 0 (run (H := exampleEngine) (exampleInputs "constructor.purge"))
  = ([EvInfo (foundMessage (Some "constructor")); EvSetFailed (TypeError KeysOfUndefined)],
     Ok tt).
Proof.
  apply (run_inherited_operation (H := exampleEngine) _ exampleWorld (Some "constructor")
           [Some "purge"]); reflexivity.
Defined.

Lemma run_authentication_error_witness :
  execIO deniedWorld 0 (run (H := exampleEngine) (exampleInputs "varnish.purge"))
  = ([EvInfo (foundMessage (Some "varnish"));
      EvFetch tokenUrl (tokenRequest (exampleInputs "varnish.purge"));
      EvSetFailed (UserError "Invalid credentials")], Ok tt).
Proof.
  eapply (run_authentication_error (H := exampleEngine) _ deniedWorld (Some "varnish")
            [Some "purge"] (EndpointConfig "/service/varnish" ["action"]));
    try reflexivity.
  repeat split.
Defined.

Lemma run_token_missing_witness :
  execIO (worldOf (JObj []) true 200 JNull) 0
    (run (H := exampleEngine) (exampleInputs "varnish.purge"))
  = ([EvInfo (foundMessage (Some "varnish"));
      EvFetch tokenUrl (tokenRequest (exampleInputs "varnish.purge"));
      EvSetFailed (UserError "Unable to retrieve access token from Cloudways.")], Ok tt).
Proof.
  eapply (run_token_missing (H := exampleEngine) _ _ (Some "varnish")
            [Some "purge"] (EndpointConfig "/service/varnish" ["action"]) (JObj []) None);
    [repeat split|by eexists _, _|reflexivity..].
Defined.

Lemma run_success_witness :
  exists options,
  execIO exampleWorld 0 (run (H := exampleEngine) (exampleInputs "varnish.purge"))
  = ([EvInfo (foundMessage (Some "varnish"));
      EvFetch tokenUrl (tokenRequest (exampleInputs "varnish.purge"));
      EvInfo "Successfully authenticated with Cloudways API";
      EvFetch (cloudwaysApiUrl ++ "/service/varnish") options;
      EvInfo (successMessage (JObj [("message", JStr "ok")]));
      EvSetOutput "success" (JBool true)], Ok tt).
Proof.
  eexists.
  apply (run_success (H := exampleEngine) _ exampleWorld (Some "varnish")
            [Some "purge"] (EndpointConfig "/service/varnish" ["action"]) (Some (JStr "t0k"))
            _ (CommandResponse true 200 (JObj [("message", JStr "ok")])));
    [repeat split|eexists; split; [by eexists _, _|done]|by eexists|reflexivity].
Defined.

Lemma run_remote_error_witness :
  exists options,
  execIO failingWorld 0 (run (H := exampleEngine) (exampleInputs "varnish.purge"))
  = ([EvInfo (foundMessage (Some "varnish"));
      EvFetch tokenUrl (tokenRequest (exampleInputs "varnish.purge"));
      EvInfo "Successfully authenticated with Cloudways API";
      EvFetch (cloudwaysApiUrl ++ "/service/varnish") options;
      EvSetFailed (UserError "An operation is already in progress")], Ok tt).
Proof.
  eexists.
  eapply (run_remote_error (H := exampleEngine) _ failingWorld (Some "varnish")
            [Some "purge"] (EndpointConfig "/service/varnish" ["action"]) (Some (JStr "t0k"))
            _ (CommandResponse false 422
                 (JObj [("error_description", JStr "An operation is already in progress")])));
    [repeat split|eexists; split; [by eexists _, _|done]|by eexists|reflexivity..].
Defined.

Lemma run_request_body_witness :
  commandBody (exampleInputs "service.php8.0-fpm.restart")
    (EndpointConfig "/service/state" ["service"; "state"]) [Some "php8.0-fpm"; Some "restart"]
  = [("server_id", Some "42"); ("service", Some "php8.0-fpm"); ("state", Some "restart")].
Proof.
  apply (run_request_body (exampleInputs "service.php8.0-fpm.restart")
           (Some "service")). by repeat split.
Defined.

Lemma run_resolves_before_request_witness :
  exists operation operationArgs config,
    accepted (exampleInputs "varnish.purge") operation operationArgs config.
Proof.
  apply (run_resolves_before_request (H := exampleEngine) _ exampleWorld).
  vm_compute. discriminate.
Defined.

Lemma run_service_operation_witness :
  accepted (exampleInputs "service.php7.4-fpm.restart") (Some "service")
    [Some "php7.4-fpm"; Some "restart"] (EndpointConfig "/service/state" ["service"; "state"])
  /\ commandBody (exampleInputs "service.php7.4-fpm.restart")
       (EndpointConfig "/service/state" ["service"; "state"]) [Some "php7.4-fpm"; Some "restart"]
     = [("server_id", Some "42"); ("service", Some "php7.4-fpm"); ("state", Some "restart")].
Proof.
  apply (run_service_operation (exampleInputs "service.php7.4-fpm.restart")
           "php7.4-fpm" "restart"); [done| |].
  - apply matches_phpFpmRe. by exists "7", "4".
  - split; compute_done.
Defined.

Lemma run_two_answers_witness :
  execIO exampleWorld 0 (run (H := exampleEngine) (exampleInputs "varnish.purge"))
  = execIO (World (fun n url options =>
                     if n <? 2 then respond exampleWorld n url options
                     else Throw (UserError "closed")))
      0 (run (H := exampleEngine) (exampleInputs "varnish.purge")).
Proof.
  apply (run_two_answers (H := exampleEngine) (exampleInputs "varnish.purge")).
  intros j url options Hj. by destruct j as [|[|j]]; [..|lia].
Defined.

Lemma run_operation_request_witness :
  exists operation operationArgs config accessToken bearer text,
    accepted (exampleInputs "service.php8.0-fpm.restart") operation operationArgs config
    /\ authenticated (H := exampleEngine) (exampleInputs "service.php8.0-fpm.restart")
         exampleWorld accessToken
    /\ toStrOpt accessToken = Ok bearer
    /\ EvFetch (cloudwaysApiUrl ++ "/service/state")
         (FetchOptions "POST"
            (jsonStringify (JObj [("server_id", JStr "42"); ("service", JStr "php8.0-fpm");
                                  ("state", JStr "restart")]))
            [("Content-Type", "application/json"); ("Authorization", "Bearer t0k")])
       = EvFetch (cloudwaysApiUrl ++ endpoint config)
           (FetchOptions "POST" text
              [("Content-Type", "application/json"); ("Authorization", "Bearer " ++ bearer)])
    /\ jsonRead text
       = Some (objToJson (("server_id", Some (exampleInputs "service.php8.0-fpm.restart" "server-id"))
                          :: zip (params config) operationArgs)).
Proof.
  apply (run_operation_request (H := exampleEngine) (exampleInputs "service.php8.0-fpm.restart")
           exampleWorld).
  by vm_compute.
Defined.
