(* ===== verification/Secrecy.v ===== *)
(** * Secrecy: where the credentials and the token go

    The action reads two secrets, the e-mail address and the API key, and
    is granted a third, the access token.  This file states where they
    flow, as two runs seen by an observer: the credentials reach the body
    of the token request and nothing else, and the token reaches the
    header [Authorization] of the request of the operation and nothing
    else.  Neither is logged or reported.  The runs are taken through the
    calls of the specification ([trace] of [Spec], which [run_spec] of
    [Run] proves to be the calls of [run]). *)

From Stdlib Require Import Ascii String Arith Lia.
From stdpp Require Import base tactics option list.
From S2P Require Import Prelude JsString RegExp Patterns JsValue Json Decoder Registry Effects.
From S2P Require Import Action Spec Run.

#[local] Open Scope str_scope.

(** ** Observers *)

(** [withoutCredentials e] is the event for an observer who does not see
    the body of a request to the token endpoint. *)
Definition withoutCredentials (e : event) : event :=
  match e with
  | EvFetch url options =>
      if bool_decide (url = tokenUrl)
      then EvFetch url (FetchOptions (method options) "" (headers options))
      else e
  | _ => e
  end.

(** [withoutBearer e] is the event for an observer who does not see the
    header [Authorization] of a request. *)
Definition withoutBearer (e : event) : event :=
  match e with
  | EvFetch url options =>
      EvFetch url (FetchOptions (method options) (body options)
                     (filter (fun h => h.1 <> "Authorization") (headers options)))
  | _ => e
  end.

(** [agreeExcept names g1 g2]: the two configurations give the same value
    to every input that is not one of [names]. *)
Definition agreeExcept (names : list str) (g1 g2 : str -> str) : Prop :=
  forall name, name ∉ names -> g1 name = g2 name.

(** [answerAlike view n w1 w2]: the two worlds give the same answer to
    the [n]-th request when the observer sees the same request. *)
Definition answerAlike (view : event -> event) (n : nat) (w1 w2 : world) : Prop :=
  forall url1 options1 url2 options2,
    view (EvFetch url1 options1) = view (EvFetch url2 options2) ->
    respond w1 n url1 options1 = respond w2 n url2 options2.

(** The inputs that are secret. *)
Definition credentials : list str := ["email"; "api-key"].

(** The configuration of the examples with other credentials. *)
Definition otherInputs (name : str) : str :=
  if bool_decide (name = "email") then "you@example.com"
  else if bool_decide (name = "api-key") then "0ther"
  else exampleInputs "varnish.purge" name.

(** ** Configurations that agree *)

#[export] Instance agreeExcept_equivalence (names : list str) : Equivalence (agreeExcept names).
Proof.
  split; [done|intros g1 g2 Hg name Hn; by rewrite Hg|].
  intros g1 g2 g3 H12 H23 name Hn. by rewrite H12, H23.
Qed.

Section Credentials.
Context `{JsEngine} (g1 g2 : str -> str) (w1 w2 : world).
Hypothesis Hg : agreeExcept credentials g1 g2.
Hypothesis Hw : forall n, answerAlike withoutCredentials n w1 w2.

Lemma agree_operation : g1 "operation" = g2 "operation".
Proof. apply Hg. compute_done. Qed.

Lemma agree_server : g1 "server-id" = g2 "server-id".
Proof. apply Hg. compute_done. Qed.

Lemma agree_announced : announced g1 = announced g2.
Proof. unfold announced. by rewrite agree_operation. Qed.

Lemma agree_resolved : resolved g1 = resolved g2.
Proof. unfold resolved. by rewrite agree_operation. Qed.

Lemma agree_commandBody config operationArgs :
  commandBody g1 config operationArgs = commandBody g2 config operationArgs.
Proof. unfold commandBody. by rewrite agree_server. Qed.

Lemma agree_authenticate : authenticate g1 w1 = authenticate g2 w2.
Proof. unfold authenticate. by rewrite (Hw 0 tokenUrl (tokenRequest g1) tokenUrl (tokenRequest g2)). Qed.

Lemma agree_dispatch config operationArgs accessToken :
  dispatch g1 w1 config operationArgs accessToken = dispatch g2 w2 config operationArgs accessToken.
Proof.
  unfold dispatch. rewrite agree_commandBody.
  destruct (optionsWithAuth _ _) as [options|e]; [|done]. cbn [mbind result_bind].
  by rewrite (Hw 1 (cloudwaysApiUrl ++ endpoint config) options _ options eq_refl).
Qed.

Lemma agree_trace :
  withoutCredentials <$> trace g1 w1 = withoutCredentials <$> trace g2 w2.
Proof.
  unfold trace. rewrite agree_announced, agree_resolved, agree_authenticate.
  rewrite !fmap_app. f_equal.
  destruct (resolved g2) as [[[operation config] operationArgs]|e]; [|done].
  rewrite !fmap_cons. f_equal.
  destruct (authenticate g2 w2) as [accessToken|e]; [|done].
  by rewrite agree_commandBody, agree_dispatch.
Qed.
End Credentials.

(** ** The token *)

Section Token.
Context `{JsEngine} (getInput : str -> str) (w1 w2 : world).
Context (accessToken1 accessToken2 : option jsval) (bearer1 bearer2 : str).
Hypothesis Ha1 : authenticate getInput w1 = Ok accessToken1.
Hypothesis Ha2 : authenticate getInput w2 = Ok accessToken2.
Hypothesis Hb1 : toStrOpt accessToken1 = Ok bearer1.
Hypothesis Hb2 : toStrOpt accessToken2 = Ok bearer2.
Hypothesis Hw : answerAlike withoutBearer 1 w1 w2.

Lemma token_dispatch config operationArgs :
  dispatch getInput w1 config operationArgs accessToken1
  = dispatch getInput w2 config operationArgs accessToken2.
Proof.
  unfold dispatch, optionsWithAuth. rewrite Hb1, Hb2. cbn [mbind result_bind].
  erewrite (Hw (cloudwaysApiUrl ++ endpoint config) _ (cloudwaysApiUrl ++ endpoint config));
    [done|]. unfold withoutBearer. cbn [method body headers]. by f_equal.
Qed.

Lemma token_trace :
  withoutBearer <$> trace getInput w1 = withoutBearer <$> trace getInput w2.
Proof.
  unfold trace. rewrite !fmap_app. f_equal.
  destruct (resolved getInput) as [[[operation config] operationArgs]|e]; [|done].
  rewrite Ha1, Ha2, token_dispatch. unfold optionsWithAuth. by rewrite Hb1, Hb2.
Qed.
End Token.

(** ** The theorems *)

Section Secrecy.
Context `{JsEngine}.

(** C20. The credentials reach the body of the token request and nothing
    else: two runs whose configurations differ in the e-mail address and
    the API key only, in worlds that answer alike to an observer who does
    not see that body, make the same calls for this observer: the same
    logs, the same requests but for that body, and the same report. *)
Theorem run_credentials_confined (g1 g2 : str -> str) (w1 w2 : world) :
  agreeExcept credentials g1 g2 -> (forall n, answerAlike withoutCredentials n w1 w2) ->
  withoutCredentials <$> (execIO w1 0 (run g1)).1
  = withoutCredentials <$> (execIO w2 0 (run g2)).1.
Proof. intros Hg Hw. rewrite !run_spec. by apply agree_trace. Qed.

(** C21. The token reaches the header [Authorization] of the request
    of the operation and nothing else: two runs that are granted
    different tokens, in worlds that answer the second request alike to
    an observer who does not see that header, make the same calls for
    this observer. *)
Theorem run_token_confined (getInput : str -> str) (w1 w2 : world)
    (accessToken1 accessToken2 : option jsval) (bearer1 bearer2 : str) :
  authenticate getInput w1 = Ok accessToken1 -> authenticate getInput w2 = Ok accessToken2 ->
  toStrOpt accessToken1 = Ok bearer1 -> toStrOpt accessToken2 = Ok bearer2 ->
  answerAlike withoutBearer 1 w1 w2 ->
  withoutBearer <$> (execIO w1 0 (run getInput)).1
  = withoutBearer <$> (execIO w2 0 (run getInput)).1.
Proof. intros. rewrite !run_spec. by eapply token_trace. Qed.
End Secrecy.

(** ** The theorems at concrete inputs *)

Lemma run_credentials_confined_witness :
  withoutCredentials
    <$> (execIO exampleWorld 0 (run (H := exampleEngine) (exampleInputs "varnish.purge"))).1
  = withoutCredentials <$> (execIO exampleWorld 0 (run (H := exampleEngine) otherInputs)).1.
Proof.
  apply (run_credentials_confined (H := exampleEngine)); [|done].
  intros name [Hemail [Hkey _]%not_elem_of_cons]%not_elem_of_cons. unfold otherInputs.
  by rewrite !bool_decide_eq_false_2.
Defined.

Lemma run_token_confined_witness :
  withoutBearer
    <$> (execIO exampleWorld 0 (run (H := exampleEngine) (exampleInputs "varnish.purge"))).1
  = withoutBearer
      <$> (execIO (worldOf (JObj [("access_token", JStr "0ther")]) true 200
                     (JObj [("message", JStr "ok")])) 0
             (run (H := exampleEngine) (exampleInputs "varnish.purge"))).1.
Proof.
  by apply (run_token_confined (H := exampleEngine) (exampleInputs "varnish.purge")
              exampleWorld _ (Some (JStr "t0k")) (Some (JStr "0ther")) "t0k" "0ther").
Defined.
