(* ===== verification/Liveness.v ===== *)
(** * Liveness: what holds along a run, and of what it sends

    [run] of [Run] under the transition relations of [Steps]: in a
    network that may leave a request without an answer the run reports
    exactly when the requests that it makes are answered, and is
    suspended without a report otherwise; in a world, the calls made at
    every point are the first calls of the specification; every request
    that a run sends is a request to the API. *)

From Stdlib Require Import Ascii String Arith Lia.
From stdpp Require Import base tactics option list relations.
From S2P Require Import Prelude JsString RegExp Patterns JsValue Json Decoder Registry Effects Steps.
From S2P Require Import Action Spec Run.

#[local] Open Scope str_scope.

(** [apiRequest e]: the event is a POST to a path of the API, with the
    content type of JSON and a body that reads as an object. *)
Definition apiRequest (e : event) : Prop :=
  exists path text fields others,
    e = EvFetch (cloudwaysApiUrl ++ path)
          (FetchOptions "POST" text (("Content-Type", "application/json") :: others))
    /\ jsonRead text = Some (JObj fields).

(** Line 146, [run();]: the action starts [run] with no request made and
    nothing emitted; the promise that [run] returns is dropped. *)
Definition main `{JsEngine} (getInput : str -> str) : config unit :=
  initial (run getInput).

(** A network that answers the request for a token as [exampleWorld] does
    and leaves every later request pending. *)
Definition tokenOnly : network :=
  Network (fun n url options =>
    match n with
    | 0 => Some (respond exampleWorld 0 url options)
    | _ => None
    end).

Section Liveness.
Context `{JsEngine} (getInput : str -> str).

Lemma run_reportsOnce : reportsOnce (run getInput).
Proof. apply tryCatch_reportsOnce, runBody_reportsSuccessLast. Qed.

(** The requests that a network has to answer for the run to go on are
    the requests of the specification, in a world that extends it. *)
Lemma run_completes (net : network) (w : world) :
  extends w net -> completes net 0 (run getInput) = answersFrom net 0 (requests getInput w).
Proof.
  intros Hw. rewrite (completes_answersFrom net w), run_spec by done. cbn [fst].
  by rewrite <- (answersFrom_fetchesOf net 0 (trace getInput w)), fetchesOf_trace.
Qed.

(** C18. The run reports exactly when the network answers the requests
    that it makes.  In a network that may leave a request pending, every
    sequence of steps of [run] reaches a configuration in which the run
    has returned and its last event is its only report if, and only if,
    the network answers the request for a token when the operation is
    resolved, and the request of the operation when a token is granted.
    No timeout ends a request that stays without an answer. *)
Theorem run_reports_when_answered (net : network) (w : world) :
  extends w net ->
  eventually net reported (main getInput) <-> answersFrom net 0 (requests getInput w) = true.
Proof.
  intros Hw. rewrite <- (run_completes net w Hw). apply reportsOnce_eventually, run_reportsOnce.
Qed.

(** A run with a request that stays without an answer is suspended at
    that request for good: nothing is reported, and the calls made are
    the first calls of the specification. *)
Corollary run_suspended (net : network) (w : world) :
  extends w net -> answersFrom net 0 (requests getInput w) = false ->
  exists c, rtc (nstep net) (main getInput) c /\ suspended net c /\ nf (nstep net) c
            /\ noReport (emitted c) /\ emitted c `prefix_of` trace getInput w.
Proof.
  intros Hw Ha. rewrite <- (run_completes net w Hw) in Ha.
  destruct (reportsOnce_suspended net _ run_reportsOnce Ha) as (c & Hs & Hc & Hr).
  exists c. split_and!; [done..|by apply suspended_nf|done|].
  apply (nsteps_steps _ w), steps_prefix in Hs; [|done]. by rewrite run_spec in Hs.
Qed.

(** C23. The run refines the specification step by step: at every
    point of a run the calls made so far are the first calls of the
    specification, in order, and when the run has returned they are all
    its calls. *)
Theorem run_refines_trace (w : world) (c : config unit) :
  rtc (step w) (main getInput) c ->
  emitted c `prefix_of` trace getInput w /\ (final c -> emitted c = trace getInput w).
Proof.
  intros Hs. split; [apply steps_prefix in Hs; by rewrite run_spec in Hs|].
  intros Hc%(endOf_of_final w). rewrite <- Hc, <- (rtc_endOf _ _ _ Hs), emitted_endOf.
  unfold main. cbn [initial emitted requests remaining app]. by rewrite run_spec.
Qed.

Lemma tokenRequest_apiRequest : apiRequest (EvFetch tokenUrl (tokenRequest getInput)).
Proof.
  eexists "/oauth/access_token", _, _, []. split; [done|].
  apply jsonRead_objToJson.
Qed.

Lemma optionsWithAuth_apiRequest (config : endpointConfig) (o : jsObject)
    (accessToken : option jsval) (options : fetchOptions) :
  optionsWithAuth o accessToken = Ok options ->
  apiRequest (EvFetch (cloudwaysApiUrl ++ endpoint config) options).
Proof.
  intros Ho. pose proof (optionsWithAuth_body_reads _ _ _ Ho) as Hbody. revert Ho Hbody.
  unfold optionsWithAuth. destruct (toStrOpt accessToken) as [bearer|e]; [|done].
  intros [= <-] Hbody. by eexists (endpoint config), _, _, [_].
Qed.

Lemma requestsAll_getOauthToken : requestsAll apiRequest (getOauthToken getInput).
Proof.
  apply requestsAll_bind; [|intros; apply requestsAll_liftResult].
  apply requestsAll_fetchThen, tokenRequest_apiRequest.
Qed.

Lemma requestsAll_command found ps tok :
  requestsAll apiRequest (command getInput found ps tok).
Proof.
  destruct found as [config| |]; [|exact I..]. unfold command.
  destruct (optionsWithAuth _ _) as [options|e] eqn:Ho;
    cbn [mbind io_mbind io_bind liftResult]; [|exact I].
  apply requestsAll_bind; [|intros response].
  - by eapply requestsAll_fetchThen, optionsWithAuth_apiRequest.
  - apply requestsAll_bind; [apply requestsAll_liftResult|done].
Qed.

(** One step of the walk through a program whose requests are requests to
    the API. *)
Ltac requests_step :=
  first [ apply requestsAll_getOauthToken
        | apply requestsAll_command
        | apply requestsAll_liftResult
        | apply requestsAll_bind; [|intros]
        | progress cbn [requestsAll]
        | exact I
        | case_match ].

Lemma runBody_requestsAll : requestsAll apiRequest (runBody getInput).
Proof. unfold runBody. repeat requests_step. Qed.

(** C19. Every request of a run is well formed: a POST to a path of the
    API, with the content type of JSON among its headers and a body that
    reads as an object. *)
Theorem run_requests_wellFormed (w : world) :
  Forall apiRequest (fetchesOf (execIO w 0 (run getInput)).1).
Proof.
  apply requestsAll_execIO, requestsAll_tryCatch; [apply runBody_requestsAll|done].
Qed.
End Liveness.

(** ** Examples *)

(** The six steps of a successful run. *)
Example run_varnish_purge_steps :
  outcomeOf (stepsOf exampleWorld 6
               (main (H := exampleEngine) (exampleInputs "varnish.purge")))
  = Some (Ok tt)
  /\ outcomeOf (stepsOf exampleWorld 5
                  (main (H := exampleEngine) (exampleInputs "varnish.purge")))
     = None.
Proof. by vm_compute. Qed.

Lemma run_refines_trace_witness :
  emitted (stepsOf exampleWorld 3 (main (H := exampleEngine) (exampleInputs "varnish.purge")))
  `prefix_of` trace (H := exampleEngine) (exampleInputs "varnish.purge") exampleWorld
  /\ (final (stepsOf exampleWorld 3 (main (H := exampleEngine) (exampleInputs "varnish.purge"))) ->
      emitted (stepsOf exampleWorld 3 (main (H := exampleEngine) (exampleInputs "varnish.purge")))
      = trace (H := exampleEngine) (exampleInputs "varnish.purge") exampleWorld).
Proof.
  apply (run_refines_trace (H := exampleEngine) (exampleInputs "varnish.purge") exampleWorld).
  apply stepsOf_steps.
Defined.

(** In the network [tokenOnly] the run is suspended at the request of
    the operation after three calls, and a run that makes no request
    reports. *)
Example run_varnish_purge_suspended :
  let c := nstepsOf tokenOnly 6 (main (H := exampleEngine) (exampleInputs "varnish.purge")) in
  outcomeOf c = None
  /\ emitted c
     = [EvInfo "Found Cloudways API operation: 'varnish'";
        EvFetch tokenUrl (tokenRequest (exampleInputs "varnish.purge"));
        EvInfo "Successfully authenticated with Cloudways API"]
  /\ answersFrom tokenOnly 0
       (requests (H := exampleEngine) (exampleInputs "varnish.purge") exampleWorld) = false
  /\ answersFrom tokenOnly 0
       (requests (H := exampleEngine) (exampleInputs "reboot") exampleWorld) = true.
Proof. by vm_compute. Qed.

Lemma extends_tokenOnly : extends exampleWorld tokenOnly.
Proof. by intros [|n] url options r [= <-]. Qed.

Lemma run_reports_when_answered_witness :
  eventually tokenOnly reported (main (H := exampleEngine) (exampleInputs "reboot"))
  <-> answersFrom tokenOnly 0
        (requests (H := exampleEngine) (exampleInputs "reboot") exampleWorld) = true.
Proof.
  apply (run_reports_when_answered (H := exampleEngine) (exampleInputs "reboot")).
  exact extends_tokenOnly.
Defined.
